(** * TinyGo runtime slice: timers, MIPS stack-switch primitives, RP2 ADC
      and USB, and the testing package.

    Shallow embedding of
    - [src/runtime/time.go]      (modules [Runtime], [Ticker]),
    - [src/runtime/asm_mipsx.S]  (module [Mips]),
    - the RP2040/RP2350 ADC file of package [machine] (modules [Machine],
      [MachineADC]),
    - the RP2040 USB device file of package [machine] (module
      [MachineUSB]),
    - package [testing]: [common.Cleanup] and [common.runCleanup] (module
      [Testing]), the log, the failure flags, [Setenv] and the directory
      names of [TempDir] (module [TestingCommon]),
    followed by the properties proved about them. *)

From Stdlib Require Import ZArith List Lia Bool String Ascii.
From stdpp Require Import base gmap list strings.
Import ListNotations.
Local Open Scope Z_scope.

(* ===================================================================== *)
(** * Go fixed-width integers *)
(* ===================================================================== *)

(** Go integers are carried by [Z]; every arithmetic result is reduced to
  the width of its type, which is what the Go language specifies for
  overflow ("wraps around"). *)
Module GoInt.

Definition int64_min : Z := - 2 ^ 63.
Definition int64_max : Z := 2 ^ 63 - 1.

Definition is_int64 (z : Z) : Prop := int64_min <= z <= int64_max.

(** Two's complement reduction to 64 bits. *)
Definition wrap_int64 (z : Z) : Z := (z + 2 ^ 63) mod 2 ^ 64 - 2 ^ 63.

(** [a + b] on [int64]. *)
Definition add_int64 (a b : Z) : Z := wrap_int64 (a + b).

Definition is_uint8 (z : Z) : Prop := 0 <= z < 256.

(** Conversion to (and arithmetic on) [uint8]. *)
Definition wrap_uint8 (z : Z) : Z := z mod 256.

Definition wrap_uint16 (z : Z) : Z := z mod 65536.

End GoInt.

(* ===================================================================== *)
(** * src/runtime/time.go *)
(* ===================================================================== *)

Module Runtime.
Import GoInt.

(** Modelled from the spec: the [timer] struct is declared outside
    time.go.  The spec's data model gives it a deadline, an optional
    period and an opaque callback; the two integer fields are the
    [int64] fields [when] and [period] that time.go reads and writes,
    and the callback is kept as an identifier. *)
Record timer : Type := mkTimer {
  when : Z;
  period : Z;
  f : nat
}.

(** The [callback] field of a node holds a function value of type
    [func(node *timerNode, delta int64)]; function values are compared
    by identity only. *)
Inductive nodeCallback : Type :=
| callback_nil
| callback_timerCallback
| callback_other (id : nat).

(** [timerNode]: the [next] link is represented by the position of the
    node in the queue (a list); [timer] is the timer the node points
    to, reached only through the node in this file. *)
Record timerNode : Type := mkNode {
  timer_ : timer;
  callback : nodeCallback
}.

(** What a run of the runtime lets the outside observe: each call of a
    timer's function, [tim.f(tim.arg, 0, delta)], with the timer as it
    was at the call. *)
Inductive event : Type :=
| CallCallback (tim : timer) (delta : Z).

Record state : Type := mkState {
  timerQueue : list timerNode;
  trace : list event
}.

(** Modelled from the spec: [timer.callCallback] is declared outside
    time.go; it invokes the timer's opaque callback with [delta], which
    is recorded as one event. *)
Definition callCallback (tim : timer) (delta : Z) (st : state) : state :=
  {| timerQueue := timerQueue st;
     trace := trace st ++ [CallCallback tim delta] |}.

Section TimeGo.
(** Declared per target, outside time.go. *)
Variable nanosecondsToTicks : Z -> Z.
(** The timer queue insertion of the scheduler, outside time.go. *)
Variable addTimer : timerNode -> list timerNode -> list timerNode.

(** [func (t *timerNode) whenTicks() timeUnit] *)
Definition whenTicks (t : timerNode) : Z :=
  nanosecondsToTicks (when (timer_ t)).

(** [func timerCallback(tn *timerNode, delta int64)].  The node is
    mutated in place; the function returns the node as it is left
    together with the new runtime state. *)
Definition timerCallback (tn : timerNode) (delta : Z) (st : state)
  : timerNode * state :=
  let st1 := callCallback (timer_ tn) delta st in
  if negb (period (timer_ tn) =? 0) then
    let tn' :=
      {| timer_ := {| when := add_int64 (when (timer_ tn)) (period (timer_ tn));
                      period := period (timer_ tn);
                      f := f (timer_ tn) |};
         callback := callback tn |} in
    (tn', {| timerQueue := addTimer tn' (timerQueue st1);
             trace := trace st1 |})
  else (tn, st1).
End TimeGo.

(** Modelled from the spec: [addTimer] is part of the scheduler, which
    is outside time.go.  "Converts the timer's deadline to ticks and
    inserts in sorted position (linear insertion)": the node goes in
    front of the first queued node with a strictly later deadline. *)
Fixpoint addTimer_sorted (toTicks : Z -> Z) (tim : timerNode)
    (q : list timerNode) : list timerNode :=
  match q with
  | [] => [tim]
  | n :: q' =>
      if whenTicks toTicks tim <? whenTicks toTicks n
      then tim :: n :: q'
      else n :: addTimer_sorted toTicks tim q'
  end.

(** A target whose tick is one nanosecond, and its timer queue. *)
Definition nanosecondsToTicks_id (ns : Z) : Z := ns.

Definition addTimer_ns : timerNode -> list timerNode -> list timerNode :=
  addTimer_sorted nanosecondsToTicks_id.

Definition ticker (first every : Z) : timerNode :=
  {| timer_ := {| when := first; period := every; f := 0%nat |};
     callback := callback_timerCallback |}.

Definition idle : state := {| timerQueue := []; trace := [] |}.

End Runtime.

(* ===================================================================== *)
(** * src/runtime/asm_mipsx.S *)
(* ===================================================================== *)

(** A MIPS32 (o32) machine large enough for the two routines of the
    file: the register file, word-addressed data memory, and the two
    program counters that give branch delay slots their meaning (the
    file is assembled with [.set noreorder]). *)
Module Mips.

Inductive reg : Type :=
| zero | at_ | v0 | v1 | a0 | a1 | a2 | a3
| t0 | t1 | t2 | t3 | t4 | t5 | t6 | t7
| s0 | s1 | s2 | s3 | s4 | s5 | s6 | s7
| t8 | t9 | k0 | k1 | gp | sp | s8 | ra.

#[export] Instance reg_eq_dec : EqDecision reg.
Proof. solve_decision. Defined.

(** Registers and memory words are 32 bits wide. *)
Definition wrap32 (z : Z) : Z := z mod 2 ^ 32.
Definition is_word (z : Z) : Prop := 0 <= z < 2 ^ 32.

(** The instructions that occur in asm_mipsx.S.  Immediates are the
    sign-extended 16-bit fields; [jal] carries the address its label
    resolves to; [move] is the assembler's register copy; the
    one-operand [jalr $rs] of the file is [jalr ra rs] (the link
    register defaults to [$31]). *)
Inductive instr : Type :=
| addiu (rt rs : reg) (imm : Z)
| sw (rt : reg) (off : Z) (base : reg)
| lw (rt : reg) (off : Z) (base : reg)
| move (rd rs : reg)
| jal (target : Z)
| jalr (rd rs : reg)
| jr (rs : reg)
| nop.

(** [pc] is the instruction being executed, [npc] the one after it: a
    jump replaces the successor of [npc], so the instruction in the
    delay slot still runs. *)
Record machine : Type := mkMachine {
  regs : reg -> Z;
  mem : gmap Z Z;
  pc : Z;
  npc : Z
}.

Definition getreg (m : machine) (r : reg) : Z :=
  if decide (r = zero) then 0 else regs m r.

Definition setreg (r : reg) (v : Z) (rf : reg -> Z) : reg -> Z :=
  fun r' => if decide (r' = r) then (if decide (r = zero) then rf r' else v)
            else rf r'.

Definition aligned (a : Z) : bool := a mod 4 =? 0.

(** Effect of one instruction on registers and memory, and the jump
    target if it is a jump.  A misaligned word access is an address
    error and a load from an unmapped word is a bus error: both stop
    the machine ([None]).  [jalr] follows the operation given for it in
    the architecture manual: the target is read from [rs] first, then
    the link [pc + 8] is written to [rd]; this is also what happens
    when both are [$31], as in [jalr $ra]. *)
Definition exec (i : instr) (m : machine)
  : option ((reg -> Z) * gmap Z Z * option Z) :=
  match i with
  | addiu rt rs imm =>
      Some (setreg rt (wrap32 (getreg m rs + imm)) (regs m), mem m, None)
  | sw rt off base =>
      let a := wrap32 (getreg m base + off) in
      if aligned a then Some (regs m, <[a := getreg m rt]> (mem m), None)
      else None
  | lw rt off base =>
      let a := wrap32 (getreg m base + off) in
      if aligned a then
        match mem m !! a with
        | Some w => Some (setreg rt w (regs m), mem m, None)
        | None => None
        end
      else None
  | move rd rs => Some (setreg rd (getreg m rs) (regs m), mem m, None)
  | jal target =>
      Some (setreg ra (wrap32 (pc m + 8)) (regs m), mem m, Some target)
  | jalr rd rs =>
      let target := getreg m rs in
      Some (setreg rd (wrap32 (pc m + 8)) (regs m), mem m, Some target)
  | jr rs => Some (regs m, mem m, Some (getreg m rs))
  | nop => Some (regs m, mem m, None)
  end.

(** A linked image: the text loaded at its addresses, and the entry
    points of functions defined in other objects, each given by what a
    complete call of it does to the machine. *)
Record image : Type := mkImage {
  text : Z -> option instr;
  extern : Z -> option (machine -> machine)
}.

Definition step (img : image) (m : machine) : option machine :=
  match extern img (pc m) with
  | Some call => Some (call m)
  | None =>
      match text img (pc m) with
      | Some i =>
          match exec i m with
          | Some (rf, mm, jump) =>
              Some {| regs := rf; mem := mm; pc := npc m;
                      npc := match jump with
                             | Some target => target
                             | None => wrap32 (npc m + 4)
                             end |}
          | None => None
          end
      | None => None
      end
  end.

Fixpoint run (img : image) (n : nat) (m : machine) : option machine :=
  match n with
  | O => Some m
  | S k => match step img m with
           | Some m' => run img k m'
           | None => None
           end
  end.

(** Text of a routine placed at [base]. *)
Definition load (base : Z) (code : list instr) (a : Z) : option instr :=
  if (base <=? a) && aligned (a - base)
  then code !! Z.to_nat ((a - base) / 4)
  else None.

(** [tinygo_scanCurrentStack], lines 8-34; the label [tinygo_scanstack]
    is resolved to [scanstack]. *)
Definition tinygo_scanCurrentStack (scanstack : Z) : list instr :=
  [ addiu sp sp (-40);
    sw ra 36 sp;
    sw s8 32 sp;
    sw s7 28 sp;
    sw s6 24 sp;
    sw s5 20 sp;
    sw s4 16 sp;
    sw s3 12 sp;
    sw s2 8 sp;
    sw s1 4 sp;
    sw s0 0 sp;
    jal scanstack;
    move a0 sp;
    lw ra 36 sp;
    addiu sp sp 40;
    jalr ra ra;
    nop ].

(** [tinygo_longjmp], lines 38-44. *)
Definition tinygo_longjmp : list instr :=
  [ lw sp 0 a0;
    lw a1 4 a0;
    jr a1;
    nop ].

(** Address of the [k]-th instruction of a routine placed at [base]. *)
Definition addr (base : Z) (k : nat) : Z := base + 4 * Z.of_nat k.

(** The frame [tinygo_scanCurrentStack] builds: offset from the new
    stack pointer, and the register stored there (lines 11-20). *)
Definition saved_frame : list (Z * reg) :=
  [ (36, ra); (32, s8); (28, s7); (24, s6); (20, s5);
    (16, s4); (12, s3); (8, s2); (4, s1); (0, s0) ].

(** The image in which [tinygo_scanCurrentStack] sits at [base] and
    the Go function [tinygo_scanstack] at [scanstack]. *)
Definition scan_image (base scanstack : Z) (gc : machine -> machine)
  : image :=
  {| text := load base (tinygo_scanCurrentStack scanstack);
     extern := fun a => if a =? scanstack then Some gc else None |}.

Definition longjmp_image (base : Z) : image :=
  {| text := load base tinygo_longjmp;
     extern := fun _ => None |}.

(** The state in which a routine at [base] is entered by a call. *)
Definition entered (base : Z) (m : machine) : Prop :=
  pc m = base /\ npc m = base + 4.

(** The registers [tinygo_scanCurrentStack] pushes as callee-saved
    (lines 9-20), in the order of the pushes. *)
Definition callee_saved : list reg :=
  [ra; s8; s7; s6; s5; s4; s3; s2; s1; s0].

(** Those of them that every function called under the o32 convention
    hands back as it got them. *)
Definition o32_saved : list reg := [s0; s1; s2; s3; s4; s5; s6; s7; s8].

(** What the o32 convention guarantees of a complete call of a
    conforming function [call]: it comes back to the address in [ra],
    with the saved registers and the stack pointer as they were, and
    it has not written the caller's frame above the 16-byte argument
    area, which belongs to the callee. *)
Definition o32_call (call : machine -> machine) : Prop :=
  forall m,
    pc (call m) = getreg m ra /\
    npc (call m) = wrap32 (getreg m ra + 4) /\
    getreg (call m) sp = getreg m sp /\
    (forall r, r ∈ o32_saved -> getreg (call m) r = getreg m r) /\
    (forall k, 16 <= k < 40 ->
       mem (call m) !! wrap32 (getreg m sp + k)
       = mem m !! wrap32 (getreg m sp + k)).

(** A root scanner that records the bound it was given in [v0] and
    returns; used to run the routine on concrete states. *)
Definition scanstack_stub (m : machine) : machine :=
  {| regs := setreg v0 (getreg m a0) (setreg a0 0 (regs m));
     mem := mem m;
     pc := getreg m ra;
     npc := wrap32 (getreg m ra + 4) |}.

Definition boot (entry : Z) (rf : reg -> Z) (mm : gmap Z Z) : machine :=
  {| regs := rf; mem := mm; pc := entry; npc := entry + 4 |}.

(** A caller's registers: stack at 0x8000, return address 0x3000, the
    saved registers holding recognisable values. *)
Definition caller_regs : reg -> Z :=
  fun r =>
    match r with
    | sp => 0x8000 | ra => 0x3000 | a0 => 0x4000
    | s0 => 100 | s1 => 101 | s2 => 102 | s3 => 103 | s4 => 104
    | s5 => 105 | s6 => 106 | s7 => 107 | s8 => 108
    | _ => 7
    end.

(** The same caller with a stack pointer that is not a multiple of
    four. *)
Definition odd_stack_regs : reg -> Z := setreg sp 0x8002 caller_regs.

(** A jump block at 0x4000: stack pointer 0x9000, resume address
    0x5000. *)
Definition jump_block : gmap Z Z := <[0x4000 := 0x9000]> (<[0x4004 := 0x5000]> ∅).

End Mips.

(* ===================================================================== *)
(** * package machine: the RP2040 / RP2350 ADC *)
(* ===================================================================== *)

Module Machine.
Import GoInt.

(** [type ADC struct { Pin Pin }] with [type Pin uint8]; both are
    declared elsewhere in package machine. *)
Record ADC : Type := mkADC { Pin : Z }.

(** Go [error] values; [None] is the [nil] error. *)
Inductive error : Type :=
| errors_New (msg : string).

Section RP2.
(** The first ADC-capable pin, a [Pin] constant of the board
    definition. *)
Variable ADC0 : Z.

(** The ADC block as the driver sees it.  [sample c] stands for the
    register traffic of one conversion on mux channel [c] (take
    [adcLock], select the channel in [ADC.CS], start, spin in
    [waitForReady], release the lock, read [ADC.RESULT]) and yields
    the 32-bit value read from [ADC.RESULT]. *)
Variable peripheral : Type.
Variable sample : Z -> peripheral -> Z * peripheral.

(** [func (c ADCChannel) getOnce() uint16]: the 12-bit reading is
    scaled to 16 bits, [uint16(rp.ADC.RESULT.Get()) << 4]. *)
Definition ADCChannel_getOnce (c : Z) (hw : peripheral)
  : Z * peripheral :=
  let '(raw, hw') := sample c hw in
  (wrap_uint16 (Z.shiftl (wrap_uint16 raw) 4), hw').

(** [func (a ADC) GetADCChannel() (c ADCChannel, err error)] *)
Definition ADC_GetADCChannel (a : ADC) : Z * option error :=
  if Pin a <? ADC0
  then (0, Some (errors_New "no ADC channel for pin value"))
  else (wrap_uint8 (Pin a - ADC0), None).

(** [func (a ADC) Get() uint16] *)
Definition ADC_Get (a : ADC) (hw : peripheral) : Z * peripheral :=
  match ADC_GetADCChannel a with
  | (c, None) => ADCChannel_getOnce c hw
  | (_, Some _) => (0, hw)
  end.

(** [func (c ADCChannel) Pin() (p Pin, err error)] *)
Definition ADCChannel_Pin (c : Z) : Z * option error :=
  (wrap_uint8 (c + ADC0), None).
End RP2.

Arguments ADCChannel_getOnce {peripheral} sample c hw.
Arguments ADC_Get ADC0 {peripheral} sample a hw.

(** GPIO26, the first analog input of the RP2040. *)
Definition GPIO26 : Z := 26.

(** A peripheral without state whose every conversion reads 0x123. *)
Definition sample_const : Z -> unit -> Z * unit := fun _ hw => (0x123, hw).

End Machine.

(* ===================================================================== *)
(** * package testing: the cleanup stack *)
(* ===================================================================== *)

Module Testing.

(** A value of type [func()]: [nil], or a function, identified by a
    number. *)
Inductive func : Type :=
| nil
| fn (id : nat).

(** What a call of a function does, as far as the cleanup stack can
    tell: it returns, or it panics, having called [c.Cleanup] on the
    same test with these functions, in this order; or it does not
    return. *)
Inductive effect : Type :=
| returns (registered : list func)
| panics (registered : list func)
| hangs.

(** The one field of [common] that [Cleanup] and [runCleanup] use. *)
Record common : Type := mkCommon {
  cleanups : list func
}.

(** [func (c *common) Cleanup(f func())] *)
Definition Cleanup (c : common) (f : func) : common :=
  {| cleanups := cleanups c ++ [f] |}.

(** Registering a sequence of functions, first to last. *)
Definition register (c : common) (fs : list func) : common :=
  fold_left Cleanup fs c.

(** The first half of the loop body of [runCleanup]: take the last
    registered function off the slice, or leave [cleanup] nil. *)
Definition take_last (c : common) : func * common :=
  if (0 <? length (cleanups c))%nat then
    let last := (length (cleanups c) - 1)%nat in
    (nth last (cleanups c) nil, {| cleanups := firstn last (cleanups c) |})
  else (nil, c).

(** How [runCleanup] ends: by its [return], or by the panic of a
    function it called; with the test as it is then and the calls
    made. *)
Inductive result : Type :=
| returned (c : common) (called : list nat)
| panicked (c : common) (called : list nat).

Section Functions.
(** What the function [id] does when it is called, the calls made
    before it being [called] (a function may do something else every
    time it is called). *)
Variable behaviour : nat -> list nat -> effect.

(** [func (c *common) runCleanup()], for at most [turns] turns of its
    loop.  Every turn reads [c.cleanups] anew, so that what a cleanup
    has registered is seen by the next turn.  [None]: the loop has not
    ended within [turns] turns, or a function it called does not
    return. *)
Fixpoint runCleanup (turns : nat) (c : common) (called : list nat)
  : option result :=
  match turns with
  | O => None
  | S turns =>
      match take_last c with
      | (nil, c') => Some (returned c' called)
      | (fn id, c') =>
          match behaviour id called with
          | returns registered =>
              runCleanup turns (register c' registered) (called ++ [id])
          | panics registered =>
              Some (panicked (register c' registered) (called ++ [id]))
          | hangs => None
          end
      end
  end.
End Functions.

(** Functions that return and register nothing. *)
Definition inert (id : nat) (called : list nat) : effect := returns [].

(** The function 2 registers the function 3 when it is called; the
    others return and register nothing. *)
Definition second_registers_third (id : nat) (called : list nat) : effect :=
  if (id =? 2)%nat then returns [fn 3] else returns [].

End Testing.

(* ===================================================================== *)
(** * src/runtime/time.go: a ticker over several firings *)
(* ===================================================================== *)

Module Ticker.
Import GoInt Runtime.

(** [timerCallback] applied to one node once for each firing, the
    firings given by their [delta]s in order. *)
Fixpoint fire_each (addTimer : timerNode -> list timerNode -> list timerNode)
    (tn : timerNode) (deltas : list Z) (st : state) : timerNode * state :=
  match deltas with
  | [] => (tn, st)
  | delta :: rest =>
      let '(tn', st') := timerCallback addTimer tn delta st in
      fire_each addTimer tn' rest st'
  end.

(** The [delta] a recorded call was made with. *)
Definition delta_of (e : event) : Z :=
  match e with CallCallback _ delta => delta end.

End Ticker.

(* ===================================================================== *)
(** * package machine: ADC configuration, voltage and temperature *)
(* ===================================================================== *)

Module MachineADC.
Import GoInt Machine.

Definition wrap_uint32 (z : Z) : Z := z mod 2 ^ 32.

(** Two's complement reduction to 32 bits ([int32]). *)
Definition wrap_int32 (z : Z) : Z := (z + 2 ^ 31) mod 2 ^ 32 - 2 ^ 31.

(** [ADCConfig], declared elsewhere in package machine; of its fields
    the file reads [Reference] (a [uint32], in millivolts) only. *)
Record ADCConfig : Type := mkADCConfig { Reference : Z }.

(** The return expression of [ReadTemperature],
    [(27000<<16 - (int32(v)-706<<16)*581) >> 16], on [int32]: shifts bind
    like multiplication, every operation wraps, and [>>] is the
    arithmetic shift. *)
Definition millicelsius (v : Z) : Z :=
  Z.shiftr
    (wrap_int32 (Z.shiftl 27000 16
                 - wrap_int32 (wrap_int32 (wrap_int32 v - Z.shiftl 706 16) * 581)))
    16.

Section Driver.
Variable ADC0 : Z.
(** The channel constant of the temperature sensor, from the board
    definition. *)
Variable thermADC : Z.

(** The peripheral, as in [Machine]: [sample] is one conversion;
    [configure_analog p] is [p.Configure(PinConfig{Mode: PinAnalog})];
    [enabled] is [rp.ADC.CS.Get()&rp.ADC_CS_EN != 0]; [reset_enable] is
    the register traffic of [InitADC] (reset, enable, wait);
    [enable_temp_sensor] is [rp.ADC.CS.SetBits(rp.ADC_CS_TS_EN)]. *)
Variable peripheral : Type.
Variable sample : Z -> peripheral -> Z * peripheral.
Variable configure_analog : Z -> peripheral -> peripheral.
Variable enabled : peripheral -> bool.
Variable reset_enable : peripheral -> peripheral.
Variable enable_temp_sensor : peripheral -> peripheral.

(** The package variable [adcAref] and the peripheral. *)
Record adc : Type := mkAdc {
  adcAref : Z;
  hw : peripheral
}.

(** [func InitADC()] *)
Definition InitADC (st : adc) : adc :=
  {| adcAref := 3300; hw := reset_enable (hw st) |}.

(** [func (c ADCChannel) Configure(config ADCConfig) error] *)
Definition ADCChannel_Configure (c : Z) (config : ADCConfig) (st : adc)
  : option error * adc :=
  let st1 :=
    if negb (Reference config =? 0)
    then {| adcAref := Reference config; hw := hw st |}
    else st in
  match ADCChannel_Pin ADC0 c with
  | (_, Some err) => (Some err, st1)
  | (p, None) =>
      (None, {| adcAref := adcAref st1; hw := configure_analog p (hw st1) |})
  end.

(** [func (a ADC) Configure(config ADCConfig) error] *)
Definition ADC_Configure (a : ADC) (config : ADCConfig) (st : adc)
  : option error * adc :=
  match ADC_GetADCChannel ADC0 a with
  | (_, Some err) => (Some err, st)
  | (c, None) => ADCChannel_Configure c config st
  end.

(** [func (c ADCChannel) getVoltage() uint32]:
    [(adcAref << 16) / (1 << 12) * uint32(c.getOnce()>>4)] on [uint32]. *)
Definition ADCChannel_getVoltage (c : Z) (st : adc) : Z * adc :=
  let '(reading, hw') := ADCChannel_getOnce sample c (hw st) in
  (wrap_uint32 (wrap_uint32 (Z.shiftl (adcAref st) 16) / Z.shiftl 1 12
                * Z.shiftr reading 4),
   {| adcAref := adcAref st; hw := hw' |}).

(** [func ReadTemperature() (millicelsius int32)]; the error of
    [GetADCChannel] is dropped, as in the source. *)
Definition ReadTemperature (st : adc) : Z * adc :=
  let st1 := if negb (enabled (hw st)) then InitADC st else st in
  let thermChan := fst (ADC_GetADCChannel ADC0 {| Pin := thermADC |}) in
  let st2 := {| adcAref := adcAref st1; hw := enable_temp_sensor (hw st1) |} in
  let '(v, st3) := ADCChannel_getVoltage thermChan st2 in
  (millicelsius v, st3).

End Driver.

Arguments mkAdc {peripheral} adcAref hw.
Arguments adcAref {peripheral} a.
Arguments hw {peripheral} a.
Arguments InitADC {peripheral} reset_enable st.
Arguments ADCChannel_Configure ADC0 {peripheral} configure_analog c config st.
Arguments ADC_Configure ADC0 {peripheral} configure_analog a config st.
Arguments ADCChannel_getVoltage {peripheral} sample c st.
Arguments ReadTemperature ADC0 thermADC {peripheral} sample enabled
  reset_enable enable_temp_sensor st.

(** A peripheral that is the list of the pins put in analog mode, most
    recent first. *)
Definition configure_log (p : Z) (configured : list Z) : list Z :=
  p :: configured.

End MachineADC.

(* ===================================================================== *)
(** * package machine: the RP2040 USB device controller *)
(* ===================================================================== *)

(** The endpoint memory of the controller and the package variables of
    the file.  Bytes and registers are [Z]; arrays are lists of their
    fixed length; a slice is its elements together with the rest of
    its backing array, up to its capacity; an index or slice bound out
    of range is a run-time panic, [None].  A register holds the value
    last stored in it: what the controller does to the endpoint memory
    between two accesses is not part of the model. *)
Module MachineUSB.
Import GoInt MachineADC.

(** Endpoint buffer control bits and the buffer length (the [const]
    block at the end of the file). *)
Definition usbEpControlEnable : Z := 0x80000000.
Definition usbEpControlInterruptPerBuff : Z := 0x20000000.
Definition usbEpControlEndpointTypeControl : Z := 0x00000000.
Definition usbEpControlEndpointTypeBulk : Z := 0x08000000.
Definition usbEpControlEndpointTypeInterrupt : Z := 0x0c000000.
Definition usbBuf0CtrlFull : Z := 0x00008000.
Definition usbBuf0CtrlData1Pid : Z := 0x00002000.
Definition usbBuf0CtrlStall : Z := 0x00000800.
Definition usbBuf0CtrlAvail : Z := 0x00000400.
Definition usbBuf0CtrlLenMask : Z := 0x000003FF.
Definition usbBufferLen : Z := 64.

(** [usbEndpointControlRegister] and [usbBufferControlRegister]: two
    32-bit registers each. *)
Record register_pair : Type := mkPair { In : Z; Out : Z }.

Record usbBuffer : Type := mkBuffer {
  Buffer0 : list Z;
  Buffer1 : list Z
}.

(** A slice of bytes: the elements within its length, and the elements
    of its backing array after them, up to its capacity. *)
Record slice : Type := mkSlice {
  elems : list Z;
  spare : list Z
}.

(** [len(s)] and [cap(s)]. *)
Definition len (s : slice) : Z := Z.of_nat (length (elems s)).
Definition cap (s : slice) : Z :=
  Z.of_nat (length (elems s) + length (spare s)).

(** [[]byte{}] *)
Definition empty : slice := {| elems := []; spare := [] |}.

(** [_usbDPSRAM] (its three arrays), [epXdata0], [setupBytes], the two
    fields of [sendOnEP0DATADONE] that the file uses, and the controller
    registers written by the functions below. *)
Record usb : Type := mkUsb {
  EPxControl : list register_pair;
  EPxBufferControl : list register_pair;
  EPxBuffer : list usbBuffer;
  epXdata0 : list bool;
  setupBytes : list Z;
  offset : Z;
  data : slice;
  EP_STALL_ARM : Z;
  ADDR_ENDP : Z;
  SIE_STATUS : Z
}.

Definition set_EPxControl (v : list register_pair) (st : usb) : usb :=
  {| EPxControl := v; EPxBufferControl := EPxBufferControl st;
     EPxBuffer := EPxBuffer st; epXdata0 := epXdata0 st;
     setupBytes := setupBytes st; offset := offset st; data := data st;
     EP_STALL_ARM := EP_STALL_ARM st; ADDR_ENDP := ADDR_ENDP st;
     SIE_STATUS := SIE_STATUS st |}.

Definition set_EPxBufferControl (v : list register_pair) (st : usb) : usb :=
  {| EPxControl := EPxControl st; EPxBufferControl := v;
     EPxBuffer := EPxBuffer st; epXdata0 := epXdata0 st;
     setupBytes := setupBytes st; offset := offset st; data := data st;
     EP_STALL_ARM := EP_STALL_ARM st; ADDR_ENDP := ADDR_ENDP st;
     SIE_STATUS := SIE_STATUS st |}.

Definition set_EPxBuffer (v : list usbBuffer) (st : usb) : usb :=
  {| EPxControl := EPxControl st; EPxBufferControl := EPxBufferControl st;
     EPxBuffer := v; epXdata0 := epXdata0 st;
     setupBytes := setupBytes st; offset := offset st; data := data st;
     EP_STALL_ARM := EP_STALL_ARM st; ADDR_ENDP := ADDR_ENDP st;
     SIE_STATUS := SIE_STATUS st |}.

Definition set_epXdata0 (v : list bool) (st : usb) : usb :=
  {| EPxControl := EPxControl st; EPxBufferControl := EPxBufferControl st;
     EPxBuffer := EPxBuffer st; epXdata0 := v;
     setupBytes := setupBytes st; offset := offset st; data := data st;
     EP_STALL_ARM := EP_STALL_ARM st; ADDR_ENDP := ADDR_ENDP st;
     SIE_STATUS := SIE_STATUS st |}.

Definition set_setupBytes (v : list Z) (st : usb) : usb :=
  {| EPxControl := EPxControl st; EPxBufferControl := EPxBufferControl st;
     EPxBuffer := EPxBuffer st; epXdata0 := epXdata0 st;
     setupBytes := v; offset := offset st; data := data st;
     EP_STALL_ARM := EP_STALL_ARM st; ADDR_ENDP := ADDR_ENDP st;
     SIE_STATUS := SIE_STATUS st |}.

Definition set_offset (v : Z) (st : usb) : usb :=
  {| EPxControl := EPxControl st; EPxBufferControl := EPxBufferControl st;
     EPxBuffer := EPxBuffer st; epXdata0 := epXdata0 st;
     setupBytes := setupBytes st; offset := v; data := data st;
     EP_STALL_ARM := EP_STALL_ARM st; ADDR_ENDP := ADDR_ENDP st;
     SIE_STATUS := SIE_STATUS st |}.

Definition set_data (v : slice) (st : usb) : usb :=
  {| EPxControl := EPxControl st; EPxBufferControl := EPxBufferControl st;
     EPxBuffer := EPxBuffer st; epXdata0 := epXdata0 st;
     setupBytes := setupBytes st; offset := offset st; data := v;
     EP_STALL_ARM := EP_STALL_ARM st; ADDR_ENDP := ADDR_ENDP st;
     SIE_STATUS := SIE_STATUS st |}.

Definition set_EP_STALL_ARM (v : Z) (st : usb) : usb :=
  {| EPxControl := EPxControl st; EPxBufferControl := EPxBufferControl st;
     EPxBuffer := EPxBuffer st; epXdata0 := epXdata0 st;
     setupBytes := setupBytes st; offset := offset st; data := data st;
     EP_STALL_ARM := v; ADDR_ENDP := ADDR_ENDP st;
     SIE_STATUS := SIE_STATUS st |}.

Definition set_ADDR_ENDP (v : Z) (st : usb) : usb :=
  {| EPxControl := EPxControl st; EPxBufferControl := EPxBufferControl st;
     EPxBuffer := EPxBuffer st; epXdata0 := epXdata0 st;
     setupBytes := setupBytes st; offset := offset st; data := data st;
     EP_STALL_ARM := EP_STALL_ARM st; ADDR_ENDP := v;
     SIE_STATUS := SIE_STATUS st |}.

Definition set_SIE_STATUS (v : Z) (st : usb) : usb :=
  {| EPxControl := EPxControl st; EPxBufferControl := EPxBufferControl st;
     EPxBuffer := EPxBuffer st; epXdata0 := epXdata0 st;
     setupBytes := setupBytes st; offset := offset st; data := data st;
     EP_STALL_ARM := EP_STALL_ARM st; ADDR_ENDP := ADDR_ENDP st;
     SIE_STATUS := v |}.

(** [a[i] = x] on an array: a panic when [i] is out of range. *)
Definition array_set {A : Type} (a : list A) (i : nat) (x : A)
  : option (list A) :=
  if decide (i < length a)%nat then Some (<[i := x]> a) else None.

(** [s[:n]] on a slice: a panic unless [0 <= n <= cap(s)]; the result
    may reach into the backing array beyond the length of [s]. *)
Definition slice_to (s : slice) (n : Z) : option slice :=
  if (0 <=? n) && (n <=? cap s)
  then Some {| elems := take (Z.to_nat n) (elems s ++ spare s);
               spare := drop (Z.to_nat n) (elems s ++ spare s) |}
  else None.


(** [a[:n]] on an array, whose capacity is its length: the elements of
    the resulting slice, or a panic. *)
Definition array_to (a : list Z) (n : Z) : option (list Z) :=
  if (0 <=? n) && (n <=? Z.of_nat (length a))
  then Some (take (Z.to_nat n) a) else None.

(** The builtin [copy(dst, src)], on the elements of the two slices:
    the first [min(len(dst), len(src))] elements of [dst] are
    replaced. *)
Definition copy (dst src : list Z) : list Z :=
  take (length dst) src ++ drop (length src) dst.

(** The array index that the endpoint address [ep] selects in
    [sendViaEPIn] and [sendStallViaEPIn]: [ep&0x7F]. *)
Definition ep_index (ep : Z) : nat := Z.to_nat (Z.land ep 0x7F).

(** [func sendViaEPIn(ep uint32, data []byte, count int)] *)
Definition sendViaEPIn (ep : Z) (data : slice) (count : Z) (st : usb)
  : option usb :=
  let val := Z.lor (wrap_uint32 count) usbBuf0CtrlAvail in
  b ← epXdata0 st !! ep_index ep;
  toggles ← array_set (epXdata0 st) (ep_index ep) (negb b);
  let val := if negb (negb b) then Z.lor val usbBuf0CtrlData1Pid else val in
  let val := Z.lor val usbBuf0CtrlFull in
  src ← slice_to data count;
  buf ← EPxBuffer st !! ep_index ep;
  buffers ← array_set (EPxBuffer st) (ep_index ep)
              {| Buffer0 := copy (Buffer0 buf) (elems src);
                 Buffer1 := Buffer1 buf |};
  ctl ← EPxBufferControl st !! ep_index ep;
  controls ← array_set (EPxBufferControl st) (ep_index ep)
               {| In := val; Out := Out ctl |};
  Some (set_EPxBufferControl controls
          (set_EPxBuffer buffers (set_epXdata0 toggles st))).

Section Packets.
(** [usb.EndpointPacketSize], from package machine/usb. *)
Variable EndpointPacketSize : Z.

(** [func sendUSBPacket(ep uint32, data []byte, maxsize uint16)] *)
Definition sendUSBPacket (ep : Z) (data : slice) (maxsize : Z) (st : usb)
  : option usb :=
  let count := len data in
  let count := if (0 <? maxsize) && (maxsize <? count) then maxsize
               else count in
  if ep =? 0 then
    let '(count, st) :=
      if EndpointPacketSize <? count
      then (EndpointPacketSize,
            set_data data (set_offset EndpointPacketSize st))
      else (count, set_offset 0 st) in
    toggles ← array_set (epXdata0 st) (Z.to_nat ep) true;
    sendViaEPIn ep data count (set_epXdata0 toggles st)
  else sendViaEPIn ep data count st.

(** [func SendUSBInPacket(ep uint32, data []byte) bool] *)
Definition SendUSBInPacket (ep : Z) (data : slice) (st : usb)
  : option (bool * usb) :=
  st' ← sendUSBPacket ep data 0 st;
  Some (true, st').

(** [func SendZlp()] *)
Definition SendZlp (st : usb) : option usb := sendUSBPacket 0 empty 0 st.

End Packets.

(** [func handleEndpointRx(ep uint32) []byte]; the bytes returned are
    those in the buffer at the time of the call. *)
Definition handleEndpointRx (ep : Z) (st : usb) : option (list Z * usb) :=
  ctl ← EPxBufferControl st !! Z.to_nat ep;
  let ctrl := Out ctl in
  controls ← array_set (EPxBufferControl st) (Z.to_nat ep)
               {| In := In ctl;
                  Out := Z.land usbBufferLen usbBuf0CtrlLenMask |};
  let sz := Z.land ctrl usbBuf0CtrlLenMask in
  buf ← EPxBuffer st !! Z.to_nat ep;
  received ← array_to (Buffer0 buf) sz;
  Some (received, set_EPxBufferControl controls st).

(** [SetBits] on the [Out] half of a buffer control register. *)
Definition Out_SetBits (ep : Z) (bits : Z) (st : usb) : option usb :=
  ctl ← EPxBufferControl st !! Z.to_nat ep;
  controls ← array_set (EPxBufferControl st) (Z.to_nat ep)
               {| In := In ctl; Out := Z.lor (Out ctl) bits |};
  Some (set_EPxBufferControl controls st).

(** [func handleEndpointRxComplete(ep uint32)] *)
Definition handleEndpointRxComplete (ep : Z) (st : usb) : option usb :=
  b ← epXdata0 st !! Z.to_nat ep;
  toggles ← array_set (epXdata0 st) (Z.to_nat ep) (negb b);
  let st := set_epXdata0 toggles st in
  st ← (if negb b || (ep =? 0)
        then Out_SetBits ep usbBuf0CtrlData1Pid st else Some st);
  Out_SetBits ep usbBuf0CtrlAvail st.

(** [byte(x)]. *)
Definition byte (x : Z) : Z := x mod 256.

(** [func (d *usbDPSRAM) setupBytes() []byte]; [control] is
    [usb.CONTROL_ENDPOINT], from package machine/usb. *)
Definition usbDPSRAM_setupBytes (control : Z) (st : usb)
  : option (list Z * usb) :=
  ctl ← EPxControl st !! Z.to_nat control;
  let data := In ctl in
  s ← array_set (setupBytes st) 0 (byte data);
  s ← array_set s 1 (byte (Z.shiftr data 8));
  s ← array_set s 2 (byte (Z.shiftr data 16));
  s ← array_set s 3 (byte (Z.shiftr data 24));
  let data := Out ctl in
  s ← array_set s 4 (byte data);
  s ← array_set s 5 (byte (Z.shiftr data 8));
  s ← array_set s 6 (byte (Z.shiftr data 16));
  s ← array_set s 7 (byte (Z.shiftr data 24));
  Some (s, set_setupBytes s st).

(** One turn of the loop of [clear]. *)
Definition clear_entry (i : nat) (st : usb) : option usb :=
  controls ← array_set (EPxControl st) i {| In := 0; Out := 0 |};
  buffer_controls ← array_set (EPxBufferControl st) i {| In := 0; Out := 0 |};
  Some (set_EPxBufferControl buffer_controls (set_EPxControl controls st)).

Fixpoint clear_from (i : nat) (turns : nat) (st : usb) : option usb :=
  match turns with
  | O => Some st
  | S turns => st ← clear_entry i st; clear_from (S i) turns st
  end.

(** [func (d *usbDPSRAM) clear()]:
    [for i := 0; i < len(d.EPxControl); i++]. *)
Definition usbDPSRAM_clear (st : usb) : option usb :=
  clear_from 0 (length (EPxControl st)) st.

(** The arrays have their declared lengths. *)
Definition well_formed (st : usb) : Prop :=
  length (EPxControl st) = 16%nat /\
  length (EPxBufferControl st) = 16%nat /\
  length (EPxBuffer st) = 16%nat /\
  Forall (fun buf => length (Buffer0 buf) = 64%nat
                     /\ length (Buffer1 buf) = 64%nat) (EPxBuffer st) /\
  length (epXdata0 st) = 16%nat /\
  length (setupBytes st) = 8%nat.

(** The state after reset: everything zero. *)
Definition reset_state : usb :=
  {| EPxControl := replicate 16 {| In := 0; Out := 0 |};
     EPxBufferControl := replicate 16 {| In := 0; Out := 0 |};
     EPxBuffer := replicate 16 {| Buffer0 := replicate 64 0;
                                  Buffer1 := replicate 64 0 |};
     epXdata0 := replicate 16 false;
     setupBytes := replicate 8 0;
     offset := 0;
     data := empty;
     EP_STALL_ARM := 0;
     ADDR_ENDP := 0;
     SIE_STATUS := 0 |}.

(** What the controller transmits for the IN buffer of endpoint [i]:
    the first [len] bytes of [Buffer0], [len] being the length field of
    the control word, and whether the packet is DATA1. *)
Definition in_packet (i : nat) (st : usb) : option (list Z * bool) :=
  ctl ← EPxBufferControl st !! i;
  buf ← EPxBuffer st !! i;
  Some (take (Z.to_nat (Z.land (In ctl) usbBuf0CtrlLenMask)) (Buffer0 buf),
        negb (Z.land (In ctl) usbBuf0CtrlData1Pid =? 0)).

Definition usbEpControlEndpointType : Z := 0x0c000000.
Definition usbEpControlBufferAddress : Z := 0x0000ffff.

(** [Set] on one half of an endpoint control register or of a buffer
    control register. *)
Definition EPxControl_In_Set (ep v : Z) (st : usb) : option usb :=
  ctl ← EPxControl st !! Z.to_nat ep;
  controls ← array_set (EPxControl st) (Z.to_nat ep)
               {| In := v; Out := Out ctl |};
  Some (set_EPxControl controls st).

Definition EPxControl_Out_Set (ep v : Z) (st : usb) : option usb :=
  ctl ← EPxControl st !! Z.to_nat ep;
  controls ← array_set (EPxControl st) (Z.to_nat ep)
               {| In := In ctl; Out := v |};
  Some (set_EPxControl controls st).

Definition EPxBufferControl_Out_Set (ep v : Z) (st : usb) : option usb :=
  ctl ← EPxBufferControl st !! Z.to_nat ep;
  controls ← array_set (EPxBufferControl st) (Z.to_nat ep)
               {| In := In ctl; Out := v |};
  Some (set_EPxBufferControl controls st).

Section Endpoints.
(** Endpoint types and directions of package machine/usb. *)
Variable ENDPOINT_TYPE_CONTROL : Z.
Variable ENDPOINT_TYPE_BULK : Z.
Variable ENDPOINT_TYPE_INTERRUPT : Z.
Variable EndpointIn : Z.
Variable EndpointOut : Z.

(** [func initEndpoint(ep, config uint32)]; the [switch] has no default
    case. *)
Definition initEndpoint (ep config : Z) (st : usb) : option usb :=
  let val := Z.lor usbEpControlEnable usbEpControlInterruptPerBuff in
  let offset := wrap_uint32 (ep * 2 * usbBufferLen + 0x100) in
  let val := Z.lor val offset in
  if config =? Z.lor ENDPOINT_TYPE_INTERRUPT EndpointIn then
    let val := Z.lor val usbEpControlEndpointTypeInterrupt in
    EPxControl_In_Set ep val st
  else if config =? Z.lor ENDPOINT_TYPE_BULK EndpointOut then
    let val := Z.lor val usbEpControlEndpointTypeBulk in
    st ← EPxControl_Out_Set ep val st;
    st ← EPxBufferControl_Out_Set ep
           (Z.land usbBufferLen usbBuf0CtrlLenMask) st;
    Out_SetBits ep usbBuf0CtrlAvail st
  else if config =? Z.lor ENDPOINT_TYPE_INTERRUPT EndpointOut then
    let val := Z.lor val usbEpControlEndpointTypeInterrupt in
    st ← EPxControl_Out_Set ep val st;
    st ← EPxBufferControl_Out_Set ep
           (Z.land usbBufferLen usbBuf0CtrlLenMask) st;
    Out_SetBits ep usbBuf0CtrlAvail st
  else if config =? Z.lor ENDPOINT_TYPE_BULK EndpointIn then
    let val := Z.lor val usbEpControlEndpointTypeBulk in
    EPxControl_In_Set ep val st
  else if config =? ENDPOINT_TYPE_CONTROL then
    st ← EPxBufferControl_Out_Set ep usbBuf0CtrlData1Pid st;
    Out_SetBits ep usbBuf0CtrlAvail st
  else Some st.
End Endpoints.

(** [usb.Setup], from package machine/usb; of its fields the file reads
    [WValueL] (a [uint8]) here. *)
Record Setup : Type := mkSetup { WValueL : Z }.

Section SetAddress.
Variable EndpointPacketSize : Z.
(** [rp.USBCTRL_REGS_SIE_STATUS_ACK_REC] and
    [rp.USBCTRL_REGS_ADDR_ENDP_ADDRESS_Msk], from package device/rp. *)
Variable SIE_STATUS_ACK_REC : Z.
Variable ADDR_ENDP_ADDRESS_Msk : Z.
(** What [rp.USBCTRL_REGS.SIE_STATUS.Get()] returns at the first, the
    second, ... read of the register in the loop: the register is
    changed by the controller. *)
Variable status : nat -> Z.

(** The loop of [handleUSBSetAddress],
    [for (SIE_STATUS.Get() & ACK_REC) == 0 { timeout--; if timeout == 0
    { return true } }], entered with [timeout] and the [k]-th read
    next: [true] when the loop is left by its condition, [false] when
    the function returns from inside it. *)
Fixpoint await_ack (timeout : nat) (k : nat) : bool :=
  match timeout with
  | O => false
  | S timeout =>
      if Z.land (status k) SIE_STATUS_ACK_REC =? 0
      then (if decide (timeout = O) then false else await_ack timeout (S k))
      else true
  end.

(** [func handleUSBSetAddress(setup usb.Setup) bool] *)
Definition handleUSBSetAddress (setup : Setup) (st : usb)
  : option (bool * usb) :=
  st ← sendUSBPacket EndpointPacketSize 0 empty 0 st;
  let st := set_SIE_STATUS SIE_STATUS_ACK_REC st in
  if await_ack 3000 0
  then Some (true,
             set_ADDR_ENDP (Z.land (wrap_uint32 (WValueL setup))
                                   ADDR_ENDP_ADDRESS_Msk) st)
  else Some (true, st).
End SetAddress.

(** The control word [sendViaEPIn] stores: length, available, DATA1 if
    asked, full. *)
Definition in_control_word (count : Z) (data1 : bool) : Z :=
  Z.lor (if data1
         then Z.lor (Z.lor (wrap_uint32 count) usbBuf0CtrlAvail)
                    usbBuf0CtrlData1Pid
         else Z.lor (wrap_uint32 count) usbBuf0CtrlAvail)
        usbBuf0CtrlFull.




(** The byte offset of [EPxBuffer[ep].Buffer0] within [usbDPSRAM], from
    the declarations of the types: the 16 endpoint control registers and
    the 16 buffer control registers, of two 32-bit registers each, come
    first, and a [usbBuffer] is two arrays of [usbBufferLen] bytes. *)
Definition Buffer0_offset (ep : Z) : Z :=
  16 * (4 + 4) + 16 * (4 + 4) + ep * (usbBufferLen + usbBufferLen).

(** The endpoint memory after a GET_DESCRIPTOR setup packet (bytes
    [80 06 00 01 00 00 12 00]) has arrived: the controller puts the
    packet in the first eight bytes, that is in [EPxControl[0]]. *)
Definition setup_received : usb :=
  set_EPxControl
    (<[0%nat := {| In := 0x01000680; Out := 0x00120000 |}]>
       (EPxControl reset_state))
    reset_state.

(** A status register that shows [bit] from its [n]-th read on. *)
Definition ack_after (n : nat) (bit : Z) (k : nat) : Z :=
  if (n <=? k)%nat then bit else 0.

End MachineUSB.

(* ===================================================================== *)
(** * package testing: logging, failure flags, Setenv and TempDir names *)
(* ===================================================================== *)

(** The methods of [common] that write the log, set the flags and
    register cleanups of their own.  Text is a [string]; the arguments
    of [Log], [Error], ... are taken after formatting, as the string
    [fmt.Sprintln] or [fmt.Sprintf] made of them. *)
Module TestingCommon.
Import Testing.

(** [type logger struct]; the buffer is the text written to it. *)
Record logger : Type := mkLogger {
  logToStdout : bool;
  b : string
}.

(** [type common struct]: the fields that the methods below use. *)
Record common : Type := mkCommon {
  output : logger;
  indent : string;
  failed : bool;
  skipped : bool;
  cleanups : list func;
  finished : bool
}.

(** The function literals of the file that are registered as cleanups
    and work on the environment, with the variables they capture. *)
Inductive closure : Type :=
| restore_env (key prevValue : string)
| unset_env (key : string).

(** A test and what it reaches outside itself: the standard output and
    the environment of the process; and the closures made so far. *)
Record world : Type := mkWorld {
  test : common;
  stdout : string;
  environ : gmap string string;
  closures : list closure
}.

Definition set_output (l : logger) (c : common) : common :=
  {| output := l; indent := indent c; failed := failed c;
     skipped := skipped c; cleanups := cleanups c; finished := finished c |}.

Definition set_failed (v : bool) (c : common) : common :=
  {| output := output c; indent := indent c; failed := v;
     skipped := skipped c; cleanups := cleanups c; finished := finished c |}.

Definition set_skipped (v : bool) (c : common) : common :=
  {| output := output c; indent := indent c; failed := failed c;
     skipped := v; cleanups := cleanups c; finished := finished c |}.

Definition set_cleanups (v : list func) (c : common) : common :=
  {| output := output c; indent := indent c; failed := failed c;
     skipped := skipped c; cleanups := v; finished := finished c |}.

Definition set_finished (v : bool) (c : common) : common :=
  {| output := output c; indent := indent c; failed := failed c;
     skipped := skipped c; cleanups := cleanups c; finished := v |}.

Definition on_test (f : common -> common) (w : world) : world :=
  {| test := f (test w); stdout := stdout w; environ := environ w;
     closures := closures w |}.

Definition set_environ (env : gmap string string) (w : world) : world :=
  {| test := test w; stdout := stdout w; environ := env;
     closures := closures w |}.

(** [func (l *logger) Write(p []byte) (int, error)], as reached from
    [fmt.Fprintf(c.output, ...)]. *)
Definition logger_Write (p : string) (w : world) : world :=
  if logToStdout (output (test w))
  then {| test := test w; stdout := (stdout w ++ p)%string;
          environ := environ w; closures := closures w |}
  else on_test (set_output {| logToStdout := false;
                              b := (b (output (test w)) ++ p)%string |}) w.

Definition newline : ascii := "010"%char.

(** [len(s) != 0 && s[len(s)-1] == '\n'] *)
Fixpoint ends_with_newline (s : string) : bool :=
  match s with
  | EmptyString => false
  | String ch rest =>
      match rest with
      | EmptyString => Ascii.eqb ch newline
      | String _ _ => ends_with_newline rest
      end
  end.

(** [s[:len(s)-1]], for a string that is not empty. *)
Fixpoint drop_last (s : string) : string :=
  match s with
  | EmptyString => EmptyString
  | String ch rest =>
      match rest with
      | EmptyString => EmptyString
      | String _ _ => String ch (drop_last rest)
      end
  end.

(** Modelled from the library documentation: [strings.Split(s, "\n")]
    cuts [s] at every newline; the result has one string more than [s]
    has newlines, so it is never empty: the first string and the others
    are returned apart. *)
Fixpoint Split_newline (s : string) : string * list string :=
  match s with
  | EmptyString => (EmptyString, [])
  | String ch rest =>
      let '(first, more) := Split_newline rest in
      if Ascii.eqb ch newline then (EmptyString, first :: more)
      else (String ch first, more)
  end.

(** [func (c *common) log(s string)] *)
Definition log (s : string) (w : world) : world :=
  let s := if ends_with_newline s then drop_last s else s in
  let '(first, more) := Split_newline s in
  let w := logger_Write (indent (test w) ++ "    " ++ first
                         ++ String newline EmptyString)%string w in
  fold_left
    (fun w line =>
       logger_Write (indent (test w) ++ "        " ++ line
                     ++ String newline EmptyString)%string w)
    more w.

(** [func (c *common) Fail()] *)
Definition Fail (w : world) : world := on_test (set_failed true) w.

(** [func (c *common) Failed() bool] *)
Definition Failed (w : world) : bool := failed (test w).

(** [func (c *common) Log(args ...interface{})] and [Logf]; [text] is
    the formatted message. *)
Definition Log (text : string) (w : world) : world := log text w.

(** [func (c *common) Error(args ...interface{})] and [Errorf] *)
Definition Error (text : string) (w : world) : world := Fail (log text w).

(** Modelled from the library documentation: [fmt.Sprintln] of one
    string operand is the string followed by a newline. *)
Definition Sprintln (a : string) : string :=
  (a ++ String newline EmptyString)%string.

(** [func (c *common) FailNow()] *)
Definition FailNow (w : world) : world :=
  let w := Fail w in
  let w := on_test (set_finished true) w in
  Error (Sprintln "FailNow is incomplete, requires runtime.Goexit()") w.

(** [func (c *common) Fatal(args ...interface{})] and [Fatalf] *)
Definition Fatal (text : string) (w : world) : world := FailNow (log text w).

(** [func (c *common) skip()] *)
Definition skip (w : world) : world := on_test (set_skipped true) w.

(** [func (c *common) SkipNow()] *)
Definition SkipNow (w : world) : world :=
  let w := skip w in
  let w := on_test (set_finished true) w in
  Error (Sprintln "SkipNow is incomplete, requires runtime.Goexit()") w.

(** [func (c *common) Skip(args ...interface{})] and [Skipf] *)
Definition Skip (text : string) (w : world) : world := SkipNow (log text w).

(** [func (c *common) Skipped() bool] *)
Definition Skipped (w : world) : bool := skipped (test w).

(** [func (c *common) Helper()] *)
Definition Helper (w : world) : world := w.

(** [func (c *common) Cleanup(f func())] *)
Definition Cleanup (f : func) (w : world) : world :=
  on_test (fun c => set_cleanups (cleanups c ++ [f]) c) w.

(** Function values are identified by numbers ([fn id]): the closures
    made by this file are numbered by their place in [closures] and
    have the even identifiers; the functions of the test have the odd
    ones. *)
Definition closure_id (index : nat) : nat := (2 * index)%nat.
Definition user_id (n : nat) : nat := (2 * n + 1)%nat.

(** A function literal is evaluated: the closure is made. *)
Definition make_closure (cl : closure) (w : world) : nat * world :=
  (closure_id (length (closures w)),
   {| test := test w; stdout := stdout w; environ := environ w;
      closures := closures w ++ [cl] |}).

Section Process.
(** [os.Setenv(key, value)]: the text of the error if it fails, in
    which case the environment is not changed. *)
Variable setenv_error : string -> string -> option string.
(** What a function of the test does to the environment when called;
    of such a function nothing else is modelled. *)
Variable user_call : nat -> gmap string string -> gmap string string.

(** The values in the environment are values [os.Setenv] accepts. *)
Definition settable (env : gmap string string) : Prop :=
  forall k v, env !! k = Some v -> setenv_error k v = None.

(** [os.Setenv] with the error dropped, as in the cleanup. *)
Definition os_Setenv (key value : string) (w : world) : world :=
  match setenv_error key value with
  | None => set_environ (<[key := value]> (environ w)) w
  | Some _ => w
  end.

(** [func (c *common) Setenv(key, value string)] *)
Definition Setenv (key value : string) (w : world) : world :=
  let prev := environ w !! key in
  let w :=
    match setenv_error key value with
    | None => set_environ (<[key := value]> (environ w)) w
    | Some err =>
        Fatal ("cannot set environment variable: " ++ err)%string w
    end in
  match prev with
  | Some prevValue =>
      let '(f, w) := make_closure (restore_env key prevValue) w in
      Cleanup (fn f) w
  | None =>
      let '(f, w) := make_closure (unset_env key) w in
      Cleanup (fn f) w
  end.

(** Calling a function value. *)
Definition call (id : nat) (w : world) : world :=
  if Nat.even id then
    match closures w !! Nat.div2 id with
    | Some (restore_env key prevValue) => os_Setenv key prevValue w
    | Some (unset_env key) => set_environ (delete key (environ w)) w
    | None => w
    end
  else set_environ (user_call (Nat.div2 id) (environ w)) w.

(** [func (c *common) runCleanup()]: the loop is [Testing.runCleanup];
    the functions it calls run in the order it calls them.  The
    functions modelled here return and register nothing, so that the
    loop ends within one turn for each entry of the list and one
    more. *)
Definition runCleanup (w : world) : world :=
  match Testing.runCleanup inert (S (length (cleanups (test w))))
          {| Testing.cleanups := cleanups (test w) |} [] with
  | Some (returned c' called) =>
      fold_left (fun w id => call id w) called
                (on_test (set_cleanups (Testing.cleanups c')) w)
  | _ => w
  end.

(** The calls a test body makes on its [common]. *)
Inductive method : Type :=
| Log_ (text : string)
| Error_ (text : string)
| Fatal_ (text : string)
| Skip_ (text : string)
| SkipNow_
| Fail_
| FailNow_
| Helper_
| Cleanup_ (f : func)
| Setenv_ (key value : string).

Definition invoke (w : world) (m : method) : world :=
  match m with
  | Log_ text => Log text w
  | Error_ text => Error text w
  | Fatal_ text => Fatal text w
  | Skip_ text => Skip text w
  | SkipNow_ => SkipNow w
  | Fail_ => Fail w
  | FailNow_ => FailNow w
  | Helper_ => Helper w
  | Cleanup_ f => Cleanup f w
  | Setenv_ key value => Setenv key value w
  end.

(** The methods that only log or register. *)
Definition quiet (m : method) : bool :=
  match m with
  | Log_ _ | Helper_ | Cleanup_ _ => true
  | Setenv_ key value =>
      match setenv_error key value with None => true | Some _ => false end
  | _ => false
  end.

End Process.

(** A process in which [os.Setenv] rejects the empty name only. *)
Definition setenv_posix (key value : string) : option string :=
  if decide (key = ""%string) then Some "invalid argument"%string else None.

Definition fresh_world : world :=
  {| test := {| output := {| logToStdout := false; b := ""%string |};
                indent := ""%string; failed := false; skipped := false;
                cleanups := []; finished := false |};
     stdout := ""%string;
     environ := <["HOME"%string := "/root"%string]> ∅;
     closures := [] |}.

(** ** The directory name pattern of [TempDir] *)

(** Runes are [int32] code points. *)
Definition RuneSelf : Z := 0x80.

Definition rune (ch : ascii) : Z := Z.of_N (N_of_ascii ch).

(** Modelled from the library documentation: [strings.ContainsRune]. *)
Definition ContainsRune (s : string) (r : Z) : bool :=
  existsb (fun ch => rune ch =? r) (list_ascii_of_string s).

Section TempDir.
(** [unicode.IsLetter] and [unicode.IsNumber]. *)
Variable IsLetter : Z -> bool.
Variable IsNumber : Z -> bool.

(** The function literal [mapper] of [TempDir]. *)
Definition mapper (r : Z) : Z :=
  if r <? RuneSelf then
    let allowed := "!#$%&()+,-.=@^_{}~ "%string in
    if ((rune "0" <=? r) && (r <=? rune "9"))
       || ((rune "a" <=? r) && (r <=? rune "z"))
       || ((rune "A" <=? r) && (r <=? rune "Z"))
    then r
    else if ContainsRune allowed r then r
    else -1
  else if IsLetter r || IsNumber r then r
  else -1.

(** Modelled from the library documentation: [strings.Map] applies the
    mapping to every rune and drops those mapped to a negative
    value. *)
Definition strings_Map (mapping : Z -> Z) (s : list Z) : list Z :=
  filter (fun r => 0 <= r) (map mapping s).

(** [pattern := strings.Map(mapper, c.Name())], on the runes of the
    name. *)
Definition TempDir_pattern (name : list Z) : list Z :=
  strings_Map mapper name.
End TempDir.

End TestingCommon.

(* ===================================================================== *)
(** * Properties of the timer callback *)
(* ===================================================================== *)

Section TimerProperties.
Import GoInt Runtime.

Variable nanosecondsToTicks : Z -> Z.
Variable addTimer : timerNode -> list timerNode -> list timerNode.

Lemma wrap_int64_in_range (z : Z) : is_int64 z -> wrap_int64 z = z.
Proof.
  unfold is_int64, int64_min, int64_max, wrap_int64. intros H.
  rewrite Z.mod_small; lia.
Qed.

Lemma wrap_int64_above (z : Z) :
  int64_max < z <= 2 * int64_max + 1 -> wrap_int64 z = z - 2 ^ 64.
Proof.
  unfold int64_max, wrap_int64. intros H.
  replace (z + 2 ^ 63) with ((z - 2 ^ 63) + 1 * 2 ^ 64) by lia.
  rewrite Z.mod_add by lia. rewrite Z.mod_small; lia.
Qed.

Lemma timerCallback_trace tn delta st :
  trace (snd (timerCallback addTimer tn delta st))
  = trace st ++ [CallCallback (timer_ tn) delta].
Proof.
  unfold timerCallback. destruct (period (timer_ tn) =? 0); reflexivity.
Qed.

Lemma timerCallback_periodic tn delta st :
  period (timer_ tn) <> 0 ->
  when (timer_ (fst (timerCallback addTimer tn delta st)))
  = add_int64 (when (timer_ tn)) (period (timer_ tn)) /\
  timerQueue (snd (timerCallback addTimer tn delta st))
  = addTimer (fst (timerCallback addTimer tn delta st)) (timerQueue st).
Proof.
  intros Hp. unfold timerCallback.
  destruct (period (timer_ tn) =? 0) eqn:E.
  - apply Z.eqb_eq in E. contradiction.
  - cbn. split; reflexivity.
Qed.

(** C1, as amended.  When more than one period has gone by at the
    time of the firing check ([when + period < now]), one run of
    [timerCallback] calls the timer's function exactly once and moves
    the deadline forward by exactly one period, whatever the current
    time is: the new deadline is still before [now], it is not
    resynchronised past it.  The node is put back in the queue with
    that deadline. *)
Theorem timerCallback_advances_one_period :
  forall (tn : timerNode) (now : Z) (st : state),
    0 < period (timer_ tn) ->
    when (timer_ tn) + period (timer_ tn) < now ->
    is_int64 (when (timer_ tn) + period (timer_ tn)) ->
    let delta := now - when (timer_ tn) in
    let r := timerCallback addTimer tn delta st in
    trace (snd r) = trace st ++ [CallCallback (timer_ tn) delta] /\
    when (timer_ (fst r)) = when (timer_ tn) + period (timer_ tn) /\
    when (timer_ (fst r)) < now /\
    timerQueue (snd r) = addTimer (fst r) (timerQueue st).
Proof.
  intros tn now st Hpos Hlate Hrange delta r. subst r.
  destruct (timerCallback_periodic tn delta st) as [Hw Hq]; [lia|].
  rewrite timerCallback_trace, Hw, Hq.
  unfold add_int64. rewrite wrap_int64_in_range by assumption.
  repeat split; lia.
Qed.

(** C2.  Every run of [timerCallback] calls the timer's function once,
    with the [delta] it was given, and then: a node whose period is
    zero is left as it is and the queue is not touched; a node whose
    period is not zero gets the deadline [when + period] (the [int64]
    sum, which is the exact sum whenever that fits) and is handed to
    [addTimer].  The new deadline does not depend on [delta], hence
    not on the current time: the period-100 ticker due at 100 and
    fired at 115 is next due at 200, not 215. *)
Theorem timerCallback_rearm_phase_stable :
  forall (tn : timerNode) (delta : Z) (st : state),
    let r := timerCallback addTimer tn delta st in
    trace (snd r) = trace st ++ [CallCallback (timer_ tn) delta] /\
    fst r = (if period (timer_ tn) =? 0 then tn
             else {| timer_ :=
                       {| when := add_int64 (when (timer_ tn))
                                            (period (timer_ tn));
                          period := period (timer_ tn);
                          f := f (timer_ tn) |};
                     callback := callback tn |}) /\
    timerQueue (snd r) = (if period (timer_ tn) =? 0 then timerQueue st
                          else addTimer (fst r) (timerQueue st)) /\
    (is_int64 (when (timer_ tn) + period (timer_ tn)) ->
     add_int64 (when (timer_ tn)) (period (timer_ tn))
     = when (timer_ tn) + period (timer_ tn)) /\
    (forall delta', when (timer_ (fst (timerCallback addTimer tn delta' st)))
                    = when (timer_ (fst r))) /\
    when (timer_ (fst (timerCallback addTimer (ticker 100 100) (115 - 100) st)))
    = 200.
Proof.
  intros tn delta st r. subst r. split; [apply timerCallback_trace|].
  unfold timerCallback.
  destruct (period (timer_ tn) =? 0); cbn; repeat split;
    try (intros; apply wrap_int64_in_range; assumption).
Qed.

(** C3, as amended.  The deadline is advanced by plain [int64]
    addition: the result is the exact sum whenever the exact sum is an
    [int64], and when the exact sum is above the largest [int64] the
    result is the sum less [2^64], a negative deadline.  [whenTicks]
    hands the deadline to [nanosecondsToTicks] as it is and returns
    what that returns. *)
Theorem timerCallback_deadline_wraps :
  forall (tn : timerNode) (delta : Z) (st : state),
    period (timer_ tn) <> 0 ->
    is_int64 (when (timer_ tn)) ->
    is_int64 (period (timer_ tn)) ->
    let exact := when (timer_ tn) + period (timer_ tn) in
    let when' := when (timer_ (fst (timerCallback addTimer tn delta st))) in
    when' = wrap_int64 exact /\
    (is_int64 exact -> when' = exact) /\
    (int64_max < exact -> when' = exact - 2 ^ 64 /\ when' < 0) /\
    whenTicks nanosecondsToTicks (fst (timerCallback addTimer tn delta st))
    = nanosecondsToTicks when'.
Proof.
  intros tn delta st Hp Hw Hper exact when'. subst exact when'.
  destruct (timerCallback_periodic tn delta st Hp) as [-> _].
  unfold add_int64. split; [reflexivity|]. split; [|split].
  - apply wrap_int64_in_range.
  - intros Hover. unfold is_int64, int64_min, int64_max in *.
    rewrite wrap_int64_above by (unfold int64_max; lia). lia.
  - unfold whenTicks.
    destruct (timerCallback_periodic tn delta st Hp) as [-> _].
    reflexivity.
Qed.

End TimerProperties.

Section TimerExamples.
Import GoInt Runtime.

(** C1 fails on the code: the period-100 ticker armed at tick 0 (first
    due at 100) whose check runs at tick 250 has its function called
    once, and its next deadline is 200: not 300, and not after the
    current time. *)
Lemma catch_up_deadline_not_resynchronised :
  let r := timerCallback addTimer_ns (ticker 100 100) (250 - 100) idle in
  trace (snd r) = [CallCallback (timer_ (ticker 100 100)) 150] /\
  when (timer_ (fst r)) = 200 /\
  map (fun n => when (timer_ n)) (timerQueue (snd r)) = [200] /\
  ~ (when (timer_ (fst r)) = 300) /\
  ~ (250 < when (timer_ (fst r))).
Proof.
  cbn. repeat split; try reflexivity; intros H; discriminate H.
Qed.

Lemma timerCallback_advances_one_period_witness :
  0 < period (timer_ (ticker 100 100)) /\
  when (timer_ (ticker 100 100)) + period (timer_ (ticker 100 100)) < 250 /\
  is_int64 (when (timer_ (ticker 100 100)) + period (timer_ (ticker 100 100))) /\
  let r := timerCallback addTimer_ns (ticker 100 100) (250 - 100) idle in
  trace (snd r) = [CallCallback (timer_ (ticker 100 100)) 150] /\
  when (timer_ (fst r)) = 200 /\
  when (timer_ (fst r)) < 250 /\
  timerQueue (snd r) = [ticker 200 100].
Proof.
  assert (H1 : 0 < period (timer_ (ticker 100 100))) by (cbn; lia).
  assert (H2 : when (timer_ (ticker 100 100))
               + period (timer_ (ticker 100 100)) < 250) by (cbn; lia).
  assert (H3 : is_int64 (when (timer_ (ticker 100 100))
                         + period (timer_ (ticker 100 100))))
    by (unfold is_int64, int64_min, int64_max; cbn; lia).
  repeat (split; [assumption|]).
  exact (timerCallback_advances_one_period addTimer_ns (ticker 100 100) 250
           idle H1 H2 H3).
Defined.

Lemma timerCallback_rearm_phase_stable_witness :
  is_int64 (when (timer_ (ticker 100 100)) + period (timer_ (ticker 100 100))) /\
  add_int64 (when (timer_ (ticker 100 100))) (period (timer_ (ticker 100 100)))
  = 100 + 100 /\
  timerQueue (snd (timerCallback addTimer_ns (ticker 100 100) (115 - 100) idle))
  = [ticker 200 100] /\
  timerQueue (snd (timerCallback addTimer_ns (ticker 100 0) (115 - 100) idle))
  = [].
Proof.
  assert (H : is_int64 (when (timer_ (ticker 100 100))
                        + period (timer_ (ticker 100 100))))
    by (unfold is_int64, int64_min, int64_max; cbn; lia).
  destruct (timerCallback_rearm_phase_stable addTimer_ns (ticker 100 100)
              (115 - 100) idle) as (_ & _ & Hq & Hsum & _ & _).
  destruct (timerCallback_rearm_phase_stable addTimer_ns (ticker 100 0)
              (115 - 100) idle) as (_ & _ & Hq0 & _).
  split; [exact H|]. split; [exact (Hsum H)|].
  split; [rewrite Hq | rewrite Hq0]; reflexivity.
Defined.

(** C3 fails on the code: a ticker due at the largest [int64] with
    period 1 is re-armed for the smallest [int64], which is not the
    saturated value and lies before the old deadline. *)
Lemma deadline_overflow_wraps_negative :
  let r := timerCallback addTimer_ns (ticker int64_max 1) 0 idle in
  int64_max < when (timer_ (ticker int64_max 1))
              + period (timer_ (ticker int64_max 1)) /\
  when (timer_ (fst r)) = int64_min /\
  ~ (when (timer_ (fst r)) = int64_max) /\
  when (timer_ (fst r)) < when (timer_ (ticker int64_max 1)) /\
  whenTicks nanosecondsToTicks_id (fst r) = int64_min.
Proof.
  cbn. repeat split; try reflexivity. intros H; discriminate H.
Qed.

Lemma timerCallback_deadline_wraps_witness :
  period (timer_ (ticker int64_max 1)) <> 0 /\
  is_int64 (when (timer_ (ticker int64_max 1))) /\
  is_int64 (period (timer_ (ticker int64_max 1))) /\
  int64_max < when (timer_ (ticker int64_max 1))
              + period (timer_ (ticker int64_max 1)) /\
  when (timer_ (fst (timerCallback addTimer_ns (ticker int64_max 1) 0 idle)))
  = int64_max + 1 - 2 ^ 64.
Proof.
  assert (H1 : period (timer_ (ticker int64_max 1)) <> 0) by (cbn; lia).
  assert (H2 : is_int64 (when (timer_ (ticker int64_max 1))))
    by (unfold is_int64, int64_min, int64_max; cbn; lia).
  assert (H3 : is_int64 (period (timer_ (ticker int64_max 1))))
    by (unfold is_int64, int64_min, int64_max; cbn; lia).
  assert (H4 : int64_max < when (timer_ (ticker int64_max 1))
                           + period (timer_ (ticker int64_max 1)))
    by (unfold int64_max; cbn; lia).
  repeat (split; [assumption|]).
  destruct (timerCallback_deadline_wraps nanosecondsToTicks_id addTimer_ns
              (ticker int64_max 1) 0 idle H1 H2 H3) as (_ & _ & Hover & _).
  exact (proj1 (Hover H4)).
Defined.

End TimerExamples.

(* ===================================================================== *)
(** * Properties of the ADC pin / channel mapping *)
(* ===================================================================== *)

Section ADCProperties.
Import GoInt Machine.

Variable ADC0 : Z.
Variable peripheral : Type.
Variable sample : Z -> peripheral -> Z * peripheral.

Lemma GetADCChannel_below (a : ADC) :
  Pin a < ADC0 ->
  ADC_GetADCChannel ADC0 a
  = (0, Some (errors_New "no ADC channel for pin value")).
Proof.
  intros H. unfold ADC_GetADCChannel.
  destruct (Pin a <? ADC0) eqn:E; [reflexivity|].
  apply Z.ltb_ge in E. lia.
Qed.

Lemma GetADCChannel_from (a : ADC) :
  is_uint8 (Pin a) -> 0 <= ADC0 <= Pin a ->
  ADC_GetADCChannel ADC0 a = (Pin a - ADC0, None).
Proof.
  unfold is_uint8. intros Hp H. unfold ADC_GetADCChannel, wrap_uint8.
  destruct (Pin a <? ADC0) eqn:E.
  - apply Z.ltb_lt in E. lia.
  - rewrite Z.mod_small by lia. reflexivity.
Qed.

(** C8.  For every ADC value, [GetADCChannel] returns an error exactly
    when the pin is below [ADC0]; for every other pin, however large,
    it returns channel [Pin - ADC0] and no error; and [Get] on a pin
    below [ADC0] returns 0 without touching the peripheral, the error
    being dropped. *)
Theorem ADC_error_only_below_ADC0 :
  forall a : ADC,
    is_uint8 ADC0 ->
    is_uint8 (Pin a) ->
    (snd (ADC_GetADCChannel ADC0 a) <> None <-> Pin a < ADC0) /\
    (ADC0 <= Pin a ->
       ADC_GetADCChannel ADC0 a = (Pin a - ADC0, None)) /\
    (Pin a < ADC0 ->
       forall hw : peripheral, ADC_Get ADC0 sample a hw = (0, hw)).
Proof.
  intros a H0 Hp. unfold is_uint8 in H0. split; [|split].
  - destruct (Z.lt_ge_cases (Pin a) ADC0) as [Hlt | Hge].
    + rewrite GetADCChannel_below by assumption. cbn. split; [tauto|].
      intros _. discriminate.
    + rewrite GetADCChannel_from by (assumption || lia). cbn.
      split; [congruence | lia].
  - intros Hge. apply GetADCChannel_from; [assumption | lia].
  - intros Hlt hw. unfold ADC_Get.
    rewrite GetADCChannel_below by assumption. reflexivity.
Qed.

(** C9, as amended.  [c.Pin()] never returns an error and returns
    [Pin(c) + ADC0] computed on [uint8]; when that sum does not exceed
    255, [GetADCChannel] on the returned pin gives [c] back; and for
    every pin [p >= ADC0], [GetADCChannel] followed by [Pin()] gives
    [p] back. *)
Theorem ADC_channel_pin_round_trip :
  forall c p : Z,
    is_uint8 ADC0 ->
    is_uint8 c ->
    is_uint8 p ->
    ADCChannel_Pin ADC0 c = (wrap_uint8 (c + ADC0), None) /\
    (c + ADC0 <= 255 ->
       ADCChannel_Pin ADC0 c = (c + ADC0, None) /\
       ADC_GetADCChannel ADC0 {| Pin := fst (ADCChannel_Pin ADC0 c) |}
       = (c, None)) /\
    (ADC0 <= p ->
       ADCChannel_Pin ADC0 (fst (ADC_GetADCChannel ADC0 {| Pin := p |}))
       = (p, None)).
Proof.
  intros c p H0 Hc Hp. unfold is_uint8 in *.
  split; [reflexivity|]. split.
  - intros Hfit.
    assert (E : ADCChannel_Pin ADC0 c = (c + ADC0, None)).
    { unfold ADCChannel_Pin, wrap_uint8. rewrite Z.mod_small by lia.
      reflexivity. }
    split; [exact E|]. rewrite E. cbn [fst].
    rewrite GetADCChannel_from by (unfold is_uint8; cbn; lia).
    cbn. f_equal. lia.
  - intros Hge.
    rewrite GetADCChannel_from by (unfold is_uint8; cbn; lia).
    cbn. unfold ADCChannel_Pin, wrap_uint8.
    replace (p - ADC0 + ADC0) with p by lia.
    rewrite Z.mod_small by lia. reflexivity.
Qed.

(** Whenever [ADC0] is not pin 0, channel 255 maps to the pin just
    below [ADC0], which has no channel. *)
Lemma channel_255_wraps_below_ADC0 :
  0 < ADC0 < 256 ->
  ADCChannel_Pin ADC0 255 = (ADC0 - 1, None) /\
  ADC_GetADCChannel ADC0 {| Pin := fst (ADCChannel_Pin ADC0 255) |}
  = (0, Some (errors_New "no ADC channel for pin value")).
Proof.
  intros H.
  assert (E : ADCChannel_Pin ADC0 255 = (ADC0 - 1, None)).
  { unfold ADCChannel_Pin, wrap_uint8.
    replace (255 + ADC0) with ((ADC0 - 1) + 1 * 256) by lia.
    rewrite Z.mod_add by lia. rewrite Z.mod_small by lia. reflexivity. }
  split; [exact E|]. rewrite E. apply GetADCChannel_below. cbn. lia.
Qed.

End ADCProperties.

Section ADCExamples.
Import GoInt Machine.

Lemma ADC_error_only_below_ADC0_witness :
  is_uint8 GPIO26 /\
  is_uint8 (Pin {| Pin := 3 |}) /\
  is_uint8 (Pin {| Pin := 255 |}) /\
  Pin {| Pin := 3 |} < GPIO26 /\
  GPIO26 <= Pin {| Pin := 255 |} /\
  ADC_Get GPIO26 sample_const {| Pin := 3 |} tt = (0, tt) /\
  ADC_GetADCChannel GPIO26 {| Pin := 255 |} = (255 - GPIO26, None).
Proof.
  assert (H0 : is_uint8 GPIO26) by (unfold is_uint8, GPIO26; lia).
  assert (H3 : is_uint8 (Pin {| Pin := 3 |})) by (unfold is_uint8; cbn; lia).
  assert (H255 : is_uint8 (Pin {| Pin := 255 |}))
    by (unfold is_uint8; cbn; lia).
  assert (Hlt : Pin {| Pin := 3 |} < GPIO26) by (unfold GPIO26; cbn; lia).
  assert (Hge : GPIO26 <= Pin {| Pin := 255 |}) by (unfold GPIO26; cbn; lia).
  repeat (split; [assumption|]).
  destruct (ADC_error_only_below_ADC0 GPIO26 unit sample_const
              {| Pin := 3 |} H0 H3) as (_ & _ & Hget).
  destruct (ADC_error_only_below_ADC0 GPIO26 unit sample_const
              {| Pin := 255 |} H0 H255) as (_ & Hch & _).
  split; [exact (Hget Hlt tt) | exact (Hch Hge)].
Defined.

(** C9 fails on the code: with [ADC0] at GPIO26, channel 250 has the
    pin [(250 + 26) mod 256 = 20], and pin 20 has no channel, so the
    round trip does not give 250 back. *)
Lemma channel_250_round_trip_fails :
  ADCChannel_Pin GPIO26 250 = (20, None) /\
  ADC_GetADCChannel GPIO26 {| Pin := fst (ADCChannel_Pin GPIO26 250) |}
  = (0, Some (errors_New "no ADC channel for pin value")) /\
  ~ (forall c : Z, is_uint8 c ->
       ADC_GetADCChannel GPIO26 {| Pin := fst (ADCChannel_Pin GPIO26 c) |}
       = (c, None)).
Proof.
  split; [reflexivity|]. split; [reflexivity|].
  intros H. specialize (H 250). cbn in H.
  assert (Hc : is_uint8 250) by (unfold is_uint8; lia).
  specialize (H Hc). discriminate H.
Qed.

Lemma ADC_channel_pin_round_trip_witness :
  is_uint8 GPIO26 /\ is_uint8 4 /\ is_uint8 30 /\
  4 + GPIO26 <= 255 /\ GPIO26 <= 30 /\
  ADC_GetADCChannel GPIO26 {| Pin := fst (ADCChannel_Pin GPIO26 4) |}
  = (4, None) /\
  ADCChannel_Pin GPIO26 (fst (ADC_GetADCChannel GPIO26 {| Pin := 30 |}))
  = (30, None).
Proof.
  assert (H0 : is_uint8 GPIO26) by (unfold is_uint8, GPIO26; lia).
  assert (Hc : is_uint8 4) by (unfold is_uint8; lia).
  assert (Hp : is_uint8 30) by (unfold is_uint8; lia).
  assert (Hfit : 4 + GPIO26 <= 255) by (unfold GPIO26; lia).
  assert (Hge : GPIO26 <= 30) by (unfold GPIO26; lia).
  repeat (split; [assumption|]).
  destruct (ADC_channel_pin_round_trip GPIO26 4 30 H0 Hc Hp)
    as (_ & Hthere & Hback).
  split; [exact (proj2 (Hthere Hfit)) | exact (Hback Hge)].
Defined.

End ADCExamples.

(* ===================================================================== *)
(** * Properties of the cleanup stack *)
(* ===================================================================== *)

Section CleanupProperties.
Import Testing.

Lemma take_last_snoc (l : list func) (x : func) :
  take_last {| cleanups := l ++ [x] |} = (x, {| cleanups := l |}).
Proof.
  unfold take_last. cbn [cleanups].
  rewrite length_app. cbn [length].
  replace (0 <? length l + 1)%nat with true
    by (symmetry; apply Nat.ltb_lt; lia).
  replace (length l + 1 - 1)%nat with (length l) by lia.
  rewrite app_nth2 by lia. rewrite Nat.sub_diag. cbn [nth].
  rewrite firstn_app, Nat.sub_diag, firstn_all. cbn.
  rewrite app_nil_r. reflexivity.
Qed.

Lemma register_cleanups (c : common) (fs : list func) :
  cleanups (register c fs) = cleanups c ++ fs.
Proof.
  unfold register. revert c.
  induction fs as [|g fs IH]; intros c; cbn [fold_left].
  - rewrite app_nil_r. reflexivity.
  - rewrite IH. cbn. rewrite <- app_assoc. reflexivity.
Qed.

Lemma register_from_empty (fs : list func) :
  register {| cleanups := [] |} fs = {| cleanups := fs |}.
Proof.
  pose proof (register_cleanups {| cleanups := [] |} fs) as H.
  destruct (register {| cleanups := [] |} fs) as [l].
  cbn in H. rewrite H. reflexivity.
Qed.

(** Functions that return and register nothing are called last
    registered first, and the loop ends after one turn more than there
    are functions. *)
Lemma runCleanup_functions (behaviour : nat -> list nat -> effect)
    (ids : list nat) :
  (forall id h, In id ids -> behaviour id h = returns []) ->
  forall (turns : nat) (called : list nat),
    (length ids < turns)%nat ->
    runCleanup behaviour turns {| cleanups := map fn ids |} called
    = Some (returned {| cleanups := [] |} (called ++ rev ids)).
Proof.
  induction ids as [|i ids IH] using rev_ind; intros Hb turns called Hturns.
  - destruct turns as [|turns]; [cbn in Hturns; lia|].
    cbn. rewrite app_nil_r. reflexivity.
  - rewrite length_app in Hturns. cbn [length] in Hturns.
    destruct turns as [|turns]; [lia|].
    cbn [runCleanup]. rewrite map_app. cbn [map].
    rewrite take_last_snoc.
    rewrite (Hb i called) by (apply in_or_app; right; left; reflexivity).
    cbn [register fold_left].
    rewrite IH.
    + rewrite rev_app_distr. cbn. rewrite <- app_assoc. reflexivity.
    + intros id h Hin. apply Hb. apply in_or_app. left. exact Hin.
    + lia.
Qed.

(** C10, as amended.  For every sequence of functions registered with
    [Cleanup], none of them nil and each of them returning when it is
    called without registering a cleanup itself, [runCleanup] returns,
    after one turn of its loop for each function and one more; it has
    called the functions in exactly the reverse of the order of
    registration, each once, and leaves the list of cleanups empty. *)
Theorem runCleanup_lifo :
  forall (behaviour : nat -> list nat -> effect) (ids : list nat)
         (called : list nat) (turns : nat),
    (forall id h, In id ids -> behaviour id h = returns []) ->
    (length ids < turns)%nat ->
    runCleanup behaviour turns (register {| cleanups := [] |} (map fn ids))
               called
    = Some (returned {| cleanups := [] |} (called ++ rev ids)).
Proof.
  intros behaviour ids called turns Hb Hturns.
  rewrite register_from_empty.
  apply runCleanup_functions; assumption.
Qed.

Lemma runCleanup_lifo_witness :
  (forall id h, In id [1; 2; 3]%nat -> inert id h = returns []) /\
  (length [1; 2; 3]%nat < 4)%nat /\
  runCleanup inert 4 (register {| cleanups := [] |} [fn 1; fn 2; fn 3]) []
  = Some (returned {| cleanups := [] |} [3; 2; 1]%nat).
Proof.
  assert (Hb : forall id h, In id [1; 2; 3]%nat -> inert id h = returns [])
    by (intros id h _; reflexivity).
  assert (Hturns : (length [1; 2; 3]%nat < 4)%nat) by (cbn; lia).
  split; [exact Hb|]. split; [exact Hturns|].
  exact (runCleanup_lifo inert [1; 2; 3]%nat [] 4%nat Hb Hturns).
Defined.

(** C10 fails on the code: after [Cleanup(f1); Cleanup(nil)],
    [runCleanup] takes the nil entry off the list and returns at once;
    [f1] is not called and stays on the list, however many turns the
    loop is given. *)
Lemma nil_cleanup_stops_the_run :
  (forall turns : nat,
     runCleanup inert (S turns) (register {| cleanups := [] |} [fn 1; nil]) []
     = Some (returned {| cleanups := [fn 1] |} [])) /\
  ~ (forall fs : list func,
       exists (turns : nat) (called : list nat),
         runCleanup inert turns (register {| cleanups := [] |} fs) []
         = Some (returned {| cleanups := [] |} called)).
Proof.
  assert (E : forall turns : nat,
             runCleanup inert (S turns)
                        (register {| cleanups := [] |} [fn 1; nil]) []
             = Some (returned {| cleanups := [fn 1] |} [])).
  { intros turns. reflexivity. }
  split; [exact E|].
  intros H. destruct (H [fn 1; nil]) as (turns & called & Hrun).
  destruct turns as [|turns]; [discriminate Hrun|].
  rewrite E in Hrun. discriminate Hrun.
Qed.

(** A cleanup registered by a cleanup that is running is the next one
    called: with 1 and 2 registered, and 2 registering 3 when it is
    called, the order of the calls is 2, 3, 1. *)
Lemma cleanup_registered_during_the_run_is_called_next :
  runCleanup second_registers_third 4
             (register {| cleanups := [] |} [fn 1; fn 2]) []
  = Some (returned {| cleanups := [] |} [2; 3; 1]%nat).
Proof. reflexivity. Qed.

End CleanupProperties.

(* ===================================================================== *)
(** * Properties of the MIPS routines *)
(* ===================================================================== *)

Section MipsMachine.
Import Mips.

Lemma wrap32_small (z : Z) : is_word z -> wrap32 z = z.
Proof. unfold is_word, wrap32. intros H. apply Z.mod_small. lia. Qed.

Lemma wrap32_add_idem (a b : Z) : wrap32 (wrap32 a + b) = wrap32 (a + b).
Proof. unfold wrap32. apply Zplus_mod_idemp_l. Qed.

(** Distinct small offsets from one address stay distinct modulo
    [2^32]. *)
Lemma wrap32_add_inj (a i j : Z) :
  0 <= i < 2 ^ 32 -> 0 <= j < 2 ^ 32 ->
  wrap32 (a + i) = wrap32 (a + j) -> i = j.
Proof.
  unfold wrap32. intros Hi Hj H.
  assert (E : (i - j) mod 2 ^ 32 = 0).
  { replace (i - j) with ((a + i) - (a + j)) by lia.
    rewrite Zminus_mod, H, Z.sub_diag. reflexivity. }
  apply Z.mod_divide in E; [|lia]. destruct E as [q E].
  assert (q = 0) by nia. lia.
Qed.

Lemma aligned_off (a off : Z) :
  aligned a = true -> off mod 4 = 0 -> aligned (wrap32 (a + off)) = true.
Proof.
  unfold aligned, wrap32. rewrite !Z.eqb_eq. intros Ha Hoff.
  assert (D : (4 | 2 ^ 32)) by (exists (2 ^ 30); reflexivity).
  rewrite (Z.mod_mod_divide _ _ 4 D).
  rewrite Z.add_mod by lia. rewrite Ha, Hoff. reflexivity.
Qed.

Lemma getreg_nz (m : machine) (r : reg) : r <> zero -> getreg m r = regs m r.
Proof.
  intros H. unfold getreg. rewrite decide_False by assumption. reflexivity.
Qed.

Lemma setreg_eq (r : reg) (v : Z) (rf : reg -> Z) :
  r <> zero -> setreg r v rf r = v.
Proof.
  intros H. unfold setreg. rewrite decide_True by reflexivity.
  rewrite decide_False by assumption. reflexivity.
Qed.

Lemma setreg_ne (r r' : reg) (v : Z) (rf : reg -> Z) :
  r' <> r -> setreg r v rf r' = rf r'.
Proof.
  intros H. unfold setreg. rewrite decide_False by assumption. reflexivity.
Qed.

Lemma load_at (base : Z) (code : list instr) (k : nat) :
  load base code (addr base k) = code !! k.
Proof.
  unfold load, aligned, addr.
  replace (base + 4 * Z.of_nat k - base) with (Z.of_nat k * 4) by lia.
  rewrite Z.mod_mul, Z.div_mul by lia. rewrite Nat2Z.id.
  replace (base <=? base + 4 * Z.of_nat k) with true
    by (symmetry; apply Z.leb_le; lia).
  reflexivity.
Qed.

Lemma run_app (img : image) (a b : nat) (m : machine) :
  run img (a + b) m
  = match run img a m with
    | Some m' => run img b m'
    | None => None
    end.
Proof.
  revert m. induction a as [|a IH]; intros m; cbn [run Nat.add];
    [reflexivity|].
  destruct (step img m); [apply IH | reflexivity].
Qed.

(** Executing the instruction at the [k]-th slot of a loaded routine. *)
Lemma step_fetch (img : image) (base : Z) (k : nat) (i : instr)
    (R : reg -> Z) (M : gmap Z Z) (n : Z) :
  extern img (addr base k) = None ->
  text img (addr base k) = Some i ->
  step img {| regs := R; mem := M; pc := addr base k; npc := n |}
  = match exec i {| regs := R; mem := M; pc := addr base k; npc := n |} with
    | Some (rf, mm, jump) =>
        Some {| regs := rf; mem := mm; pc := n;
                npc := match jump with
                       | Some target => target
                       | None => wrap32 (n + 4)
                       end |}
    | None => None
    end.
Proof.
  intros He Ht. unfold step. cbn [pc npc]. rewrite He, Ht. reflexivity.
Qed.

Lemma addr_next (base : Z) (k : nat) :
  0 <= base -> addr base (S k) < 2 ^ 32 ->
  wrap32 (addr base k + 4) = addr base (S k).
Proof.
  unfold addr. intros H0 H1.
  rewrite wrap32_small by (unfold is_word; lia). lia.
Qed.

Lemma addr_link (base : Z) (k : nat) :
  0 <= base -> addr base (S (S k)) < 2 ^ 32 ->
  wrap32 (addr base k + 8) = addr base (S (S k)).
Proof.
  unfold addr. intros H0 H1.
  rewrite wrap32_small by (unfold is_word; lia). lia.
Qed.

End MipsMachine.

Ltac regs_simpl :=
repeat (rewrite getreg_nz by discriminate; cbn [Mips.regs]);
repeat first [ rewrite setreg_eq by discriminate
             | rewrite setreg_ne by discriminate ].

Section ScanCurrentStack.
Import Mips.

Variables base scanstack : Z.
Variable gc : machine -> machine.

(** The routine lies inside the address space; the scanner is some
    other function. *)
Hypothesis Hbase : 0 <= base /\ base + 72 <= 2 ^ 32.
Hypothesis Hext : scanstack < base \/ base + 68 <= scanstack.

Local Abbreviation img := (scan_image base scanstack gc).

Lemma scan_fetch (k : nat) (i : instr) (R : reg -> Z) (M : gmap Z Z) (n : Z) :
  tinygo_scanCurrentStack scanstack !! k = Some i ->
  step img {| regs := R; mem := M; pc := addr base k; npc := n |}
  = match exec i {| regs := R; mem := M; pc := addr base k; npc := n |} with
    | Some (rf, mm, jump) =>
        Some {| regs := rf; mem := mm; pc := n;
                npc := match jump with
                       | Some target => target
                       | None => wrap32 (n + 4)
                       end |}
    | None => None
    end.
Proof.
  intros Hk.
  assert (Hlt : (k < 17)%nat) by (apply lookup_lt_Some in Hk; exact Hk).
  apply step_fetch.
  - unfold scan_image. cbn [extern].
    replace (addr base k =? scanstack) with false; [reflexivity|].
    symmetry. apply Z.eqb_neq. unfold addr. lia.
  - unfold scan_image. cbn [text]. rewrite load_at. exact Hk.
Qed.

Ltac scan_step k :=
  erewrite (scan_fetch k) by reflexivity;
  cbn [exec pc npc mem regs]; regs_simpl;
  rewrite ?aligned_off by (assumption || reflexivity);
  rewrite ?addr_next by (unfold addr; lia);
  rewrite ?addr_link by (unfold addr; lia).

Ltac frame_lookup :=
  repeat (rewrite lookup_insert_ne
            by (let E := fresh in intros E; apply wrap32_add_inj in E; lia));
  try rewrite lookup_insert_eq.

(** Lines 10-24: from the entry to the first instruction of the
    scanner. *)
Lemma scan_prologue (R : reg -> Z) (M : gmap Z Z) :
  aligned (R sp) = true ->
  exists (R1 : reg -> Z) (M1 : gmap Z Z),
    run img 13 {| regs := R; mem := M; pc := addr base 0; npc := addr base 1 |}
    = Some {| regs := R1; mem := M1; pc := scanstack;
              npc := wrap32 (scanstack + 4) |} /\
    R1 sp = wrap32 (R sp + -40) /\
    R1 a0 = wrap32 (R sp + -40) /\
    R1 ra = addr base 13 /\
    (forall r, r <> sp -> r <> a0 -> r <> ra -> R1 r = R r) /\
    Forall (fun '(off, r) =>
              M1 !! wrap32 (wrap32 (R sp + -40) + off) = Some (R r))
           saved_frame /\
    (forall a,
       Forall (fun '(off, _) => a <> wrap32 (wrap32 (R sp + -40) + off))
              saved_frame ->
       M1 !! a = M !! a).
Proof.
  intros Hal.
  assert (Hal' : aligned (wrap32 (R sp + -40)) = true)
    by (apply aligned_off; [assumption | reflexivity]).
  do 2 eexists. split.
  - cbn [run]. scan_step 0%nat.
    set (frame := wrap32 (R sp + -40)) in *.
    scan_step 1%nat. scan_step 2%nat. scan_step 3%nat. scan_step 4%nat.
    scan_step 5%nat. scan_step 6%nat. scan_step 7%nat. scan_step 8%nat.
    scan_step 9%nat. scan_step 10%nat. scan_step 11%nat. scan_step 12%nat.
    reflexivity.
  - set (frame := wrap32 (R sp + -40)) in *.
    split; [regs_simpl; reflexivity|].
    split; [regs_simpl; reflexivity|].
    split; [regs_simpl; reflexivity|].
    split.
    { intros r H1 H2 H3. rewrite !setreg_ne by assumption. reflexivity. }
    split.
    { unfold saved_frame. repeat constructor; frame_lookup; regs_simpl;
        reflexivity. }
    intros a Ha. unfold saved_frame in Ha.
    repeat match goal with
           | H : Forall _ (_ :: _) |- _ => apply Forall_cons_1 in H; destruct H
           end.
    rewrite !lookup_insert_ne by congruence. reflexivity.
Qed.

(** Lines 27-34: from the return of the scanner to the caller. *)
Lemma scan_epilogue (R : reg -> Z) (M : gmap Z Z) (w : Z) :
  aligned (R sp) = true ->
  M !! wrap32 (R sp + 36) = Some w ->
  run img 1 {| regs := R; mem := M; pc := addr base 13; npc := addr base 14 |}
  = Some {| regs := setreg ra w R; mem := M;
            pc := addr base 14; npc := addr base 15 |} /\
  run img 4 {| regs := R; mem := M; pc := addr base 13; npc := addr base 14 |}
  = Some {| regs := setreg ra (addr base 17)
                      (setreg sp (wrap32 (R sp + 40)) (setreg ra w R));
            mem := M; pc := w; npc := wrap32 (w + 4) |}.
Proof.
  intros Hal Hw. split.
  - cbn [run]. scan_step 13%nat. rewrite Hw. reflexivity.
  - cbn [run]. scan_step 13%nat. rewrite Hw.
    scan_step 14%nat. scan_step 15%nat. scan_step 16%nat. reflexivity.
Qed.

(** The scanner follows the calling convention. *)
Hypothesis Hgc : o32_call gc.

(** The whole call, with the three states that matter: [m1] where the
    scanner is entered, [m2] after the return address is reloaded,
    [m3] back in the caller. *)
Lemma scan_call (m : machine) :
  entered base m ->
  is_word (getreg m sp) ->
  aligned (getreg m sp) = true ->
  exists m1 m2 m3 : machine,
    run img 13 m = Some m1 /\
    step img m1 = Some (gc m1) /\
    run img 1 (gc m1) = Some m2 /\
    run img 3 m2 = Some m3 /\
    run img 18 m = Some m3 /\
    (pc m1 = scanstack /\
     getreg m1 sp = wrap32 (getreg m sp - 40) /\
     getreg m1 a0 = wrap32 (getreg m sp - 40) /\
     getreg m1 ra = addr base 13) /\
    (Forall (fun '(off, r) =>
               mem m1 !! wrap32 (wrap32 (getreg m sp - 40) + off)
               = Some (getreg m r))
            saved_frame /\
     forall a,
       Forall (fun '(off, _) => a <> wrap32 (wrap32 (getreg m sp - 40) + off))
              saved_frame ->
       mem m1 !! a = mem m !! a) /\
    getreg m2 ra = getreg m ra /\
    (pc m3 = getreg m ra /\
     npc m3 = wrap32 (getreg m ra + 4) /\
     getreg m3 sp = getreg m sp /\
     getreg m3 ra = addr base 17) /\
    (forall r, r ∈ o32_saved -> getreg m3 r = getreg m r) /\
    (forall r, r <> sp -> r <> a0 -> r <> ra ->
       getreg m1 r = getreg m r /\ getreg m3 r = getreg (gc m1) r) /\
    mem m3 = mem (gc m1).
Proof.
  intros [Hpc Hnpc] Hword Hal.
  destruct m as [R M p n]. cbn [pc npc] in Hpc, Hnpc. subst p n.
  rewrite getreg_nz in Hword, Hal by discriminate. cbn [regs] in Hword, Hal.
  rewrite !(getreg_nz _ sp), !(getreg_nz _ ra) by discriminate. cbn [regs].
  change (R sp - 40) with (R sp + -40).
  destruct (scan_prologue R M Hal)
    as (R1 & M1 & Hrun & Hsp1 & Ha0 & Hra1 & Hrest & Hframe & Hmem).
  replace (addr base 0) with base in Hrun by (unfold addr; cbn; lia).
  replace (addr base 1) with (base + 4) in Hrun by (unfold addr; cbn; lia).
  set (frame := wrap32 (R sp + -40)) in *.
  set (m1 := {| regs := R1; mem := M1; pc := scanstack;
                npc := wrap32 (scanstack + 4) |}) in *.
  assert (Hstep : step img m1 = Some (gc m1)).
  { unfold step, scan_image, m1. cbn [extern pc].
    rewrite Z.eqb_refl. reflexivity. }
  destruct (Hgc m1) as (Hgpc & Hgnpc & Hgsp & Hgsaved & Hgmem).
  rewrite getreg_nz in Hgpc, Hgnpc by discriminate.
  rewrite !(getreg_nz _ sp) in Hgsp by discriminate.
  assert (Hgmem' : forall k, 16 <= k < 40 ->
            mem (gc m1) !! wrap32 (regs m1 sp + k)
            = mem m1 !! wrap32 (regs m1 sp + k)).
  { intros k Hk. rewrite <- (getreg_nz m1 sp) by discriminate.
    apply Hgmem. exact Hk. }
  clear Hgmem. rename Hgmem' into Hgmem.
  cbn [m1 regs] in Hgpc, Hgnpc, Hgsp, Hgmem.
  rewrite Hra1 in Hgpc, Hgnpc. rewrite Hsp1 in Hgsp, Hgmem.
  rewrite addr_next in Hgnpc by (unfold addr; lia).
  assert (Hslot : mem (gc m1) !! wrap32 (frame + 36) = Some (R ra)).
  { rewrite Hgmem by lia. cbn [m1 mem].
    unfold saved_frame in Hframe. apply Forall_cons_1 in Hframe.
    exact (proj1 Hframe). }
  destruct (gc m1) as [Rg Mg pg ng] eqn:Eg.
  cbn [pc npc regs mem] in Hgpc, Hgnpc, Hgsp, Hslot. subst pg ng.
  assert (Halg : aligned (Rg sp) = true).
  { rewrite Hgsp. apply aligned_off; [assumption | reflexivity]. }
  rewrite <- Hgsp in Hslot.
  destruct (scan_epilogue Rg Mg (R ra) Halg Hslot) as [Hrun1 Hrun4].
  eexists m1, _, _. rewrite !Eg.
  split; [exact Hrun|]. split; [exact Hstep|].
  split; [exact Hrun1|]. split.
  { match type of Hrun1 with
    | run _ _ ?s = _ => pose proof (run_app img 1 3 s) as Happ
    end.
    rewrite Hrun1 in Happ. rewrite <- Happ. exact Hrun4. }
  split.
  { change 18%nat with (13 + (1 + 4))%nat.
    rewrite run_app, Hrun, run_app. cbn [run]. rewrite Hstep, <- Hrun4.
    reflexivity. }
  split.
  { repeat split; rewrite ?getreg_nz by discriminate; cbn [m1 pc regs];
      assumption. }
  split.
  { split.
    - unfold saved_frame in *. cbn [m1 mem].
      repeat match goal with
             | H : Forall _ (_ :: _) |- _ =>
                 apply Forall_cons_1 in H; destruct H
             end.
      repeat constructor; rewrite getreg_nz by discriminate; assumption.
    - intros a Ha. cbn [m1 mem]. apply Hmem. exact Ha. }
  split; [regs_simpl; reflexivity|].
  split.
  { cbn [pc npc]. regs_simpl. repeat split; try reflexivity.
    rewrite Hgsp. unfold frame. rewrite wrap32_add_idem.
    replace (R sp + -40 + 40) with (R sp) by lia.
    apply wrap32_small. assumption. }
  split.
  { intros r Hr.
    assert (Hnz : r <> zero /\ r <> sp /\ r <> a0 /\ r <> ra).
    { unfold o32_saved in Hr.
      repeat (apply elem_of_cons in Hr; destruct Hr as [-> | Hr];
              [repeat split; discriminate|]).
      apply elem_of_nil in Hr. contradiction. }
    destruct Hnz as (Hz & Hnsp & Hna0 & Hnra).
    specialize (Hgsaved r Hr).
    rewrite !getreg_nz in * by assumption. cbn [regs m1] in *.
    rewrite !setreg_ne by assumption. rewrite Hgsaved. apply Hrest;
      assumption. }
  split; [|reflexivity].
  intros r Hnsp Hna0 Hnra. unfold getreg.
  destruct (decide (r = zero)) as [_|_]; [split; reflexivity|].
  cbn [regs m1]. rewrite !setreg_ne by assumption.
  split; [apply Hrest; assumption | reflexivity].
Qed.

(** C4.  Entered by a call with an aligned stack pointer,
    [tinygo_scanCurrentStack] first lowers the stack pointer by 40 and
    stores [ra, s8, s7, ..., s0] in the ten words above it, on the
    caller's stack, leaving every other word of memory alone; it then
    enters [tinygo_scanstack] with the new stack pointer in [a0] and a
    return address inside the routine; when the scanner returns, it
    reloads the return address, puts the stack pointer back, and
    jumps to the caller's return address: the run ends in the caller
    (18 steps, the scanner counting as one). *)
Theorem scanCurrentStack_capture_call_restore :
  forall m : machine,
    entered base m ->
    is_word (getreg m sp) ->
    aligned (getreg m sp) = true ->
    exists m1 m2 m3 : machine,
      run (scan_image base scanstack gc) 13 m = Some m1 /\
      getreg m1 sp = wrap32 (getreg m sp - 40) /\
      Forall (fun '(off, r) =>
                mem m1 !! wrap32 (getreg m1 sp + off) = Some (getreg m r))
             saved_frame /\
      (forall a,
         Forall (fun '(off, _) => a <> wrap32 (getreg m1 sp + off))
                saved_frame ->
         mem m1 !! a = mem m !! a) /\
      pc m1 = scanstack /\
      getreg m1 a0 = getreg m1 sp /\
      getreg m1 ra = addr base 13 /\
      step (scan_image base scanstack gc) m1 = Some (gc m1) /\
      run (scan_image base scanstack gc) 1 (gc m1) = Some m2 /\
      getreg m2 ra = getreg m ra /\
      run (scan_image base scanstack gc) 3 m2 = Some m3 /\
      getreg m3 sp = getreg m sp /\
      pc m3 = getreg m ra /\
      run (scan_image base scanstack gc) 18 m = Some m3.
Proof.
  intros m Hent Hword Hal.
  destruct (scan_call m Hent Hword Hal)
    as (m1 & m2 & m3 & H13 & Hcall & H1 & H3 & H18
        & (Hpc1 & Hsp1 & Ha0 & Hra1) & (Hframe & Hmem) & Hra2
        & (Hpc3 & _ & Hsp3 & _) & _).
  exists m1, m2, m3. rewrite <- Hsp1 in Hframe, Hmem, Ha0.
  repeat (split; [assumption|]). assumption.
Qed.

(** C5, as amended.  A call of [tinygo_scanCurrentStack] comes back to
    the instruction the caller's return address designates, with the
    stack pointer and, of the registers the routine pushes as
    callee-saved, [s0]-[s7] and [s8] holding the values they had at the
    call.  The last of the pushed registers, [ra], is not handed back:
    it holds the address that follows the routine's last instruction.
    Apart from the stack pointer, which it restores, the only
    registers the routine itself writes are [a0] and [ra]. *)
Theorem scanCurrentStack_preserves_caller_context :
  forall m : machine,
    entered base m ->
    is_word (getreg m sp) ->
    aligned (getreg m sp) = true ->
    exists m1 m3 : machine,
      run (scan_image base scanstack gc) 13 m = Some m1 /\
      pc m1 = scanstack /\
      run (scan_image base scanstack gc) 18 m = Some m3 /\
      pc m3 = getreg m ra /\
      npc m3 = wrap32 (getreg m ra + 4) /\
      getreg m3 sp = getreg m sp /\
      (forall r, r ∈ callee_saved -> r <> ra -> getreg m3 r = getreg m r) /\
      getreg m3 ra = addr base 17 /\
      (forall r, r <> sp -> r <> a0 -> r <> ra ->
         getreg m1 r = getreg m r /\ getreg m3 r = getreg (gc m1) r).
Proof.
  intros m Hent Hword Hal.
  destruct (scan_call m Hent Hword Hal)
    as (m1 & m2 & m3 & H13 & _ & _ & _ & H18
        & (Hpc1 & _) & _ & _
        & (Hpc3 & Hnpc3 & Hsp3 & Hra3) & Hsaved & Hothers & _).
  exists m1, m3. repeat (split; [assumption|]).
  split; [|split; assumption].
  intros r Hr Hnra. apply Hsaved.
  unfold callee_saved in Hr. unfold o32_saved.
  apply elem_of_cons in Hr. destruct Hr as [-> | Hr]; [contradiction|].
  repeat (apply elem_of_cons in Hr; destruct Hr as [-> | Hr];
          [repeat constructor|]).
  apply elem_of_nil in Hr. contradiction.
Qed.

(** X17.  The return is made with [jalr]: the link register is left holding
    the address after the routine's last instruction. *)
Lemma scanCurrentStack_link_register (m : machine) :
  entered base m ->
  is_word (getreg m sp) ->
  aligned (getreg m sp) = true ->
  exists m3 : machine,
    run (scan_image base scanstack gc) 18 m = Some m3 /\
    getreg m3 ra = addr base 17.
Proof.
  intros Hent Hword Hal.
  destruct (scan_call m Hent Hword Hal)
    as (m1 & m2 & m3 & _ & _ & _ & _ & H18 & _ & _ & _
        & (_ & _ & _ & Hra3) & _).
  exists m3. split; assumption.
Qed.

End ScanCurrentStack.

Section Longjmp.
Import Mips.

Variable base : Z.
Hypothesis Hbase : 0 <= base /\ base + 16 <= 2 ^ 32.

Lemma longjmp_fetch (k : nat) (i : instr) (R : reg -> Z) (M : gmap Z Z) (n : Z) :
  tinygo_longjmp !! k = Some i ->
  step (longjmp_image base)
       {| regs := R; mem := M; pc := addr base k; npc := n |}
  = match exec i {| regs := R; mem := M; pc := addr base k; npc := n |} with
    | Some (rf, mm, jump) =>
        Some {| regs := rf; mem := mm; pc := n;
                npc := match jump with
                       | Some target => target
                       | None => wrap32 (n + 4)
                       end |}
    | None => None
    end.
Proof.
  intros Hk. apply step_fetch; [reflexivity|].
  unfold longjmp_image. cbn [text]. rewrite load_at. exact Hk.
Qed.

Ltac longjmp_step k :=
  erewrite (longjmp_fetch k) by reflexivity;
  cbn [exec pc npc mem regs]; regs_simpl;
  rewrite ?addr_next by (unfold addr; lia).

(** C6.  Entered with [a0] pointing at a mapped, aligned block,
    [tinygo_longjmp] runs its four instructions inside the routine
    and leaves it by a jump to the word at offset 4 of the block, with
    the stack pointer set to the word at offset 0.  It writes no
    register but [sp] and [a1] and no memory: in particular [ra] is
    not written, so nothing records where the routine was called
    from. *)
Theorem longjmp_transfers_control :
  forall (m : machine) (jumpSP jumpPC : Z),
    entered base m ->
    is_word (getreg m a0) ->
    aligned (getreg m a0) = true ->
    mem m !! getreg m a0 = Some jumpSP ->
    mem m !! wrap32 (getreg m a0 + 4) = Some jumpPC ->
    exists m' : machine,
      run (longjmp_image base) 4 m = Some m' /\
      pc m' = jumpPC /\
      getreg m' sp = jumpSP /\
      getreg m' a1 = jumpPC /\
      getreg m' ra = getreg m ra /\
      mem m' = mem m /\
      (forall r, r <> sp -> r <> a1 -> getreg m' r = getreg m r) /\
      (forall k, (k < 4)%nat ->
         exists mk, run (longjmp_image base) k m = Some mk /\
                    pc mk = addr base k).
Proof.
  intros m jumpSP jumpPC [Hpc Hnpc] Hword Hal Hsp Hpc'.
  assert (Hpc0 : pc m = addr base 0) by (unfold addr; cbn; lia).
  assert (Hnpc0 : npc m = addr base 1) by (unfold addr; cbn; lia).
  clear Hpc Hnpc.
  destruct m as [R M p n]. cbn [pc npc] in Hpc0, Hnpc0. subst p n.
  rewrite getreg_nz in Hword, Hal, Hsp, Hpc' by discriminate.
  cbn [regs mem] in Hword, Hal, Hsp, Hpc'.
  assert (H0 : wrap32 (R a0 + 0) = R a0)
    by (rewrite Z.add_0_r; apply wrap32_small; assumption).
  assert (Hal4 : aligned (wrap32 (R a0 + 4)) = true)
    by (apply aligned_off; [assumption | reflexivity]).
  assert (E1 : run (longjmp_image base) 1
                 {| regs := R; mem := M; pc := addr base 0; npc := addr base 1 |}
               = Some {| regs := setreg sp jumpSP R; mem := M;
                         pc := addr base 1; npc := addr base 2 |}).
  { cbn [run]. longjmp_step 0%nat. rewrite H0, Hal, Hsp. reflexivity. }
  assert (E2 : run (longjmp_image base) 1
                 {| regs := setreg sp jumpSP R; mem := M;
                    pc := addr base 1; npc := addr base 2 |}
               = Some {| regs := setreg a1 jumpPC (setreg sp jumpSP R);
                         mem := M; pc := addr base 2; npc := addr base 3 |}).
  { cbn [run]. longjmp_step 1%nat. rewrite Hal4, Hpc'. reflexivity. }
  assert (E3 : run (longjmp_image base) 1
                 {| regs := setreg a1 jumpPC (setreg sp jumpSP R);
                    mem := M; pc := addr base 2; npc := addr base 3 |}
               = Some {| regs := setreg a1 jumpPC (setreg sp jumpSP R);
                         mem := M; pc := addr base 3; npc := jumpPC |}).
  { cbn [run]. longjmp_step 2%nat. reflexivity. }
  assert (E4 : run (longjmp_image base) 1
                 {| regs := setreg a1 jumpPC (setreg sp jumpSP R);
                    mem := M; pc := addr base 3; npc := jumpPC |}
               = Some {| regs := setreg a1 jumpPC (setreg sp jumpSP R);
                         mem := M; pc := jumpPC;
                         npc := wrap32 (jumpPC + 4) |}).
  { cbn [run]. longjmp_step 3%nat. reflexivity. }
  eexists. split.
  { rewrite (run_app _ 1 3), E1, (run_app _ 1 2), E2, (run_app _ 1 1), E3.
    exact E4. }
  cbn [pc mem]. regs_simpl.
  split; [reflexivity|]. split; [reflexivity|]. split; [reflexivity|].
  split; [reflexivity|]. split; [reflexivity|]. split.
  { intros r Hr1 Hr2. unfold getreg.
    destruct (decide (r = zero)); [reflexivity|]. cbn [regs].
    rewrite !setreg_ne by assumption. reflexivity. }
  intros k Hk.
  destruct k as [|[|[|[|k]]]]; [| | | |lia].
  - eexists. split; [reflexivity|]. reflexivity.
  - eexists. split; [exact E1|]. reflexivity.
  - eexists. split.
    + rewrite (run_app _ 1 1), E1. exact E2.
    + reflexivity.
  - eexists. split.
    + rewrite (run_app _ 1 2), E1, (run_app _ 1 1), E2. exact E3.
    + reflexivity.
Qed.

End Longjmp.

Section MipsExamples.
Import Mips.

Lemma scanstack_stub_o32 : o32_call scanstack_stub.
Proof.
  intros m. unfold scanstack_stub. cbn [pc npc mem].
  split; [reflexivity|]. split; [reflexivity|]. split.
  { regs_simpl. reflexivity. }
  split; [|reflexivity].
  intros r Hr. unfold getreg.
  destruct (decide (r = zero)); [reflexivity|]. cbn [regs].
  unfold o32_saved in Hr.
  repeat (apply elem_of_cons in Hr; destruct Hr as [-> | Hr];
          [rewrite !setreg_ne by discriminate; reflexivity|]).
  apply elem_of_nil in Hr. contradiction.
Qed.

Lemma scanCurrentStack_capture_call_restore_witness :
  (0 <= 0x1000 /\ 0x1000 + 72 <= 2 ^ 32) /\
  (0x2000 < 0x1000 \/ 0x1000 + 68 <= 0x2000) /\
  o32_call scanstack_stub /\
  entered 0x1000 (boot 0x1000 caller_regs ∅) /\
  is_word (getreg (boot 0x1000 caller_regs ∅) sp) /\
  aligned (getreg (boot 0x1000 caller_regs ∅) sp) = true /\
  exists m1 m3 : machine,
    run (scan_image 0x1000 0x2000 scanstack_stub) 13
        (boot 0x1000 caller_regs ∅) = Some m1 /\
    pc m1 = 0x2000 /\
    getreg m1 a0 = getreg m1 sp /\
    getreg m1 sp = 0x8000 - 40 /\
    run (scan_image 0x1000 0x2000 scanstack_stub) 18
        (boot 0x1000 caller_regs ∅) = Some m3 /\
    pc m3 = 0x3000 /\
    getreg m3 sp = 0x8000.
Proof.
  assert (Hb : 0 <= 0x1000 /\ 0x1000 + 72 <= 2 ^ 32) by (cbn; lia).
  assert (He : 0x2000 < 0x1000 \/ 0x1000 + 68 <= 0x2000) by lia.
  assert (Hent : entered 0x1000 (boot 0x1000 caller_regs ∅))
    by (split; reflexivity).
  assert (Hw : is_word (getreg (boot 0x1000 caller_regs ∅) sp))
    by (vm_compute; split; [discriminate | reflexivity]).
  assert (Hal : aligned (getreg (boot 0x1000 caller_regs ∅) sp) = true)
    by reflexivity.
  split; [exact Hb|]. split; [exact He|].
  split; [exact scanstack_stub_o32|].
  split; [exact Hent|]. split; [exact Hw|]. split; [exact Hal|].
  destruct (scanCurrentStack_capture_call_restore 0x1000 0x2000
              scanstack_stub Hb He scanstack_stub_o32
              (boot 0x1000 caller_regs ∅) Hent Hw Hal)
    as (m1 & m2 & m3 & H13 & Hsp1 & _ & _ & Hpc1 & Ha0 & _ & _ & _ & _ & _
        & Hsp3 & Hpc3 & H18).
  exists m1, m3.
  split; [exact H13|]. split; [exact Hpc1|]. split; [exact Ha0|].
  split; [exact Hsp1|]. split; [exact H18|].
  split; [exact Hpc3 | exact Hsp3].
Defined.

Lemma scanCurrentStack_preserves_caller_context_witness :
  (0 <= 0x1000 /\ 0x1000 + 72 <= 2 ^ 32) /\
  (0x2000 < 0x1000 \/ 0x1000 + 68 <= 0x2000) /\
  o32_call scanstack_stub /\
  entered 0x1000 (boot 0x1000 caller_regs ∅) /\
  is_word (getreg (boot 0x1000 caller_regs ∅) sp) /\
  aligned (getreg (boot 0x1000 caller_regs ∅) sp) = true /\
  exists m3 : machine,
    run (scan_image 0x1000 0x2000 scanstack_stub) 18
        (boot 0x1000 caller_regs ∅) = Some m3 /\
    pc m3 = 0x3000 /\
    getreg m3 sp = 0x8000 /\
    getreg m3 s0 = 100 /\
    getreg m3 s8 = 108 /\
    getreg m3 ra = 0x1044.
Proof.
  assert (Hb : 0 <= 0x1000 /\ 0x1000 + 72 <= 2 ^ 32) by (cbn; lia).
  assert (He : 0x2000 < 0x1000 \/ 0x1000 + 68 <= 0x2000) by lia.
  assert (Hent : entered 0x1000 (boot 0x1000 caller_regs ∅))
    by (split; reflexivity).
  assert (Hw : is_word (getreg (boot 0x1000 caller_regs ∅) sp))
    by (vm_compute; split; [discriminate | reflexivity]).
  assert (Hal : aligned (getreg (boot 0x1000 caller_regs ∅) sp) = true)
    by reflexivity.
  split; [exact Hb|]. split; [exact He|].
  split; [exact scanstack_stub_o32|].
  split; [exact Hent|]. split; [exact Hw|]. split; [exact Hal|].
  destruct (scanCurrentStack_preserves_caller_context 0x1000 0x2000
              scanstack_stub Hb He scanstack_stub_o32
              (boot 0x1000 caller_regs ∅) Hent Hw Hal)
    as (m1 & m3 & _ & _ & H18 & Hpc3 & _ & Hsp3 & Hsaved & Hra3 & _).
  exists m3.
  split; [exact H18|]. split; [exact Hpc3|]. split; [exact Hsp3|].
  assert (Hs0 : s0 ∈ callee_saved) by (unfold callee_saved; repeat constructor).
  assert (Hs8 : s8 ∈ callee_saved) by (unfold callee_saved; repeat constructor).
  split; [apply (Hsaved s0 Hs0); discriminate|].
  split; [apply (Hsaved s8 Hs8); discriminate|].
  rewrite Hra3. reflexivity.
Defined.

(** C5 fails on the code for [ra], the first register the routine
    pushes as callee-saved: the caller's return address is 0x3000, and
    after the call [ra] holds 0x1044, the address after the routine
    (placed at 0x1000). *)
Lemma return_address_register_not_handed_back :
  ra ∈ callee_saved /\
  getreg (boot 0x1000 caller_regs ∅) ra = 0x3000 /\
  (exists m3 : machine,
     run (scan_image 0x1000 0x2000 scanstack_stub) 18
         (boot 0x1000 caller_regs ∅) = Some m3 /\
     pc m3 = 0x3000 /\
     getreg m3 ra = 0x1044) /\
  ~ (forall (base scanstack : Z) (gc : machine -> machine) (m : machine),
       0 <= base /\ base + 72 <= 2 ^ 32 ->
       scanstack < base \/ base + 68 <= scanstack ->
       o32_call gc ->
       entered base m ->
       is_word (getreg m sp) ->
       aligned (getreg m sp) = true ->
       exists m3 : machine,
         run (scan_image base scanstack gc) 18 m = Some m3 /\
         pc m3 = getreg m ra /\
         getreg m3 sp = getreg m sp /\
         forall r, r ∈ callee_saved -> getreg m3 r = getreg m r).
Proof.
  assert (Hb : 0 <= 0x1000 /\ 0x1000 + 72 <= 2 ^ 32) by (cbn; lia).
  assert (He : 0x2000 < 0x1000 \/ 0x1000 + 68 <= 0x2000) by lia.
  assert (Hent : entered 0x1000 (boot 0x1000 caller_regs ∅))
    by (split; reflexivity).
  assert (Hw : is_word (getreg (boot 0x1000 caller_regs ∅) sp))
    by (vm_compute; split; [discriminate | reflexivity]).
  assert (Hal : aligned (getreg (boot 0x1000 caller_regs ∅) sp) = true)
    by reflexivity.
  assert (Hin : ra ∈ callee_saved) by (unfold callee_saved; repeat constructor).
  destruct (scan_call 0x1000 0x2000 scanstack_stub Hb He scanstack_stub_o32
              (boot 0x1000 caller_regs ∅) Hent Hw Hal)
    as (m1 & m2 & m3 & _ & _ & _ & _ & H18 & _ & _ & _
        & (Hpc3 & _ & _ & Hra3) & _).
  split; [exact Hin|]. split; [reflexivity|]. split.
  - exists m3. split; [exact H18|]. split; [exact Hpc3|].
    rewrite Hra3. reflexivity.
  - intros H.
    destruct (H 0x1000 0x2000 scanstack_stub (boot 0x1000 caller_regs ∅)
                Hb He scanstack_stub_o32 Hent Hw Hal)
      as (m3' & H18' & _ & _ & Hall).
    rewrite H18 in H18'. injection H18' as <-.
    specialize (Hall ra Hin). rewrite Hra3 in Hall.
    vm_compute in Hall. discriminate Hall.
Qed.

Lemma longjmp_transfers_control_witness :
  (0 <= 0x1000 /\ 0x1000 + 16 <= 2 ^ 32) /\
  entered 0x1000 (boot 0x1000 caller_regs jump_block) /\
  is_word (getreg (boot 0x1000 caller_regs jump_block) a0) /\
  aligned (getreg (boot 0x1000 caller_regs jump_block) a0) = true /\
  mem (boot 0x1000 caller_regs jump_block)
    !! getreg (boot 0x1000 caller_regs jump_block) a0 = Some 0x9000 /\
  mem (boot 0x1000 caller_regs jump_block)
    !! wrap32 (getreg (boot 0x1000 caller_regs jump_block) a0 + 4)
  = Some 0x5000 /\
  exists m' : machine,
    run (longjmp_image 0x1000) 4 (boot 0x1000 caller_regs jump_block)
    = Some m' /\
    pc m' = 0x5000 /\
    getreg m' sp = 0x9000 /\
    getreg m' ra = 0x3000.
Proof.
  assert (Hb : 0 <= 0x1000 /\ 0x1000 + 16 <= 2 ^ 32) by (cbn; lia).
  assert (Hent : entered 0x1000 (boot 0x1000 caller_regs jump_block))
    by (split; reflexivity).
  assert (Hw : is_word (getreg (boot 0x1000 caller_regs jump_block) a0))
    by (vm_compute; split; [discriminate | reflexivity]).
  assert (Hal : aligned (getreg (boot 0x1000 caller_regs jump_block) a0)
                = true) by reflexivity.
  assert (Hsp : mem (boot 0x1000 caller_regs jump_block)
                  !! getreg (boot 0x1000 caller_regs jump_block) a0
                = Some 0x9000) by reflexivity.
  assert (Hpc : mem (boot 0x1000 caller_regs jump_block)
                  !! wrap32 (getreg (boot 0x1000 caller_regs jump_block) a0
                             + 4)
                = Some 0x5000) by reflexivity.
  repeat (split; [assumption|]).
  destruct (longjmp_transfers_control 0x1000 Hb
              (boot 0x1000 caller_regs jump_block) 0x9000 0x5000
              Hent Hw Hal Hsp Hpc)
    as (m' & Hrun & Hpc' & Hsp' & _ & Hra & _).
  exists m'.
  split; [exact Hrun|]. split; [exact Hpc'|]. split; [exact Hsp'|].
  exact Hra.
Defined.

End MipsExamples.

(* ===================================================================== *)
(** * Further properties: a ticker over several firings *)
(* ===================================================================== *)

Section TickerProperties.
Import GoInt Runtime Ticker.

Variable addTimer : timerNode -> list timerNode -> list timerNode.

Lemma wrap_int64_is_int64 (z : Z) : is_int64 (wrap_int64 z).
Proof.
  unfold is_int64, int64_min, int64_max, wrap_int64.
  pose proof (Z.mod_pos_bound (z + 2 ^ 63) (2 ^ 64)). lia.
Qed.

Lemma wrap_int64_add_idem (a b : Z) :
  wrap_int64 (wrap_int64 a + b) = wrap_int64 (a + b).
Proof.
  unfold wrap_int64. f_equal.
  replace ((a + 2 ^ 63) mod 2 ^ 64 - 2 ^ 63 + b + 2 ^ 63)
    with ((a + 2 ^ 63) mod 2 ^ 64 + b) by lia.
  rewrite Zplus_mod_idemp_l. f_equal. lia.
Qed.

Lemma timerCallback_when tn delta st :
  is_int64 (when (timer_ tn)) ->
  when (timer_ (fst (timerCallback addTimer tn delta st)))
  = wrap_int64 (when (timer_ tn) + period (timer_ tn)) /\
  period (timer_ (fst (timerCallback addTimer tn delta st)))
  = period (timer_ tn).
Proof.
  intros Hw. unfold timerCallback.
  destruct (period (timer_ tn) =? 0) eqn:E; cbn.
  - apply Z.eqb_eq in E. rewrite E, Z.add_0_r.
    rewrite wrap_int64_in_range by assumption. split; reflexivity.
  - split; reflexivity.
Qed.

(** X1.  Firing a timer [n] times, however late each firing is, leaves its
    deadline at [when + n * period] on [int64] (the exact value
    whenever that is representable) and its period as it was, and calls
    the timer's function [n] times, once per firing with that firing's
    [delta], in order. *)
Theorem ticker_deadline_after_firings :
  forall (tn : timerNode) (deltas : list Z) (st : state),
    is_int64 (when (timer_ tn)) ->
    let n := Z.of_nat (length deltas) in
    let r := fire_each addTimer tn deltas st in
    when (timer_ (fst r))
    = wrap_int64 (when (timer_ tn) + n * period (timer_ tn)) /\
    (is_int64 (when (timer_ tn) + n * period (timer_ tn)) ->
     when (timer_ (fst r)) = when (timer_ tn) + n * period (timer_ tn)) /\
    period (timer_ (fst r)) = period (timer_ tn) /\
    map delta_of (trace (snd r)) = map delta_of (trace st) ++ deltas.
Proof.
  intros tn deltas. revert tn.
  induction deltas as [|delta rest IH]; intros tn st Hw n r; subst n r.
  - cbn. rewrite Z.add_0_r, app_nil_r.
    rewrite wrap_int64_in_range by assumption. repeat split; reflexivity.
  - cbn [fire_each].
    destruct (timerCallback addTimer tn delta st) as [tn' st'] eqn:E.
    pose proof (timerCallback_when tn delta st Hw) as [Hw' Hp'].
    pose proof (timerCallback_trace addTimer tn delta st) as Ht.
    rewrite E in Hw', Hp', Ht. cbn [fst snd] in Hw', Hp', Ht.
    assert (Hr : is_int64 (when (timer_ tn')))
      by (rewrite Hw'; apply wrap_int64_is_int64).
    destruct (IH tn' st' Hr) as (H1 & _ & H3 & H4).
    assert (Hsum : when (timer_ (fst (fire_each addTimer tn' rest st')))
                   = wrap_int64 (when (timer_ tn)
                                 + Z.of_nat (length (delta :: rest))
                                   * period (timer_ tn))).
    { rewrite H1, Hw', Hp', wrap_int64_add_idem. f_equal.
      cbn [length]. lia. }
    split; [exact Hsum|]. split.
    { intros Hfit. rewrite Hsum. apply wrap_int64_in_range. exact Hfit. }
    split; [congruence|].
    rewrite H4, Ht, map_app. cbn. rewrite <- app_assoc. reflexivity.
Qed.

End TickerProperties.

Lemma ticker_deadline_after_firings_witness :
  GoInt.is_int64 (Runtime.when (Runtime.timer_ (Runtime.ticker 100 100))) /\
  GoInt.is_int64 (Runtime.when (Runtime.timer_ (Runtime.ticker 100 100))
                  + 3 * Runtime.period (Runtime.timer_ (Runtime.ticker 100 100))) /\
  Runtime.when
    (Runtime.timer_
       (fst (Ticker.fire_each Runtime.addTimer_ns (Runtime.ticker 100 100)
               [15; 150; 0] Runtime.idle)))
  = 400.
Proof.
  assert (H1 : GoInt.is_int64
                 (Runtime.when (Runtime.timer_ (Runtime.ticker 100 100))))
    by (unfold GoInt.is_int64, GoInt.int64_min, GoInt.int64_max; cbn; lia).
  assert (H2 : GoInt.is_int64
                 (Runtime.when (Runtime.timer_ (Runtime.ticker 100 100))
                  + 3 * Runtime.period (Runtime.timer_ (Runtime.ticker 100 100))))
    by (unfold GoInt.is_int64, GoInt.int64_min, GoInt.int64_max; cbn; lia).
  split; [exact H1|]. split; [exact H2|].
  destruct (ticker_deadline_after_firings Runtime.addTimer_ns
              (Runtime.ticker 100 100) [15; 150; 0] Runtime.idle H1)
    as (_ & Hexact & _).
  exact (Hexact H2).
Defined.

(* ===================================================================== *)
(** * Further properties: ADC readings, voltage and temperature *)
(* ===================================================================== *)

Section ADCDriverProperties.
Import GoInt Machine MachineADC.

Variable ADC0 : Z.
Variable thermADC : Z.
Variable peripheral : Type.
Variable sample : Z -> peripheral -> Z * peripheral.
Variable configure_analog : Z -> peripheral -> peripheral.
Variable enabled : peripheral -> bool.
Variable reset_enable : peripheral -> peripheral.
Variable enable_temp_sensor : peripheral -> peripheral.

Lemma getOnce_value (c : Z) (hw : peripheral) :
  fst (ADCChannel_getOnce sample c hw)
  = (fst (sample c hw) mod 65536 * 16) mod 65536.
Proof.
  unfold ADCChannel_getOnce, wrap_uint16.
  destruct (sample c hw) as [raw hw']. cbn [fst].
  rewrite Z.shiftl_mul_pow2 by lia. reflexivity.
Qed.

Lemma getOnce_shift (c : Z) (hw : peripheral) :
  0 <= fst (sample c hw) < 4096 ->
  Z.shiftr (fst (ADCChannel_getOnce sample c hw)) 4 = fst (sample c hw).
Proof.
  intros Hraw. rewrite getOnce_value.
  rewrite (Z.mod_small (fst (sample c hw))) by lia.
  rewrite Z.mod_small by lia.
  rewrite Z.shiftr_div_pow2 by lia.
  replace (fst (sample c hw) * 16) with (fst (sample c hw) * 2 ^ 4) by lia.
  apply Z.div_mul. lia.
Qed.

(** X2.  [getOnce] returns a [uint16] that is a multiple of 16; a 12-bit
    reading [raw] comes back as [16 * raw], from which [>> 4] recovers
    it. *)
Theorem getOnce_scales_reading :
  forall (c : Z) (hw : peripheral),
    let raw := fst (sample c hw) in
    let r := fst (ADCChannel_getOnce sample c hw) in
    0 <= r < 65536 /\
    r mod 16 = 0 /\
    (0 <= raw < 4096 -> r = 16 * raw /\ Z.shiftr r 4 = raw).
Proof.
  intros c hw raw r. subst r. rewrite getOnce_value. fold raw.
  split; [apply Z.mod_pos_bound; lia|]. split.
  - assert (D : (16 | 65536)) by (exists 4096; reflexivity).
    rewrite (Z.mod_mod_divide _ _ 16 D). apply Z.mod_mul. lia.
  - intros Hraw. rewrite (Z.mod_small raw) by lia.
    rewrite Z.mod_small by lia. split; [lia|].
    rewrite Z.shiftr_div_pow2 by lia.
    replace (raw * 16) with (raw * 2 ^ 4) by lia.
    apply Z.div_mul. lia.
Qed.

(** X3.  With a reference below [2^16] millivolts and a 12-bit reading, the
    [uint32] arithmetic of [getVoltage] does not wrap: the result is
    [16 * adcAref * raw], whose upper 16 bits are the millivolts
    [adcAref * raw / 4096]. *)
Theorem getVoltage_exact :
  forall (c : Z) (st : adc peripheral),
    let raw := fst (sample c (hw st)) in
    let v := fst (ADCChannel_getVoltage sample c st) in
    0 <= adcAref st < 65536 ->
    0 <= raw < 4096 ->
    v = 16 * adcAref st * raw /\
    0 <= v < 2 ^ 32 /\
    Z.shiftr v 16 = adcAref st * raw / 4096.
Proof.
  intros c st raw v Haref Hraw.
  pose proof (getOnce_shift c (hw st) Hraw) as Hshift. fold raw in Hshift.
  assert (Hv : v = 16 * adcAref st * raw).
  { subst v. unfold ADCChannel_getVoltage.
    destruct (ADCChannel_getOnce sample c (hw st)) as [reading hw'] eqn:E.
    cbn [fst] in *. rewrite Hshift. unfold wrap_uint32.
    rewrite !Z.shiftl_mul_pow2 by lia.
    rewrite (Z.mod_small (adcAref st * 2 ^ 16)) by lia.
    replace (adcAref st * 2 ^ 16) with (adcAref st * 16 * (1 * 2 ^ 12)) by lia.
    rewrite Z.div_mul by lia.
    rewrite Z.mod_small by nia. lia. }
  split; [exact Hv|]. split; [nia|].
  rewrite Hv, Z.shiftr_div_pow2 by lia.
  replace (16 * adcAref st * raw) with (adcAref st * raw * 16) by lia.
  replace (2 ^ 16) with (16 * 4096) by lia.
  rewrite <- Z.div_div by lia. rewrite Z.div_mul by lia. reflexivity.
Qed.

Lemma wrap_int32_range (z : Z) : - 2 ^ 31 <= wrap_int32 z < 2 ^ 31.
Proof.
  unfold wrap_int32. pose proof (Z.mod_pos_bound (z + 2 ^ 31) (2 ^ 32)). lia.
Qed.

Lemma wrap_int32_small (z : Z) :
  - 2 ^ 31 <= z < 2 ^ 31 -> wrap_int32 z = z.
Proof. unfold wrap_int32. intros H. rewrite Z.mod_small; lia. Qed.

Lemma millicelsius_range (v : Z) : -32768 <= millicelsius v <= 32767.
Proof.
  unfold millicelsius. rewrite Z.shiftr_div_pow2 by lia.
  match goal with |- _ <= wrap_int32 ?x / _ <= _ =>
    pose proof (wrap_int32_range x) as H; set (w := wrap_int32 x) in *
  end.
  split.
  - apply Z.div_le_lower_bound; lia.
  - apply Z.lt_succ_r. apply Z.div_lt_upper_bound; lia.
Qed.

(** X4.  Whatever the sensor reads, [ReadTemperature] returns a value
    between -32768 and 32767 millidegrees: the result is the upper half
    of an [int32]. *)
Theorem ReadTemperature_range :
  forall st : adc peripheral,
    -32768 <= fst (ReadTemperature ADC0 thermADC sample enabled reset_enable
                     enable_temp_sensor st) <= 32767.
Proof.
  intros st. unfold ReadTemperature.
  destruct (ADCChannel_getVoltage sample _ _) as [v st3]. cbn [fst].
  apply millicelsius_range.
Qed.

(** X5.  For a sensor voltage [v] (16.16 fixed-point millivolts) between
    45617794 and 49964601, that is 696.07 mV to 762.40 mV, no step of
    the temperature formula wraps, and the result is
    [27000 - (v - 706 * 2^16) * 581 / 2^16] rounded down; it then lies
    between -5769 and 32767 millidegrees. *)
Theorem millicelsius_exact :
  forall v : Z,
    45617794 <= v <= 49964601 ->
    millicelsius v = (27000 * 65536 - (v - 706 * 65536) * 581) / 65536 /\
    -5769 <= millicelsius v <= 32767.
Proof.
  intros v Hv. unfold millicelsius.
  rewrite !Z.shiftl_mul_pow2, Z.shiftr_div_pow2 by lia.
  rewrite (wrap_int32_small v) by lia.
  rewrite (wrap_int32_small (v - 706 * 2 ^ 16)) by lia.
  rewrite (wrap_int32_small ((v - 706 * 2 ^ 16) * 581)) by lia.
  rewrite wrap_int32_small by lia.
  change (2 ^ 16) with 65536.
  split; [reflexivity|]. split.
  - apply Z.div_le_lower_bound; lia.
  - apply Z.lt_succ_r. apply Z.div_lt_upper_bound; lia.
Qed.

(** X6.  [ADC.Configure] on a pin below [ADC0] returns the error and changes
    neither the reference nor the peripheral; on any other pin it
    returns no error, takes over a non-zero [Reference], and puts that
    same pin in analog mode. *)
Theorem ADC_Configure_pin :
  forall (a : ADC) (config : ADCConfig) (st : adc peripheral),
    is_uint8 ADC0 ->
    is_uint8 (Pin a) ->
    (Pin a < ADC0 ->
       ADC_Configure ADC0 configure_analog a config st
       = (Some (errors_New "no ADC channel for pin value"), st)) /\
    (ADC0 <= Pin a ->
       ADC_Configure ADC0 configure_analog a config st
       = (None,
          {| adcAref := if Reference config =? 0 then adcAref st
                        else Reference config;
             hw := configure_analog (Pin a) (hw st) |})).
Proof.
  intros a config st H0 Hp. unfold is_uint8 in *. split.
  - intros Hlt. unfold ADC_Configure.
    rewrite GetADCChannel_below by assumption. reflexivity.
  - intros Hge. unfold ADC_Configure.
    rewrite GetADCChannel_from by (unfold is_uint8; lia).
    unfold ADCChannel_Configure, ADCChannel_Pin, wrap_uint8.
    replace (Pin a - ADC0 + ADC0) with (Pin a) by lia.
    rewrite Z.mod_small by lia.
    destruct (Reference config =? 0); reflexivity.
Qed.

End ADCDriverProperties.

Section ADCDriverExamples.
Import GoInt Machine MachineADC.

Lemma getOnce_scales_reading_witness :
  0 <= fst (sample_const 2 tt) < 4096 /\
  fst (ADCChannel_getOnce sample_const 2 tt) = 16 * 0x123 /\
  Z.shiftr (fst (ADCChannel_getOnce sample_const 2 tt)) 4 = 0x123.
Proof.
  assert (H : 0 <= fst (sample_const 2 tt) < 4096) by (cbn; lia).
  split; [exact H|].
  destruct (getOnce_scales_reading unit sample_const 2 tt) as (_ & _ & Hs).
  exact (Hs H).
Defined.

Lemma getVoltage_exact_witness :
  0 <= adcAref (mkAdc 3300 tt) < 65536 /\
  0 <= fst (sample_const 2 (hw (mkAdc 3300 tt))) < 4096 /\
  fst (ADCChannel_getVoltage sample_const 2 (mkAdc 3300 tt))
  = 16 * 3300 * 0x123 /\
  Z.shiftr (fst (ADCChannel_getVoltage sample_const 2 (mkAdc 3300 tt))) 16
  = 3300 * 0x123 / 4096.
Proof.
  assert (H1 : 0 <= adcAref (mkAdc 3300 tt) < 65536) by (cbn; lia).
  assert (H2 : 0 <= fst (sample_const 2 (hw (mkAdc 3300 tt))) < 4096)
    by (cbn; lia).
  split; [exact H1|]. split; [exact H2|].
  destruct (getVoltage_exact unit sample_const 2 (mkAdc 3300 tt) H1 H2)
    as (Hv & _ & Hmv).
  split; [exact Hv | exact Hmv].
Defined.

Lemma millicelsius_exact_witness :
  45617794 <= 706 * 65536 <= 49964601 /\
  millicelsius (706 * 65536) = 27000.
Proof.
  assert (H : 45617794 <= 706 * 65536 <= 49964601) by lia.
  split; [exact H|].
  exact (proj1 (millicelsius_exact (706 * 65536) H)).
Defined.

Lemma ADC_Configure_pin_witness :
  is_uint8 GPIO26 /\
  is_uint8 (Pin {| Pin := 27 |}) /\
  is_uint8 (Pin {| Pin := 3 |}) /\
  Pin {| Pin := 3 |} < GPIO26 /\
  GPIO26 <= Pin {| Pin := 27 |} /\
  ADC_Configure GPIO26 configure_log {| Pin := 3 |} (mkADCConfig 3000)
    (mkAdc 3300 [])
  = (Some (errors_New "no ADC channel for pin value"), mkAdc 3300 []) /\
  ADC_Configure GPIO26 configure_log {| Pin := 27 |} (mkADCConfig 3000)
    (mkAdc 3300 [])
  = (None, mkAdc 3000 [27]).
Proof.
  assert (H0 : is_uint8 GPIO26) by (unfold is_uint8, GPIO26; lia).
  assert (H27 : is_uint8 (Pin {| Pin := 27 |})) by (unfold is_uint8; cbn; lia).
  assert (H3 : is_uint8 (Pin {| Pin := 3 |})) by (unfold is_uint8; cbn; lia).
  assert (Hlt : Pin {| Pin := 3 |} < GPIO26) by (unfold GPIO26; cbn; lia).
  assert (Hge : GPIO26 <= Pin {| Pin := 27 |}) by (unfold GPIO26; cbn; lia).
  repeat (split; [assumption|]).
  split.
  - exact (proj1 (ADC_Configure_pin GPIO26 (list Z) configure_log
                    {| Pin := 3 |} (mkADCConfig 3000) (mkAdc 3300 []) H0 H3)
                 Hlt).
  - exact (proj2 (ADC_Configure_pin GPIO26 (list Z) configure_log
                    {| Pin := 27 |} (mkADCConfig 3000) (mkAdc 3300 []) H0 H27)
                 Hge).
Defined.

End ADCDriverExamples.

(* ===================================================================== *)
(** * Further properties: USB endpoint buffers *)
(* ===================================================================== *)

Section UsbProperties.
Import GoInt MachineADC MachineUSB.

Lemma array_set_Some {A : Type} (a : list A) (i : nat) (x : A) :
  (i < length a)%nat -> array_set a i x = Some (<[i := x]> a).
Proof. intros H. unfold array_set. rewrite decide_True by exact H. reflexivity. Qed.

Lemma array_set_None {A : Type} (a : list A) (i : nat) (x : A) :
  (length a <= i)%nat -> array_set a i x = None.
Proof. intros H. unfold array_set. rewrite decide_False by lia. reflexivity. Qed.

Lemma lookup_array {A : Type} (a : list A) (i : nat) :
  (i < length a)%nat -> exists x, a !! i = Some x.
Proof. intros H. apply lookup_lt_is_Some_2 in H. destruct H as [x Hx]. eauto. Qed.

Lemma slice_to_Some (s : slice) (n : Z) :
  0 <= n <= cap s ->
  slice_to s n
  = Some {| elems := take (Z.to_nat n) (elems s ++ spare s);
            spare := drop (Z.to_nat n) (elems s ++ spare s) |}.
Proof.
  intros H. unfold slice_to.
  replace (0 <=? n) with true by (symmetry; apply Z.leb_le; lia).
  replace (n <=? cap s) with true by (symmetry; apply Z.leb_le; lia).
  reflexivity.
Qed.

Lemma slice_to_None (s : slice) (n : Z) :
  n < 0 \/ cap s < n -> slice_to s n = None.
Proof.
  intros H. unfold slice_to.
  destruct (0 <=? n) eqn:E1; [|reflexivity].
  destruct (n <=? cap s) eqn:E2; [|reflexivity].
  apply Z.leb_le in E1, E2. lia.
Qed.


Lemma array_to_Some (a : list Z) (n : Z) :
  0 <= n <= Z.of_nat (length a) -> array_to a n = Some (take (Z.to_nat n) a).
Proof.
  intros H. unfold array_to.
  replace (0 <=? n) with true by (symmetry; apply Z.leb_le; lia).
  replace (n <=? Z.of_nat (length a)) with true by (symmetry; apply Z.leb_le; lia).
  reflexivity.
Qed.

Lemma array_to_None (a : list Z) (n : Z) :
  n < 0 \/ Z.of_nat (length a) < n -> array_to a n = None.
Proof.
  intros H. unfold array_to.
  destruct (0 <=? n) eqn:E1; [|reflexivity].
  destruct (n <=? Z.of_nat (length a)) eqn:E2; [|reflexivity].
  apply Z.leb_le in E1, E2. lia.
Qed.

Lemma len_le_cap (s : slice) : len s <= cap s.
Proof. unfold len, cap. lia. Qed.

Lemma copy_length (dst src : list Z) : length (copy dst src) = length dst.
Proof. unfold copy. rewrite length_app, length_take, length_drop. lia. Qed.

Lemma copy_take (dst src : list Z) (n : nat) :
  (n <= length src)%nat -> (length src <= length dst)%nat ->
  take n (copy dst src) = take n src.
Proof.
  intros Hn Hs. unfold copy.
  rewrite (take_ge src (length dst)) by lia.
  rewrite take_app_le by lia. reflexivity.
Qed.

(** The length field and the flags of a control word do not overlap. *)
Lemma control_word_length (count : Z) (pid : bool) :
  0 <= count < 1024 ->
  let val := Z.lor (wrap_uint32 count) usbBuf0CtrlAvail in
  let val := if pid then Z.lor val usbBuf0CtrlData1Pid else val in
  let val := Z.lor val usbBuf0CtrlFull in
  Z.land val usbBuf0CtrlLenMask = count /\
  negb (Z.land val usbBuf0CtrlData1Pid =? 0) = pid /\
  Z.land val usbBuf0CtrlAvail = usbBuf0CtrlAvail /\
  Z.land val usbBuf0CtrlFull = usbBuf0CtrlFull.
Proof.
  intros Hc. cbn zeta. unfold wrap_uint32.
  rewrite (Z.mod_small count) by lia.
  unfold usbBuf0CtrlLenMask, usbBuf0CtrlData1Pid, usbBuf0CtrlAvail,
    usbBuf0CtrlFull.
  assert (Hm : Z.land count 1023 = count).
  { change 1023 with (Z.ones 10).
    rewrite Z.land_ones by lia. apply Z.mod_small. cbn. lia. }
  assert (H1 : Z.land count 8192 = 0).
  { rewrite <- Hm, <- Z.land_assoc. apply Z.land_0_r. }
  assert (H2 : Z.land count 1024 = 0).
  { rewrite <- Hm, <- Z.land_assoc. apply Z.land_0_r. }
  assert (H3 : Z.land count 32768 = 0).
  { rewrite <- Hm, <- Z.land_assoc. apply Z.land_0_r. }
  destruct pid; rewrite !Z.land_lor_distr_l, ?Hm, ?H1, ?H2, ?H3; cbn;
    rewrite ?Z.lor_0_r; repeat split; reflexivity.
Qed.

Lemma sendViaEPIn_state (ep : Z) (data : slice) (count : Z) (st : usb)
    (b : bool) (buf : usbBuffer) (ctl : register_pair) :
  epXdata0 st !! ep_index ep = Some b ->
  EPxBuffer st !! ep_index ep = Some buf ->
  EPxBufferControl st !! ep_index ep = Some ctl ->
  0 <= count <= cap data ->
  sendViaEPIn ep data count st
  = Some (set_EPxBufferControl
            (<[ep_index ep := {| In := in_control_word count b;
                                 Out := Out ctl |}]> (EPxBufferControl st))
            (set_EPxBuffer
               (<[ep_index ep :=
                    {| Buffer0 := copy (Buffer0 buf)
                                       (take (Z.to_nat count)
                                             (elems data ++ spare data));
                       Buffer1 := Buffer1 buf |}]> (EPxBuffer st))
               (set_epXdata0 (<[ep_index ep := negb b]> (epXdata0 st)) st))).
Proof.
  intros Hb Hbuf Hctl Hcount. unfold sendViaEPIn.
  rewrite Hb. cbn [mbind option_bind].
  rewrite array_set_Some by (eapply lookup_lt_Some; exact Hb).
  cbn [mbind option_bind].
  rewrite slice_to_Some by exact Hcount. cbn [mbind option_bind].
  rewrite Hbuf. cbn [mbind option_bind].
  rewrite array_set_Some by (eapply lookup_lt_Some; exact Hbuf).
  cbn [mbind option_bind].
  rewrite Hctl. cbn [mbind option_bind].
  rewrite array_set_Some by (eapply lookup_lt_Some; exact Hctl).
  cbn [mbind option_bind]. unfold in_control_word.
  rewrite negb_involutive. reflexivity.
Qed.

Lemma well_formed_lookups (st : usb) (i : nat) :
  well_formed st -> (i < 16)%nat ->
  exists b buf ctl ectl,
    epXdata0 st !! i = Some b /\
    EPxBuffer st !! i = Some buf /\
    EPxBufferControl st !! i = Some ctl /\
    EPxControl st !! i = Some ectl /\
    length (Buffer0 buf) = 64%nat /\ length (Buffer1 buf) = 64%nat.
Proof.
  intros (H1 & H2 & H3 & H4 & H5 & H6) Hi.
  destruct (lookup_array (epXdata0 st) i) as [b Hb]; [lia|].
  destruct (lookup_array (EPxBuffer st) i) as [buf Hbuf]; [lia|].
  destruct (lookup_array (EPxBufferControl st) i) as [ctl Hctl]; [lia|].
  destruct (lookup_array (EPxControl st) i) as [ectl Hectl]; [lia|].
  exists b, buf, ctl, ectl. repeat (split; [assumption|]).
  rewrite Forall_forall in H4. apply H4.
  apply list_elem_of_lookup. eauto.
Qed.

Lemma well_formed_sendViaEPIn (ep : Z) (data : slice) (count : Z)
    (st st' : usb) :
  well_formed st -> sendViaEPIn ep data count st = Some st' -> well_formed st'.
Proof.
  intros Hwf Hs. pose proof Hwf as (H1 & H2 & H3 & H4 & H5 & H6).
  unfold sendViaEPIn in Hs.
  destruct (epXdata0 st !! ep_index ep) as [b|] eqn:Hb; [|discriminate].
  cbn [mbind option_bind] in Hs.
  assert (Hi : (ep_index ep < 16)%nat)
    by (apply lookup_lt_Some in Hb; lia).
  destruct (well_formed_lookups st (ep_index ep) Hwf Hi)
    as (b' & buf & ctl & ectl & Hb' & Hbuf & Hctl & _ & Hl0 & Hl1).
  rewrite array_set_Some in Hs by lia. cbn [mbind option_bind] in Hs.
  destruct (slice_to data count) as [src|]; [|discriminate].
  cbn [mbind option_bind] in Hs. rewrite Hbuf in Hs.
  cbn [mbind option_bind] in Hs.
  rewrite array_set_Some in Hs by lia. cbn [mbind option_bind] in Hs.
  rewrite Hctl in Hs. cbn [mbind option_bind] in Hs.
  rewrite array_set_Some in Hs by lia. cbn [mbind option_bind] in Hs.
  injection Hs as <-. unfold well_formed. cbn.
  rewrite !length_insert. repeat (split; [assumption|]).
  split; [|split; assumption].
  apply Forall_insert; [assumption|]. cbn. rewrite copy_length.
  split; assumption.
Qed.

Lemma sendViaEPIn_offers :
  forall (ep : Z) (data : slice) (count : Z) (st : usb),
    well_formed st ->
    (ep_index ep < 16)%nat ->
    0 <= count <= cap data ->
    count <= usbBufferLen ->
    exists (st' : usb) (b : bool) (ctl : register_pair),
      sendViaEPIn ep data count st = Some st' /\
      well_formed st' /\
      epXdata0 st !! ep_index ep = Some b /\
      epXdata0 st' !! ep_index ep = Some (negb b) /\
      in_packet (ep_index ep) st'
      = Some (take (Z.to_nat count) (elems data ++ spare data), b) /\
      EPxBufferControl st' !! ep_index ep = Some ctl /\
      Z.land (In ctl) usbBuf0CtrlAvail = usbBuf0CtrlAvail /\
      Z.land (In ctl) usbBuf0CtrlFull = usbBuf0CtrlFull /\
      (forall j, j <> ep_index ep ->
         epXdata0 st' !! j = epXdata0 st !! j /\
         EPxBuffer st' !! j = EPxBuffer st !! j /\
         EPxBufferControl st' !! j = EPxBufferControl st !! j) /\
      offset st' = offset st /\
      MachineUSB.data st' = MachineUSB.data st.
Proof.
  intros ep data count st Hwf Hi Hcount Hfit. unfold usbBufferLen in Hfit.
  assert (Hcap : (Z.to_nat count <= length (elems data ++ spare data))%nat)
    by (rewrite length_app; unfold cap in Hcount; lia).
  destruct (well_formed_lookups st (ep_index ep) Hwf Hi)
    as (b & buf & ctl & ectl & Hb & Hbuf & Hctl & _ & Hl0 & Hl1).
  pose proof (sendViaEPIn_state ep data count st b buf ctl Hb Hbuf Hctl Hcount)
    as Hs.
  pose proof (well_formed_sendViaEPIn _ _ _ _ _ Hwf Hs) as Hwf'.
  destruct (control_word_length count b) as (Hlen & Hpid & Hav & Hfull);
    [lia|]. cbn zeta in Hlen, Hpid, Hav, Hfull.
  eexists _, b, _. split; [exact Hs|]. split; [exact Hwf'|].
  split; [exact Hb|]. cbn.
  split.
  { apply list_lookup_insert_eq. eapply lookup_lt_Some. exact Hb. }
  split.
  { unfold in_packet. cbn.
    rewrite list_lookup_insert_eq by (eapply lookup_lt_Some; eassumption).
    cbn [mbind option_bind].
    rewrite list_lookup_insert_eq by (eapply lookup_lt_Some; eassumption).
    cbn [mbind option_bind In Buffer0]. unfold in_control_word.
    destruct b; cbn [negb] in *; rewrite Hlen, Hpid;
      (rewrite copy_take; [rewrite take_take, Nat.min_id; reflexivity
                          | rewrite length_take; lia
                          | rewrite length_take; lia]). }
  split.
  { apply list_lookup_insert_eq. eapply lookup_lt_Some. exact Hctl. }
  cbn [In]. unfold in_control_word.
  split; [destruct b; exact Hav|]. split; [destruct b; exact Hfull|].
  split; [|split; reflexivity].
  intros j Hj. rewrite !list_lookup_insert_ne by congruence.
  repeat split; reflexivity.
Qed.

(** The same for a [count] within the length of [data]. *)
Lemma sendViaEPIn_offers_len :
  forall (ep : Z) (data : slice) (count : Z) (st : usb),
    well_formed st ->
    (ep_index ep < 16)%nat ->
    0 <= count <= len data ->
    count <= usbBufferLen ->
    exists (st' : usb) (b : bool) (ctl : register_pair),
      sendViaEPIn ep data count st = Some st' /\
      well_formed st' /\
      epXdata0 st !! ep_index ep = Some b /\
      epXdata0 st' !! ep_index ep = Some (negb b) /\
      in_packet (ep_index ep) st'
      = Some (take (Z.to_nat count) (elems data), b) /\
      EPxBufferControl st' !! ep_index ep = Some ctl /\
      Z.land (In ctl) usbBuf0CtrlAvail = usbBuf0CtrlAvail /\
      Z.land (In ctl) usbBuf0CtrlFull = usbBuf0CtrlFull /\
      (forall j, j <> ep_index ep ->
         epXdata0 st' !! j = epXdata0 st !! j /\
         EPxBuffer st' !! j = EPxBuffer st !! j /\
         EPxBufferControl st' !! j = EPxBufferControl st !! j) /\
      offset st' = offset st /\
      MachineUSB.data st' = MachineUSB.data st.
Proof.
  intros ep data count st Hwf Hi Hcount Hfit.
  pose proof (len_le_cap data) as Hle.
  destruct (sendViaEPIn_offers ep data count st Hwf Hi) as (st' & b & ctl & H);
    [lia | exact Hfit |].
  rewrite take_app_le in H by (unfold len in Hcount; lia).
  exists st', b, ctl. exact H.
Qed.

(** [sendViaEPIn] writes the endpoint memory and the toggles only. *)
Lemma sendViaEPIn_registers (ep : Z) (payload : slice) (count : Z)
    (st st' : usb) :
  sendViaEPIn ep payload count st = Some st' ->
  ADDR_ENDP st' = ADDR_ENDP st /\
  EP_STALL_ARM st' = EP_STALL_ARM st /\
  SIE_STATUS st' = SIE_STATUS st /\
  EPxControl st' = EPxControl st /\
  setupBytes st' = setupBytes st.
Proof.
  unfold sendViaEPIn. intros Hs.
  destruct (epXdata0 st !! ep_index ep); [|discriminate].
  cbn [mbind option_bind] in Hs.
  destruct (array_set (epXdata0 st) _ _); [|discriminate].
  cbn [mbind option_bind] in Hs.
  destruct (slice_to payload count); [|discriminate].
  cbn [mbind option_bind] in Hs.
  destruct (EPxBuffer st !! ep_index ep); [|discriminate].
  cbn [mbind option_bind] in Hs.
  destruct (array_set (EPxBuffer st) _ _); [|discriminate].
  cbn [mbind option_bind] in Hs.
  destruct (EPxBufferControl st !! ep_index ep); [|discriminate].
  cbn [mbind option_bind] in Hs.
  destruct (array_set (EPxBufferControl st) _ _); [|discriminate].
  cbn [mbind option_bind] in Hs. injection Hs as <-.
  repeat split; reflexivity.
Qed.

(** X7.  [sendViaEPIn] on an endpoint below 16, with a [count] within
    the capacity of [data] and the 64 bytes of a buffer: the controller
    is offered exactly the first [count] bytes of the backing array of
    [data], which are the first [count] bytes of [data] when [count]
    is within its length; they are marked available and full, as DATA1
    if the endpoint's toggle was set and DATA0 if not; the toggle is
    flipped, so the next packet on the endpoint has the other PID; the
    other endpoints, the endpoint control registers, the pending
    transfer and the registers of the controller are not touched. *)
Theorem sendViaEPIn_packet :
  forall (ep : Z) (data : slice) (count : Z) (st : usb),
    well_formed st ->
    (ep_index ep < 16)%nat ->
    0 <= count <= cap data ->
    count <= usbBufferLen ->
    exists (st' : usb) (b : bool) (ctl : register_pair),
      sendViaEPIn ep data count st = Some st' /\
      well_formed st' /\
      epXdata0 st !! ep_index ep = Some b /\
      epXdata0 st' !! ep_index ep = Some (negb b) /\
      in_packet (ep_index ep) st'
      = Some (take (Z.to_nat count) (elems data ++ spare data), b) /\
      (count <= len data ->
       in_packet (ep_index ep) st'
       = Some (take (Z.to_nat count) (elems data), b)) /\
      EPxBufferControl st' !! ep_index ep = Some ctl /\
      Z.land (In ctl) usbBuf0CtrlAvail = usbBuf0CtrlAvail /\
      Z.land (In ctl) usbBuf0CtrlFull = usbBuf0CtrlFull /\
      (forall j, j <> ep_index ep ->
         epXdata0 st' !! j = epXdata0 st !! j /\
         EPxBuffer st' !! j = EPxBuffer st !! j /\
         EPxBufferControl st' !! j = EPxBufferControl st !! j) /\
      offset st' = offset st /\
      MachineUSB.data st' = MachineUSB.data st /\
      EPxControl st' = EPxControl st /\
      setupBytes st' = setupBytes st /\
      ADDR_ENDP st' = ADDR_ENDP st /\
      EP_STALL_ARM st' = EP_STALL_ARM st /\
      SIE_STATUS st' = SIE_STATUS st.
Proof.
  intros ep data count st Hwf Hi Hcount Hfit.
  destruct (sendViaEPIn_offers ep data count st Hwf Hi Hcount Hfit)
    as (st' & b & ctl & Hs & Hwf' & Hb & Hb' & Hp & Hctl & Hav & Hfull
        & Hothers & Ho & Hd).
  destruct (sendViaEPIn_registers ep data count st st' Hs)
    as (Ra & Rs & Ri & Rc & Rb).
  exists st', b, ctl.
  split; [exact Hs|]. split; [exact Hwf'|]. split; [exact Hb|].
  split; [exact Hb'|]. split; [exact Hp|].
  split.
  { intros Hlen. rewrite Hp.
    rewrite take_app_le by (unfold len in Hlen; lia). reflexivity. }
  split; [exact Hctl|]. split; [exact Hav|]. split; [exact Hfull|].
  split; [exact Hothers|]. split; [exact Ho|]. split; [exact Hd|].
  split; [exact Rc|]. split; [exact Rb|]. split; [exact Ra|].
  split; [exact Rs | exact Ri].
Qed.

Lemma ep_index_direction (ep : Z) : ep_index (Z.lor ep 0x80) = ep_index ep.
Proof.
  unfold ep_index. rewrite Z.land_lor_distr_l.
  change (Z.land 128 127) with 0. rewrite Z.lor_0_r. reflexivity.
Qed.

(** X8.  [sendViaEPIn] does not look at the direction bit of the endpoint
    address ([0x80]); on a state with the declared array lengths it
    panics exactly when the endpoint number [ep&0x7F] is 16 or more, or
    [count] is negative or beyond the capacity of [data].  A [count]
    beyond the length of [data] but within its capacity is no
    panic. *)
Theorem sendViaEPIn_endpoint_address :
  forall (ep : Z) (data : slice) (count : Z) (st : usb),
    sendViaEPIn (Z.lor ep 0x80) data count st = sendViaEPIn ep data count st /\
    (well_formed st ->
     (sendViaEPIn ep data count st = None <->
      (16 <= ep_index ep)%nat \/ count < 0 \/ cap data < count)).
Proof.
  intros ep data count st. split.
  - unfold sendViaEPIn. rewrite ep_index_direction. reflexivity.
  - intros Hwf. pose proof Hwf as (H1 & H2 & H3 & H4 & H5 & H6). split.
    + intros Hnone.
      destruct (le_lt_dec 16 (ep_index ep)) as [Hi|Hi]; [left; exact Hi|].
      right.
      destruct (Z_lt_dec count 0) as [|Hc0]; [left; assumption|].
      destruct (Z_lt_dec (cap data) count) as [|Hc1];
        [right; assumption|].
      destruct (well_formed_lookups st (ep_index ep) Hwf Hi)
        as (b & buf & ctl & ectl & Hb & Hbuf & Hctl & _).
      rewrite (sendViaEPIn_state ep data count st b buf ctl Hb Hbuf Hctl)
        in Hnone by lia.
      discriminate Hnone.
    + intros [Hi | Hc].
      * unfold sendViaEPIn.
        rewrite (lookup_ge_None_2 (epXdata0 st)) by lia. reflexivity.
      * unfold sendViaEPIn.
        destruct (epXdata0 st !! ep_index ep) as [b|]; [|reflexivity].
        cbn [mbind option_bind].
        destruct (array_set (epXdata0 st) (ep_index ep) (negb b));
          [|reflexivity].
        cbn [mbind option_bind].
        rewrite slice_to_None by exact Hc. reflexivity.
Qed.

Lemma well_formed_set_offset (v : Z) (st : usb) :
  well_formed st -> well_formed (set_offset v st).
Proof. intros H. exact H. Qed.

Lemma well_formed_set_data (v : slice) (st : usb) :
  well_formed st -> well_formed (set_data v st).
Proof. intros H. exact H. Qed.

Lemma in_packet_set_offset (i : nat) (v : Z) (st : usb) :
  in_packet i (set_offset v st) = in_packet i st.
Proof. reflexivity. Qed.

Section Endpoint0.
Variable EndpointPacketSize : Z.
Hypothesis Hsize : 0 < EndpointPacketSize <= usbBufferLen.




End Endpoint0.

Lemma Out_SetBits_state (ep bits : Z) (st : usb) (ctl : register_pair) :
  EPxBufferControl st !! Z.to_nat ep = Some ctl ->
  Out_SetBits ep bits st
  = Some (set_EPxBufferControl
            (<[Z.to_nat ep := {| In := In ctl;
                                 Out := Z.lor (Out ctl) bits |}]>
               (EPxBufferControl st)) st).
Proof.
  intros Hctl. unfold Out_SetBits. rewrite Hctl. cbn [mbind option_bind].
  rewrite array_set_Some by (eapply lookup_lt_Some; exact Hctl).
  reflexivity.
Qed.

(** X10.  Receiving on an OUT endpoint.  [handleEndpointRx] returns the
    first [sz] bytes of the endpoint's buffer, [sz] being the length
    field of the buffer control word, and panics when that field
    exceeds the 64 bytes of the buffer.  Followed by
    [handleEndpointRxComplete], it leaves the buffer re-armed for 64
    bytes and available, expecting DATA1 on endpoint 0 always and on
    another endpoint when its toggle has become set; the toggle is
    flipped and no buffer is written. *)
Theorem endpoint_rx_rearms_buffer :
  forall (ep : Z) (st : usb) (ctl : register_pair) (buf : usbBuffer)
         (b : bool),
    well_formed st ->
    0 <= ep < 16 ->
    EPxBufferControl st !! Z.to_nat ep = Some ctl ->
    EPxBuffer st !! Z.to_nat ep = Some buf ->
    epXdata0 st !! Z.to_nat ep = Some b ->
    let sz := Z.land (Out ctl) usbBuf0CtrlLenMask in
    (usbBufferLen < sz -> handleEndpointRx ep st = None) /\
    (sz <= usbBufferLen ->
     exists st1 st2 : usb,
       handleEndpointRx ep st = Some (take (Z.to_nat sz) (Buffer0 buf), st1) /\
       handleEndpointRxComplete ep st1 = Some st2 /\
       EPxBufferControl st2 !! Z.to_nat ep
       = Some {| In := In ctl;
                 Out := if negb b || (ep =? 0)
                        then 64 + usbBuf0CtrlData1Pid + usbBuf0CtrlAvail
                        else 64 + usbBuf0CtrlAvail |} /\
       epXdata0 st2 !! Z.to_nat ep = Some (negb b) /\
       EPxBuffer st2 = EPxBuffer st /\
       well_formed st2).
Proof.
  intros ep st ctl buf b Hwf Hep Hctl Hbuf Hb sz.
  pose proof Hwf as (H1 & H2 & H3 & H4 & H5 & H6).
  assert (Hl0 : length (Buffer0 buf) = 64%nat).
  { rewrite Forall_forall in H4.
    apply (H4 buf). apply list_elem_of_lookup. eauto. }
  assert (Hsz : 0 <= sz).
  { subst sz. apply Z.land_nonneg. right. unfold usbBuf0CtrlLenMask. lia. }
  unfold usbBufferLen. split.
  - intros Hbig. unfold handleEndpointRx.
    rewrite Hctl. cbn [mbind option_bind].
    rewrite array_set_Some by lia. cbn [mbind option_bind].
    rewrite Hbuf. cbn [mbind option_bind]. fold sz.
    rewrite array_to_None by lia. reflexivity.
  - intros Hfit.
    set (c1 := {| In := In ctl; Out := 64 |}).
    set (st1 := set_EPxBufferControl
                  (<[Z.to_nat ep := c1]> (EPxBufferControl st)) st).
    assert (Hrx : handleEndpointRx ep st
                  = Some (take (Z.to_nat sz) (Buffer0 buf), st1)).
    { unfold handleEndpointRx.
      rewrite Hctl. cbn [mbind option_bind].
      rewrite array_set_Some by lia. cbn [mbind option_bind].
      rewrite Hbuf. cbn [mbind option_bind]. fold sz.
      rewrite array_to_Some by lia. reflexivity. }
    set (st1' := set_epXdata0 (<[Z.to_nat ep := negb b]> (epXdata0 st1)) st1).
    assert (Hc1 : EPxBufferControl st1' !! Z.to_nat ep = Some c1).
    { cbn. apply list_lookup_insert_eq. lia. }
    exists st1. destruct (negb b || (ep =? 0)) eqn:E.
    + set (c2 := {| In := In c1; Out := Z.lor (Out c1) usbBuf0CtrlData1Pid |}).
      set (st2 := set_EPxBufferControl
                    (<[Z.to_nat ep := c2]> (EPxBufferControl st1')) st1').
      assert (Hc2 : EPxBufferControl st2 !! Z.to_nat ep = Some c2).
      { cbn. apply list_lookup_insert_eq. rewrite length_insert. lia. }
      eexists. split; [exact Hrx|]. split.
      { unfold handleEndpointRxComplete.
        change (epXdata0 st1) with (epXdata0 st).
        rewrite Hb. cbn [mbind option_bind].
        rewrite array_set_Some by lia. cbn [mbind option_bind].
        rewrite E. fold st1'.
        rewrite (Out_SetBits_state ep _ st1' c1 Hc1). fold c2. fold st2.
        cbn [mbind option_bind].
        apply (Out_SetBits_state ep _ st2 c2 Hc2). }
      subst st2 st1' st1 c2 c1.
      cbn [EPxBufferControl EPxBuffer epXdata0 set_EPxBufferControl
             set_epXdata0 In Out].
      split; [apply list_lookup_insert_eq; rewrite !length_insert; lia|].
      split; [apply list_lookup_insert_eq; lia|].
      split; [reflexivity|].
      unfold well_formed.
      cbn [EPxControl EPxBufferControl EPxBuffer epXdata0 setupBytes
             set_EPxBufferControl set_epXdata0].
      rewrite !length_insert.
      repeat (split; [assumption|]). assumption.
    + eexists. split; [exact Hrx|]. split.
      { unfold handleEndpointRxComplete.
        change (epXdata0 st1) with (epXdata0 st).
        rewrite Hb. cbn [mbind option_bind].
        rewrite array_set_Some by lia. cbn [mbind option_bind].
        rewrite E. fold st1'.
        apply (Out_SetBits_state ep _ st1' c1 Hc1). }
      subst st1' st1 c1.
      cbn [EPxBufferControl EPxBuffer epXdata0 set_EPxBufferControl
             set_epXdata0 In Out].
      split; [apply list_lookup_insert_eq; rewrite !length_insert; lia|].
      split; [apply list_lookup_insert_eq; lia|].
      split; [reflexivity|].
      unfold well_formed.
      cbn [EPxControl EPxBufferControl EPxBuffer epXdata0 setupBytes
             set_EPxBufferControl set_epXdata0].
      rewrite !length_insert.
      repeat (split; [assumption|]). assumption.
Qed.

(** X11.  The eight bytes [setupBytes] returns (and stores) are the two
    32-bit words of the setup packet in little-endian order: each is a
    byte, and the words are recovered from them. *)
Theorem setupBytes_little_endian :
  forall (control : Z) (st : usb) (ctl : register_pair),
    well_formed st ->
    EPxControl st !! Z.to_nat control = Some ctl ->
    0 <= In ctl < 2 ^ 32 ->
    0 <= Out ctl < 2 ^ 32 ->
    exists (b0 b1 b2 b3 b4 b5 b6 b7 : Z) (st' : usb),
      usbDPSRAM_setupBytes control st
      = Some ([b0; b1; b2; b3; b4; b5; b6; b7], st') /\
      setupBytes st' = [b0; b1; b2; b3; b4; b5; b6; b7] /\
      Forall (fun b => 0 <= b < 256) [b0; b1; b2; b3; b4; b5; b6; b7] /\
      b0 + 2 ^ 8 * b1 + 2 ^ 16 * b2 + 2 ^ 24 * b3 = In ctl /\
      b4 + 2 ^ 8 * b5 + 2 ^ 16 * b6 + 2 ^ 24 * b7 = Out ctl /\
      well_formed st'.
Proof.
  intros control st ctl Hwf Hctl Hin Hout.
  pose proof Hwf as (H1 & H2 & H3 & H4 & H5 & H6).
  unfold usbDPSRAM_setupBytes. rewrite Hctl. cbn [mbind option_bind].
  destruct (setupBytes st) as [|x0 [|x1 [|x2 [|x3 [|x4 [|x5 [|x6 [|x7 [|x8 l]]]]]]]]]
    eqn:Hs; try discriminate H6.
  cbn -[Z.shiftr byte Z.pow].
  eexists _, _, _, _, _, _, _, _, _. split; [reflexivity|].
  split; [reflexivity|]. unfold byte.
  rewrite !Z.shiftr_div_pow2 by lia.
  split.
  { repeat constructor; apply Z.mod_pos_bound; lia. }
  split; [|split].
  - change (2 ^ 8) with 256. change (2 ^ 16) with 65536.
    change (2 ^ 24) with 16777216. change (2 ^ 32) with 4294967296 in Hin.
    Z.div_mod_to_equations. lia.
  - change (2 ^ 8) with 256. change (2 ^ 16) with 65536.
    change (2 ^ 24) with 16777216. change (2 ^ 32) with 4294967296 in Hout.
    Z.div_mod_to_equations. lia.
  - unfold well_formed. cbn.
    repeat (split; [assumption|]). reflexivity.
Qed.

Lemma clear_from_spec (turns : nat) :
  forall (i : nat) (st : usb),
    (i + turns = length (EPxControl st))%nat ->
    length (EPxBufferControl st) = length (EPxControl st) ->
    exists st' : usb,
      clear_from i turns st = Some st' /\
      EPxControl st'
      = take i (EPxControl st) ++ replicate turns {| In := 0; Out := 0 |} /\
      EPxBufferControl st'
      = take i (EPxBufferControl st)
        ++ replicate turns {| In := 0; Out := 0 |} /\
      EPxBuffer st' = EPxBuffer st /\
      epXdata0 st' = epXdata0 st /\
      setupBytes st' = setupBytes st /\
      offset st' = offset st /\
      data st' = data st.
Proof.
  induction turns as [|turns IH]; intros i st Hi Hlen.
  - exists st. cbn [clear_from replicate]. rewrite !app_nil_r.
    rewrite !take_ge by lia. repeat split; reflexivity.
  - cbn [clear_from]. unfold clear_entry.
    rewrite !array_set_Some by lia. cbn [mbind option_bind].
    set (st1 := set_EPxBufferControl _ _).
    destruct (IH (S i) st1) as (st' & Hc & Hec & Hbc & Hrest);
      [subst st1; cbn; rewrite length_insert; lia
      |subst st1; cbn; rewrite !length_insert; lia|].
    exists st'. split; [exact Hc|]. rewrite Hec, Hbc. subst st1. cbn.
    split; [|split; [|exact Hrest]].
    + rewrite (take_S_r _ i {| In := 0; Out := 0 |})
        by (apply list_lookup_insert_eq; lia).
      rewrite take_insert_ge by lia. rewrite <- app_assoc. reflexivity.
    + rewrite (take_S_r _ i {| In := 0; Out := 0 |})
        by (apply list_lookup_insert_eq; lia).
      rewrite take_insert_ge by lia. rewrite <- app_assoc. reflexivity.
Qed.

(** X12.  [clear] never panics and zeroes the 64 control registers of the
    endpoint memory; the packet buffers, the data toggles and the
    pending endpoint-0 transfer are left as they are. *)
Theorem clear_zeroes_control_registers :
  forall st : usb,
    well_formed st ->
    exists st' : usb,
      usbDPSRAM_clear st = Some st' /\
      EPxControl st' = replicate 16 {| In := 0; Out := 0 |} /\
      EPxBufferControl st' = replicate 16 {| In := 0; Out := 0 |} /\
      EPxBuffer st' = EPxBuffer st /\
      epXdata0 st' = epXdata0 st /\
      offset st' = offset st /\
      data st' = data st /\
      well_formed st'.
Proof.
  intros st Hwf. pose proof Hwf as (H1 & H2 & H3 & H4 & H5 & H6).
  destruct (clear_from_spec (length (EPxControl st)) 0 st)
    as (st' & Hc & Hec & Hbc & Hb & Ht & Hs & Ho & Hd); [lia | lia |].
  exists st'. rewrite H1 in Hec, Hbc.
  change (take 0 (EPxControl st) ++ replicate 16 {| In := 0; Out := 0 |})
    with (replicate 16 {| In := 0; Out := 0 |}) in Hec.
  change (take 0 (EPxBufferControl st) ++ replicate 16 {| In := 0; Out := 0 |})
    with (replicate 16 {| In := 0; Out := 0 |}) in Hbc.
  split; [exact Hc|]. repeat (split; [assumption|]).
  unfold well_formed. rewrite Hec, Hbc, Hb, Ht, Hs, !length_replicate.
  repeat split; assumption.
Qed.

Section SetAddressProperties.
Variable EndpointPacketSize : Z.
Variable SIE_STATUS_ACK_REC : Z.
Variable ADDR_ENDP_ADDRESS_Msk : Z.
Variable status : nat -> Z.

Lemma await_ack_true (timeout : nat) :
  forall k : nat,
    await_ack SIE_STATUS_ACK_REC status timeout k = true <->
    exists j : nat,
      (j < timeout)%nat /\ Z.land (status (k + j)%nat) SIE_STATUS_ACK_REC <> 0.
Proof.
  induction timeout as [|timeout IH]; intros k; cbn [await_ack].
  - split; [discriminate | intros (j & Hj & _); lia].
  - destruct (Z.land (status k) SIE_STATUS_ACK_REC =? 0) eqn:E.
    + apply Z.eqb_eq in E. destruct (decide (timeout = 0%nat)) as [->|Hne].
      * split; [discriminate|]. intros (j & Hj & Hack).
        replace j with 0%nat in Hack by lia.
        rewrite Nat.add_0_r in Hack. contradiction.
      * rewrite IH. split.
        -- intros (j & Hj & Hack). exists (S j). split; [lia|].
           replace (k + S j)%nat with (S k + j)%nat by lia. exact Hack.
        -- intros (j & Hj & Hack). destruct j as [|j].
           ++ rewrite Nat.add_0_r in Hack. contradiction.
           ++ exists j. split; [lia|].
              replace (S k + j)%nat with (k + S j)%nat by lia. exact Hack.
    + apply Z.eqb_neq in E. split; [|reflexivity].
      intros _. exists 0%nat. split; [lia|]. rewrite Nat.add_0_r. exact E.
Qed.

(** X13.  [handleUSBSetAddress] offers a zero-length DATA1 packet on endpoint
    0 and always returns [true].  It polls the status register at most
    3000 times: if one of these reads shows the acknowledgement, the
    device address becomes the low byte of [wValue] under the address
    mask; if none does, the address register is left unchanged. *)
Theorem handleUSBSetAddress_bounded_wait :
  forall (setup : Setup) (st : usb),
    well_formed st ->
    0 <= EndpointPacketSize ->
    exists st' : usb,
      handleUSBSetAddress EndpointPacketSize SIE_STATUS_ACK_REC
        ADDR_ENDP_ADDRESS_Msk status setup st = Some (true, st') /\
      in_packet 0 st' = Some ([], true) /\
      ((exists k : nat,
          (k < 3000)%nat /\ Z.land (status k) SIE_STATUS_ACK_REC <> 0) ->
       ADDR_ENDP st'
       = Z.land (wrap_uint32 (WValueL setup)) ADDR_ENDP_ADDRESS_Msk) /\
      ((forall k : nat,
          (k < 3000)%nat -> Z.land (status k) SIE_STATUS_ACK_REC = 0) ->
       ADDR_ENDP st' = ADDR_ENDP st).
Proof.
  intros setup st Hwf Hsize.
  pose proof Hwf as (H1 & H2 & H3 & H4 & H5 & H6).
  unfold handleUSBSetAddress, sendUSBPacket.
  change (len empty) with 0.
  change ((0 <? 0) && (0 <? 0)) with false. change (0 =? 0) with true.
  cbn iota.
  destruct (EndpointPacketSize <? 0) eqn:Elt;
    [apply Z.ltb_lt in Elt; lia|].
  change (Z.to_nat 0) with 0%nat. cbn [epXdata0 set_offset].
  rewrite array_set_Some by lia. cbn [mbind option_bind].
  set (st0 := set_epXdata0 (<[0%nat := true]> (epXdata0 st)) (set_offset 0 st)).
  assert (Hwf0 : well_formed st0).
  { unfold well_formed, st0. cbn. rewrite length_insert.
    repeat (split; [assumption|]). assumption. }
  destruct (sendViaEPIn_offers_len 0 empty 0 st0 Hwf0)
    as (st1 & b1 & ctl & Hs & Hwf1 & Hb1 & _ & Hp & _).
  { change (ep_index 0) with 0%nat. lia. }
  { change (len empty) with 0. lia. }
  { unfold usbBufferLen. lia. }
  change (take (Z.to_nat 0) (elems empty)) with (@nil Z) in Hp.
  change (ep_index 0) with 0%nat in *.
  assert (Hb0 : epXdata0 st0 !! 0%nat = Some true).
  { unfold st0. cbn. apply list_lookup_insert_eq. lia. }
  rewrite Hb0 in Hb1. injection Hb1 as <-.
  rewrite Hs. cbn [mbind option_bind].
  assert (Haddr : ADDR_ENDP st1 = ADDR_ENDP st)
    by (apply (sendViaEPIn_registers _ _ _ _ _ Hs)).
  destruct (await_ack SIE_STATUS_ACK_REC status 3000 0) eqn:E.
  - eexists. split; [reflexivity|]. split; [exact Hp|]. split.
    + intros _. reflexivity.
    + intros Hnone. apply await_ack_true in E as (j & Hj & Hack).
      cbn [Nat.add] in Hack. specialize (Hnone j Hj). contradiction.
  - eexists. split; [reflexivity|]. split; [exact Hp|]. split.
    + intros (k & Hk & Hack).
      assert (Ht : await_ack SIE_STATUS_ACK_REC status 3000 0 = true)
        by (apply await_ack_true; exists k; split; assumption).
      rewrite Ht in E. discriminate E.
    + intros _. exact Haddr.
Qed.

End SetAddressProperties.

Lemma EPxControl_In_Set_state (ep v : Z) (st : usb) (ctl : register_pair) :
  EPxControl st !! Z.to_nat ep = Some ctl ->
  EPxControl_In_Set ep v st
  = Some (set_EPxControl
            (<[Z.to_nat ep := {| In := v; Out := Out ctl |}]> (EPxControl st))
            st).
Proof.
  intros Hctl. unfold EPxControl_In_Set. rewrite Hctl.
  cbn [mbind option_bind].
  rewrite array_set_Some by (eapply lookup_lt_Some; exact Hctl).
  reflexivity.
Qed.

Lemma EPxControl_Out_Set_state (ep v : Z) (st : usb) (ctl : register_pair) :
  EPxControl st !! Z.to_nat ep = Some ctl ->
  EPxControl_Out_Set ep v st
  = Some (set_EPxControl
            (<[Z.to_nat ep := {| In := In ctl; Out := v |}]> (EPxControl st))
            st).
Proof.
  intros Hctl. unfold EPxControl_Out_Set. rewrite Hctl.
  cbn [mbind option_bind].
  rewrite array_set_Some by (eapply lookup_lt_Some; exact Hctl).
  reflexivity.
Qed.

Lemma EPxBufferControl_Out_Set_state (ep v : Z) (st : usb)
    (ctl : register_pair) :
  EPxBufferControl st !! Z.to_nat ep = Some ctl ->
  EPxBufferControl_Out_Set ep v st
  = Some (set_EPxBufferControl
            (<[Z.to_nat ep := {| In := In ctl; Out := v |}]>
               (EPxBufferControl st)) st).
Proof.
  intros Hctl. unfold EPxBufferControl_Out_Set. rewrite Hctl.
  cbn [mbind option_bind].
  rewrite array_set_Some by (eapply lookup_lt_Some; exact Hctl).
  reflexivity.
Qed.

(** The fields of the endpoint control word that [initEndpoint]
    composes. *)
Lemma endpoint_control_word_fields (ep ty : Z) :
  0 <= ep < 16 ->
  ty = usbEpControlEndpointTypeBulk \/ ty = usbEpControlEndpointTypeInterrupt ->
  let w := Z.lor (Z.lor (Z.lor usbEpControlEnable usbEpControlInterruptPerBuff)
                        (wrap_uint32 (ep * 2 * usbBufferLen + 0x100))) ty in
  Z.land w usbEpControlBufferAddress = Buffer0_offset ep /\
  Z.land w usbEpControlEnable = usbEpControlEnable /\
  Z.land w usbEpControlInterruptPerBuff = usbEpControlInterruptPerBuff /\
  Z.land w usbEpControlEndpointType = ty.
Proof.
  intros Hep Hty.
  assert (Hcases : ep = 0 \/ ep = 1 \/ ep = 2 \/ ep = 3 \/ ep = 4 \/ ep = 5 \/
                   ep = 6 \/ ep = 7 \/ ep = 8 \/ ep = 9 \/ ep = 10 \/
                   ep = 11 \/ ep = 12 \/ ep = 13 \/ ep = 14 \/ ep = 15) by lia.
  destruct Hty as [-> | ->];
    repeat (destruct Hcases as [-> | Hcases];
            [vm_compute; repeat split; reflexivity|]);
    subst ep; vm_compute; repeat split; reflexivity.
Qed.

Section EndpointsProperties.
Variable ENDPOINT_TYPE_CONTROL : Z.
Variable ENDPOINT_TYPE_BULK : Z.
Variable ENDPOINT_TYPE_INTERRUPT : Z.
Variable EndpointIn : Z.
Variable EndpointOut : Z.

Local Abbreviation init :=
  (initEndpoint ENDPOINT_TYPE_CONTROL ENDPOINT_TYPE_BULK
     ENDPOINT_TYPE_INTERRUPT EndpointIn EndpointOut).

(** X14.  [initEndpoint] on an endpoint below 16 never panics, whatever
    [config] is, and touches the control registers of that endpoint
    only: no buffer and no toggle, and no register of another endpoint.
    Every endpoint control register it changes ends up enabled, with an
    interrupt per buffer, of type bulk or interrupt, and with the
    address field equal to the offset of the endpoint's [Buffer0] in the
    endpoint memory ([0x100 + 128 * ep]). *)
Theorem initEndpoint_control_word :
  forall (ep config : Z) (st : usb) (ctl : register_pair),
    well_formed st ->
    0 <= ep < 16 ->
    EPxControl st !! Z.to_nat ep = Some ctl ->
    exists (st' : usb) (ctl' : register_pair),
      init ep config st = Some st' /\
      well_formed st' /\
      EPxControl st' !! Z.to_nat ep = Some ctl' /\
      (forall w : Z,
         (w = In ctl' /\ In ctl' <> In ctl) \/
         (w = Out ctl' /\ Out ctl' <> Out ctl) ->
         Z.land w usbEpControlBufferAddress = Buffer0_offset ep /\
         Z.land w usbEpControlEnable = usbEpControlEnable /\
         Z.land w usbEpControlInterruptPerBuff
         = usbEpControlInterruptPerBuff /\
         (Z.land w usbEpControlEndpointType = usbEpControlEndpointTypeBulk \/
          Z.land w usbEpControlEndpointType
          = usbEpControlEndpointTypeInterrupt)) /\
      (forall j : nat,
         j <> Z.to_nat ep ->
         EPxControl st' !! j = EPxControl st !! j /\
         EPxBufferControl st' !! j = EPxBufferControl st !! j) /\
      EPxBuffer st' = EPxBuffer st /\
      epXdata0 st' = epXdata0 st.
Proof.
  intros ep config st ctl Hwf Hep Hctl.
  pose proof Hwf as (H1 & H2 & H3 & H4 & H5 & H6).
  assert (Hi : (Z.to_nat ep < 16)%nat) by lia.
  destruct (lookup_array (EPxBufferControl st) (Z.to_nat ep)) as [bctl Hbctl];
    [lia|].
  pose proof (endpoint_control_word_fields ep usbEpControlEndpointTypeBulk Hep
                (or_introl eq_refl)) as Hbulk.
  pose proof (endpoint_control_word_fields ep
                usbEpControlEndpointTypeInterrupt Hep (or_intror eq_refl))
    as Hintr.
  cbn zeta in Hbulk, Hintr.
  set (wb := Z.lor (Z.lor (Z.lor usbEpControlEnable
                                 usbEpControlInterruptPerBuff)
                          (wrap_uint32 (ep * 2 * usbBufferLen + 0x100)))
                   usbEpControlEndpointTypeBulk) in *.
  set (wi := Z.lor (Z.lor (Z.lor usbEpControlEnable
                                 usbEpControlInterruptPerBuff)
                          (wrap_uint32 (ep * 2 * usbBufferLen + 0x100)))
                   usbEpControlEndpointTypeInterrupt) in *.
  assert (Hone : forall (v : register_pair) (w : Z),
             w = wb \/ w = wi ->
             (In v = w /\ Out v = Out ctl) \/ (In v = In ctl /\ Out v = w) ->
             forall w' : Z,
               (w' = In v /\ In v <> In ctl) \/
               (w' = Out v /\ Out v <> Out ctl) ->
               Z.land w' usbEpControlBufferAddress = Buffer0_offset ep /\
               Z.land w' usbEpControlEnable = usbEpControlEnable /\
               Z.land w' usbEpControlInterruptPerBuff
               = usbEpControlInterruptPerBuff /\
               (Z.land w' usbEpControlEndpointType
                = usbEpControlEndpointTypeBulk \/
                Z.land w' usbEpControlEndpointType
                = usbEpControlEndpointTypeInterrupt)).
  { intros v w Hw Hv w' Hw'.
    assert (Hww : w' = w).
    { destruct Hv as [[Ha Hb] | [Ha Hb]], Hw' as [[-> Hc] | [-> Hc]];
        congruence. }
    subst w'.
    destruct Hw as [-> | ->].
    - destruct Hbulk as (A & B & C & D). repeat (split; [assumption|]).
      left. exact D.
    - destruct Hintr as (A & B & C & D). repeat (split; [assumption|]).
      right. exact D. }
  assert (Hin : forall w : Z,
             w = wb \/ w = wi ->
             exists (st' : usb) (ctl' : register_pair),
               EPxControl_In_Set ep w st = Some st' /\
               well_formed st' /\
               EPxControl st' !! Z.to_nat ep = Some ctl' /\
               ((In ctl' = w /\ Out ctl' = Out ctl) \/
                (In ctl' = In ctl /\ Out ctl' = w)) /\
               (forall j : nat,
                  j <> Z.to_nat ep ->
                  EPxControl st' !! j = EPxControl st !! j /\
                  EPxBufferControl st' !! j = EPxBufferControl st !! j) /\
               EPxBuffer st' = EPxBuffer st /\
               epXdata0 st' = epXdata0 st).
  { intros w Hw. eexists _, _.
    split; [apply (EPxControl_In_Set_state ep w st ctl Hctl)|].
    split.
    { unfold well_formed. cbn [EPxControl EPxBufferControl EPxBuffer epXdata0
                                 setupBytes set_EPxControl].
      rewrite length_insert. repeat (split; [assumption|]). assumption. }
    cbn [EPxControl EPxBufferControl EPxBuffer epXdata0 set_EPxControl].
    split; [apply list_lookup_insert_eq; lia|].
    split; [left; split; reflexivity|].
    split; [|split; reflexivity].
    intros j Hj. split; [|reflexivity].
    apply list_lookup_insert_ne. congruence. }
  assert (Hout : forall w : Z,
             w = wb \/ w = wi ->
             exists (st' : usb) (ctl' : register_pair),
               (st1 ← EPxControl_Out_Set ep w st;
                st2 ← EPxBufferControl_Out_Set ep
                        (Z.land usbBufferLen usbBuf0CtrlLenMask) st1;
                Out_SetBits ep usbBuf0CtrlAvail st2) = Some st' /\
               well_formed st' /\
               EPxControl st' !! Z.to_nat ep = Some ctl' /\
               ((In ctl' = w /\ Out ctl' = Out ctl) \/
                (In ctl' = In ctl /\ Out ctl' = w)) /\
               (forall j : nat,
                  j <> Z.to_nat ep ->
                  EPxControl st' !! j = EPxControl st !! j /\
                  EPxBufferControl st' !! j = EPxBufferControl st !! j) /\
               EPxBuffer st' = EPxBuffer st /\
               epXdata0 st' = epXdata0 st).
  { intros w Hw. eexists _, _.
    rewrite (EPxControl_Out_Set_state ep w st ctl Hctl).
    cbn [mbind option_bind].
    rewrite (EPxBufferControl_Out_Set_state ep _ _ bctl)
      by (cbn [EPxBufferControl set_EPxControl]; exact Hbctl).
    cbn [mbind option_bind].
    rewrite (Out_SetBits_state ep _ _
               {| In := In bctl;
                  Out := Z.land usbBufferLen usbBuf0CtrlLenMask |})
      by (cbn [EPxBufferControl set_EPxControl set_EPxBufferControl];
          apply list_lookup_insert_eq; lia).
    split; [reflexivity|].
    split.
    { unfold well_formed. cbn [EPxControl EPxBufferControl EPxBuffer epXdata0
                                 setupBytes set_EPxControl
                                 set_EPxBufferControl].
      rewrite !length_insert. repeat (split; [assumption|]). assumption. }
    cbn [EPxControl EPxBufferControl EPxBuffer epXdata0 set_EPxControl
           set_EPxBufferControl].
    split; [apply list_lookup_insert_eq; lia|].
    split; [right; split; reflexivity|].
    split; [|split; reflexivity].
    intros j Hj. split.
    - apply list_lookup_insert_ne. congruence.
    - rewrite !list_lookup_insert_ne by congruence. reflexivity. }
  assert (Hfinish : forall (w : Z) (r : option usb),
             w = wb \/ w = wi ->
             (exists (st' : usb) (ctl' : register_pair),
                r = Some st' /\
                well_formed st' /\
                EPxControl st' !! Z.to_nat ep = Some ctl' /\
                ((In ctl' = w /\ Out ctl' = Out ctl) \/
                 (In ctl' = In ctl /\ Out ctl' = w)) /\
                (forall j : nat,
                   j <> Z.to_nat ep ->
                   EPxControl st' !! j = EPxControl st !! j /\
                   EPxBufferControl st' !! j = EPxBufferControl st !! j) /\
                EPxBuffer st' = EPxBuffer st /\
                epXdata0 st' = epXdata0 st) ->
             exists (st' : usb) (ctl' : register_pair),
               r = Some st' /\
               well_formed st' /\
               EPxControl st' !! Z.to_nat ep = Some ctl' /\
               (forall w' : Z,
                  (w' = In ctl' /\ In ctl' <> In ctl) \/
                  (w' = Out ctl' /\ Out ctl' <> Out ctl) ->
                  Z.land w' usbEpControlBufferAddress = Buffer0_offset ep /\
                  Z.land w' usbEpControlEnable = usbEpControlEnable /\
                  Z.land w' usbEpControlInterruptPerBuff
                  = usbEpControlInterruptPerBuff /\
                  (Z.land w' usbEpControlEndpointType
                   = usbEpControlEndpointTypeBulk \/
                   Z.land w' usbEpControlEndpointType
                   = usbEpControlEndpointTypeInterrupt)) /\
               (forall j : nat,
                  j <> Z.to_nat ep ->
                  EPxControl st' !! j = EPxControl st !! j /\
                  EPxBufferControl st' !! j = EPxBufferControl st !! j) /\
               EPxBuffer st' = EPxBuffer st /\
               epXdata0 st' = epXdata0 st).
  { intros w r Hw (st' & ctl' & Hr & Hwf' & Hc' & Hv & Hrest).
    exists st', ctl'. split; [exact Hr|]. split; [exact Hwf'|].
    split; [exact Hc'|]. split; [|exact Hrest].
    exact (Hone ctl' w Hw Hv). }
  unfold initEndpoint. cbn zeta. fold wb wi.
  destruct (config =? Z.lor ENDPOINT_TYPE_INTERRUPT EndpointIn).
  { apply (Hfinish wi); [right; reflexivity|].
    apply Hin. right; reflexivity. }
  destruct (config =? Z.lor ENDPOINT_TYPE_BULK EndpointOut).
  { apply (Hfinish wb); [left; reflexivity|].
    apply Hout. left; reflexivity. }
  destruct (config =? Z.lor ENDPOINT_TYPE_INTERRUPT EndpointOut).
  { apply (Hfinish wi); [right; reflexivity|].
    apply Hout. right; reflexivity. }
  destruct (config =? Z.lor ENDPOINT_TYPE_BULK EndpointIn).
  { apply (Hfinish wb); [left; reflexivity|].
    apply Hin. left; reflexivity. }
  destruct (config =? ENDPOINT_TYPE_CONTROL).
  - rewrite (EPxBufferControl_Out_Set_state ep _ _ bctl Hbctl).
    cbn [mbind option_bind].
    rewrite (Out_SetBits_state ep _ _
               {| In := In bctl; Out := usbBuf0CtrlData1Pid |})
      by (cbn [EPxBufferControl set_EPxBufferControl];
          apply list_lookup_insert_eq; lia).
    eexists _, ctl. split; [reflexivity|].
    split.
    { unfold well_formed. cbn [EPxControl EPxBufferControl EPxBuffer epXdata0
                                 setupBytes set_EPxBufferControl].
      rewrite !length_insert. repeat (split; [assumption|]). assumption. }
    cbn [EPxControl EPxBufferControl EPxBuffer epXdata0
           set_EPxBufferControl].
    split; [exact Hctl|].
    split; [intros w [[_ Hne] | [_ Hne]]; contradiction|].
    split; [|split; reflexivity].
    intros j Hj. split; [reflexivity|].
    rewrite !list_lookup_insert_ne by congruence. reflexivity.
  - exists st, ctl. split; [reflexivity|]. split; [exact Hwf|].
    split; [exact Hctl|].
    split; [intros w [[_ Hne] | [_ Hne]]; contradiction|].
    split; [|split; reflexivity].
    intros j Hj. split; reflexivity.
Qed.

End EndpointsProperties.

End UsbProperties.

Section UsbExamples.
Import GoInt MachineADC MachineUSB.

Lemma reset_state_well_formed : well_formed reset_state.
Proof.
  unfold well_formed, reset_state.
  cbn [EPxControl EPxBufferControl EPxBuffer epXdata0 setupBytes].
  rewrite !length_replicate. repeat (split; [reflexivity|]).
  split; [|split; reflexivity].
  apply Forall_replicate. cbn [Buffer0 Buffer1].
  rewrite !length_replicate. split; reflexivity.
Qed.

Lemma setup_received_well_formed : well_formed setup_received.
Proof.
  destruct reset_state_well_formed as (H1 & H2 & H3 & H4 & H5 & H6).
  unfold well_formed, setup_received.
  cbn [EPxControl EPxBufferControl EPxBuffer epXdata0 setupBytes
         set_EPxControl].
  rewrite length_insert. repeat (split; [assumption|]). assumption.
Qed.

(** Endpoint 1 (address [0x81]) after reset, with a slice of length 2
    and capacity 4: two bytes are the packet [10; 20], DATA0; three
    bytes are within the capacity and take the byte after the slice
    with them. *)
Lemma sendViaEPIn_packet_witness :
  well_formed reset_state /\
  (ep_index 0x81 < 16)%nat /\
  0 <= 2 <= cap {| elems := [10; 20]; spare := [30; 40] |} /\
  0 <= 3 <= cap {| elems := [10; 20]; spare := [30; 40] |} /\
  2 <= usbBufferLen /\
  3 <= usbBufferLen /\
  (exists st' : usb,
     sendViaEPIn 0x81 {| elems := [10; 20]; spare := [30; 40] |} 2 reset_state
     = Some st' /\
     in_packet 1 st' = Some ([10; 20], false) /\
     epXdata0 st' !! 1%nat = Some true) /\
  (exists st' : usb,
     sendViaEPIn 0x81 {| elems := [10; 20]; spare := [30; 40] |} 3 reset_state
     = Some st' /\
     in_packet 1 st' = Some ([10; 20; 30], false)).
Proof.
  assert (Hwf : well_formed reset_state) by exact reset_state_well_formed.
  assert (Hi : (ep_index 0x81 < 16)%nat) by (vm_compute; lia).
  assert (Hc2 : 0 <= 2 <= cap {| elems := [10; 20]; spare := [30; 40] |})
    by (vm_compute; split; discriminate).
  assert (Hc3 : 0 <= 3 <= cap {| elems := [10; 20]; spare := [30; 40] |})
    by (vm_compute; split; discriminate).
  assert (Hl2 : 2 <= usbBufferLen) by (unfold usbBufferLen; lia).
  assert (Hl3 : 3 <= usbBufferLen) by (unfold usbBufferLen; lia).
  repeat (split; [assumption|]).
  split.
  - destruct (sendViaEPIn_packet 0x81 {| elems := [10; 20]; spare := [30; 40] |}
                2 reset_state Hwf Hi Hc2 Hl2)
      as (st' & b & ctl & Hs & _ & Hb & Hb' & Hp & _).
    vm_compute in Hb. injection Hb as <-.
    exists st'. split; [exact Hs|]. split; [exact Hp|]. exact Hb'.
  - destruct (sendViaEPIn_packet 0x81 {| elems := [10; 20]; spare := [30; 40] |}
                3 reset_state Hwf Hi Hc3 Hl3)
      as (st' & b & ctl & Hs & _ & Hb & Hb' & Hp & _).
    vm_compute in Hb. injection Hb as <-.
    exists st'. split; [exact Hs|]. exact Hp.
Defined.

(** Endpoint addresses [1] and [0x81] are the same endpoint to
    [sendViaEPIn]; endpoint 16 is a panic; with a slice of length 2
    and capacity 8, a count of 4 is no panic and a count of 9 is
    one. *)
Lemma sendViaEPIn_endpoint_address_witness :
  well_formed reset_state /\
  sendViaEPIn (Z.lor 1 0x80) {| elems := [7]; spare := [] |} 1 reset_state
  = sendViaEPIn 1 {| elems := [7]; spare := [] |} 1 reset_state /\
  sendViaEPIn 16 {| elems := [7]; spare := [] |} 1 reset_state = None /\
  sendViaEPIn 1 {| elems := [1; 2]; spare := [0; 0; 0; 0; 0; 0] |} 4
              reset_state <> None /\
  sendViaEPIn 1 {| elems := [1; 2]; spare := [0; 0; 0; 0; 0; 0] |} 9
              reset_state = None.
Proof.
  assert (Hwf : well_formed reset_state) by exact reset_state_well_formed.
  split; [exact Hwf|]. split.
  { exact (proj1 (sendViaEPIn_endpoint_address 1
                    {| elems := [7]; spare := [] |} 1 reset_state)). }
  split.
  { apply (proj2 (sendViaEPIn_endpoint_address 16
                    {| elems := [7]; spare := [] |} 1 reset_state) Hwf).
    left. vm_compute. lia. }
  split.
  { intros Hnone.
    apply (proj2 (sendViaEPIn_endpoint_address 1
                    {| elems := [1; 2]; spare := [0; 0; 0; 0; 0; 0] |} 4
                    reset_state) Hwf) in Hnone.
    destruct Hnone as [H | [H | H]]; vm_compute in H;
      first [lia | discriminate H | exact (H eq_refl)]. }
  apply (proj2 (sendViaEPIn_endpoint_address 1
                  {| elems := [1; 2]; spare := [0; 0; 0; 0; 0; 0] |} 9
                  reset_state) Hwf).
  right. right. vm_compute. reflexivity.
Defined.


(** Endpoint 2 after reset: an empty packet is returned and the buffer
    is re-armed for 64 bytes, available, expecting DATA1. *)
Lemma endpoint_rx_rearms_buffer_witness :
  well_formed reset_state /\
  0 <= 2 < 16 /\
  EPxBufferControl reset_state !! Z.to_nat 2 = Some {| In := 0; Out := 0 |} /\
  EPxBuffer reset_state !! Z.to_nat 2
  = Some {| Buffer0 := replicate 64 0; Buffer1 := replicate 64 0 |} /\
  epXdata0 reset_state !! Z.to_nat 2 = Some false /\
  exists st1 st2 : usb,
    handleEndpointRx 2 reset_state = Some ([], st1) /\
    handleEndpointRxComplete 2 st1 = Some st2 /\
    EPxBufferControl st2 !! Z.to_nat 2
    = Some {| In := 0; Out := 64 + usbBuf0CtrlData1Pid + usbBuf0CtrlAvail |} /\
    epXdata0 st2 !! Z.to_nat 2 = Some true.
Proof.
  assert (Hwf : well_formed reset_state) by exact reset_state_well_formed.
  assert (Hep : 0 <= 2 < 16) by lia.
  assert (Hctl : EPxBufferControl reset_state !! Z.to_nat 2
                 = Some {| In := 0; Out := 0 |}) by reflexivity.
  assert (Hbuf : EPxBuffer reset_state !! Z.to_nat 2
                 = Some {| Buffer0 := replicate 64 0;
                           Buffer1 := replicate 64 0 |}) by reflexivity.
  assert (Hb : epXdata0 reset_state !! Z.to_nat 2 = Some false)
    by reflexivity.
  repeat (split; [assumption|]).
  destruct (proj2 (endpoint_rx_rearms_buffer 2 reset_state _ _ _
                     Hwf Hep Hctl Hbuf Hb))
    as (st1 & st2 & Hrx & Hdone & Hc & Ht & _).
  { vm_compute. discriminate. }
  exists st1, st2. split; [exact Hrx|]. split; [exact Hdone|].
  split; [exact Hc|]. exact Ht.
Defined.

(** The GET_DESCRIPTOR setup packet. *)
Lemma setupBytes_little_endian_witness :
  well_formed setup_received /\
  EPxControl setup_received !! Z.to_nat 0
  = Some {| In := 0x01000680; Out := 0x00120000 |} /\
  0 <= 0x01000680 < 2 ^ 32 /\
  0 <= 0x00120000 < 2 ^ 32 /\
  exists st' : usb,
    usbDPSRAM_setupBytes 0 setup_received
    = Some ([0x80; 0x06; 0x00; 0x01; 0x00; 0x00; 0x12; 0x00], st').
Proof.
  assert (Hwf : well_formed setup_received)
    by exact setup_received_well_formed.
  assert (Hctl : EPxControl setup_received !! Z.to_nat 0
                 = Some {| In := 0x01000680; Out := 0x00120000 |})
    by reflexivity.
  assert (Hin : 0 <= 0x01000680 < 2 ^ 32) by (cbn; lia).
  assert (Hout : 0 <= 0x00120000 < 2 ^ 32) by (cbn; lia).
  repeat (split; [assumption|]).
  destruct (setupBytes_little_endian 0 setup_received _ Hwf Hctl Hin Hout)
    as (b0 & b1 & b2 & b3 & b4 & b5 & b6 & b7 & st' & Hs & _).
  exists st'. rewrite Hs.
  assert (Hv : fst <$> usbDPSRAM_setupBytes 0 setup_received
               = Some [0x80; 0x06; 0x00; 0x01; 0x00; 0x00; 0x12; 0x00])
    by (vm_compute; reflexivity).
  rewrite Hs in Hv. cbn in Hv. injection Hv as -> -> -> -> -> -> -> ->.
  reflexivity.
Defined.

(** [clear] after the setup packet: the eight bytes are gone. *)
Lemma clear_zeroes_control_registers_witness :
  well_formed setup_received /\
  exists st' : usb,
    usbDPSRAM_clear setup_received = Some st' /\
    EPxControl st' = replicate 16 {| In := 0; Out := 0 |} /\
    EPxBuffer st' = EPxBuffer setup_received.
Proof.
  assert (Hwf : well_formed setup_received)
    by exact setup_received_well_formed.
  split; [exact Hwf|].
  destruct (clear_zeroes_control_registers setup_received Hwf)
    as (st' & Hc & Hec & _ & Hb & _).
  exists st'. split; [exact Hc|]. split; [exact Hec|]. exact Hb.
Defined.

(** Address 42 requested, acknowledged at the sixth read of the status
    register; and never acknowledged. *)
Lemma handleUSBSetAddress_bounded_wait_witness :
  well_formed reset_state /\
  0 <= 64 /\
  (exists st' : usb,
     handleUSBSetAddress 64 0x40000 0x7F (ack_after 5 0x40000)
       {| WValueL := 42 |} reset_state = Some (true, st') /\
     in_packet 0 st' = Some ([], true) /\
     ADDR_ENDP st' = 42) /\
  (exists st' : usb,
     handleUSBSetAddress 64 0x40000 0x7F (ack_after 3000 0x40000)
       {| WValueL := 42 |} reset_state = Some (true, st') /\
     ADDR_ENDP st' = 0).
Proof.
  assert (Hwf : well_formed reset_state) by exact reset_state_well_formed.
  assert (Hsize : 0 <= 64) by lia.
  repeat (split; [assumption|]).
  split.
  - destruct (handleUSBSetAddress_bounded_wait 64 0x40000 0x7F
                (ack_after 5 0x40000) {| WValueL := 42 |} reset_state
                Hwf Hsize)
      as (st' & Hs & Hp & Hack & _).
    exists st'. split; [exact Hs|]. split; [exact Hp|].
    rewrite Hack; [reflexivity|].
    exists 5%nat. split; [lia|]. vm_compute. discriminate.
  - destruct (handleUSBSetAddress_bounded_wait 64 0x40000 0x7F
                (ack_after 3000 0x40000) {| WValueL := 42 |} reset_state
                Hwf Hsize)
      as (st' & Hs & _ & _ & Hnone).
    exists st'. split; [exact Hs|].
    rewrite Hnone; [reflexivity|].
    intros k Hk. unfold ack_after.
    destruct (3000 <=? k)%nat eqn:E; [|reflexivity].
    apply Nat.leb_le in E. lia.
Defined.

(** Endpoint 2 as bulk IN, with the constants of package machine/usb
    ([ENDPOINT_TYPE_BULK = 2], [EndpointIn = 0x80]). *)
Lemma initEndpoint_control_word_witness :
  well_formed reset_state /\
  0 <= 2 < 16 /\
  EPxControl reset_state !! Z.to_nat 2 = Some {| In := 0; Out := 0 |} /\
  exists (st' : usb) (ctl' : register_pair),
    initEndpoint 0 2 3 0x80 0 2 0x82 reset_state = Some st' /\
    EPxControl st' !! Z.to_nat 2 = Some ctl' /\
    In ctl' = 0xA8000200 /\
    Z.land (In ctl') usbEpControlBufferAddress = Buffer0_offset 2.
Proof.
  assert (Hwf : well_formed reset_state) by exact reset_state_well_formed.
  assert (Hep : 0 <= 2 < 16) by lia.
  assert (Hctl : EPxControl reset_state !! Z.to_nat 2
                 = Some {| In := 0; Out := 0 |}) by reflexivity.
  repeat (split; [assumption|]).
  destruct (initEndpoint_control_word 0 2 3 0x80 0 2 0x82 reset_state _
              Hwf Hep Hctl)
    as (st' & ctl' & Hs & _ & Hc & Hw & _).
  assert (Hv : (fun s => In <$> EPxControl s !! Z.to_nat 2)
               <$> initEndpoint 0 2 3 0x80 0 2 0x82 reset_state
               = Some (Some 0xA8000200)) by (vm_compute; reflexivity).
  rewrite Hs in Hv. cbn [fmap option_fmap option_map] in Hv.
  rewrite Hc in Hv. cbn [fmap option_fmap option_map] in Hv.
  injection Hv as Hin.
  exists st', ctl'. split; [exact Hs|]. split; [exact Hc|].
  split; [exact Hin|].
  apply (Hw (In ctl')). left. split; [reflexivity|].
  rewrite Hin. cbn [In]. discriminate.
Defined.

End UsbExamples.

(* ===================================================================== *)
(** * Further properties: the MIPS routines at their edges *)
(* ===================================================================== *)

Section StackScanFurther.
Import Mips.

Variables base scanstack : Z.
Variable gc : machine -> machine.

Hypothesis Hbase : 0 <= base /\ base + 72 <= 2 ^ 32.
Hypothesis Hext : scanstack < base \/ base + 68 <= scanstack.

Lemma wrap32_mod8 (z : Z) : wrap32 z mod 8 = z mod 8.
Proof.
  unfold wrap32.
  assert (D : (8 | 2 ^ 32)) by (exists (2 ^ 29); reflexivity).
  apply (Z.mod_mod_divide _ _ 8 D).
Qed.

Lemma aligned_mod8 (z : Z) : z mod 8 = 0 -> aligned z = true.
Proof.
  intros H. unfold aligned. apply Z.eqb_eq.
  assert (D : (4 | 8)) by (exists 2; reflexivity).
  rewrite <- (Z.mod_mod_divide z 8 4 D), H. reflexivity.
Qed.

Lemma aligned_shift (a off : Z) :
  off mod 4 = 0 -> aligned (wrap32 (a + off)) = aligned a.
Proof.
  intros Hoff. unfold aligned, wrap32.
  assert (D : (4 | 2 ^ 32)) by (exists (2 ^ 30); reflexivity).
  rewrite (Z.mod_mod_divide _ _ 4 D).
  rewrite Z.add_mod by lia. rewrite Hoff, Z.add_0_r, Z.mod_mod by lia.
  reflexivity.
Qed.

(** X15.  The frame of [tinygo_scanCurrentStack] is 40 bytes: entered with a
    stack pointer that is a multiple of eight, as the o32 convention
    has it at every call, the routine calls [tinygo_scanstack] with a
    stack pointer that is again a multiple of eight, and passes that
    same value as the argument. *)
Theorem scanCurrentStack_keeps_stack_aligned :
  forall m : machine,
    entered base m ->
    getreg m sp mod 8 = 0 ->
    exists m1 : machine,
      run (scan_image base scanstack gc) 13 m = Some m1 /\
      pc m1 = scanstack /\
      getreg m1 sp = wrap32 (getreg m sp - 40) /\
      getreg m1 sp mod 8 = 0 /\
      getreg m1 a0 = getreg m1 sp.
Proof.
  intros m [Hpc Hnpc] H8.
  destruct m as [R M p n]. cbn [pc npc] in Hpc, Hnpc. subst p n.
  rewrite getreg_nz in H8 by discriminate. cbn [regs] in H8.
  rewrite (getreg_nz _ sp) by discriminate. cbn [regs].
  destruct (scan_prologue base scanstack gc Hbase Hext R M (aligned_mod8 _ H8))
    as (R1 & M1 & Hrun & Hsp1 & Ha0 & _).
  replace (addr base 0) with base in Hrun by (unfold addr; cbn; lia).
  replace (addr base 1) with (base + 4) in Hrun by (unfold addr; cbn; lia).
  eexists. split; [exact Hrun|]. cbn [pc].
  rewrite !(getreg_nz _ sp), (getreg_nz _ a0) by discriminate. cbn [regs].
  split; [reflexivity|]. split; [exact Hsp1|]. split.
  - rewrite Hsp1, wrap32_mod8.
    replace (R sp + -40) with (R sp + -5 * 8) by lia.
    rewrite Z.mod_add by lia. exact H8.
  - rewrite Ha0, Hsp1. reflexivity.
Qed.

(** X16.  Entered with a stack pointer that is not a multiple of four,
    [tinygo_scanCurrentStack] stops with an address error at its first
    store: nothing has been written to memory and the scanner is not
    reached. *)
Theorem scanCurrentStack_misaligned_stack_faults :
  forall m : machine,
    entered base m ->
    aligned (getreg m sp) = false ->
    exists m1 : machine,
      run (scan_image base scanstack gc) 1 m = Some m1 /\
      mem m1 = mem m /\
      pc m1 = addr base 1 /\
      step (scan_image base scanstack gc) m1 = None /\
      forall n : nat,
        (2 <= n)%nat -> run (scan_image base scanstack gc) n m = None.
Proof.
  intros m [Hpc Hnpc] Hal.
  destruct m as [R M p n]. cbn [pc npc] in Hpc, Hnpc. subst p n.
  rewrite getreg_nz in Hal by discriminate. cbn [regs] in Hal.
  assert (H1 : step (scan_image base scanstack gc)
                 {| regs := R; mem := M; pc := base; npc := base + 4 |}
               = Some {| regs := setreg sp (wrap32 (R sp + -40)) R; mem := M;
                         pc := addr base 1; npc := addr base 2 |}).
  { replace base with (addr base 0) at 2 by (unfold addr; cbn; lia).
    erewrite (scan_fetch base scanstack gc Hext 0%nat) by reflexivity.
    cbn [exec pc npc mem regs]. regs_simpl.
    replace (base + 4) with (addr base 1) by (unfold addr; cbn; lia).
    rewrite addr_next by (unfold addr; lia). reflexivity. }
  assert (H2 : step (scan_image base scanstack gc)
                 {| regs := setreg sp (wrap32 (R sp + -40)) R; mem := M;
                    pc := addr base 1; npc := addr base 2 |} = None).
  { erewrite (scan_fetch base scanstack gc Hext 1%nat) by reflexivity.
    cbn [exec pc npc mem regs]. regs_simpl.
    rewrite !aligned_shift by reflexivity. rewrite Hal. reflexivity. }
  eexists. split; [cbn [run]; rewrite H1; reflexivity|].
  split; [reflexivity|]. split; [reflexivity|]. split; [exact H2|].
  intros k Hk. destruct k as [|[|k]]; try lia.
  cbn [run]. rewrite H1, H2. reflexivity.
Qed.

End StackScanFurther.

Section LongjmpFurther.
Import Mips.

Variable base : Z.

(** X18.  [tinygo_longjmp] reads the block before it does anything else:
    with [a0] not a multiple of four, or pointing at no mapped word (a
    nil frame pointer, on a machine with nothing mapped at address 0),
    the first instruction stops the machine, and no register has been
    written. *)
Theorem longjmp_bad_frame_faults :
  forall m : machine,
    entered base m ->
    is_word (getreg m a0) ->
    aligned (getreg m a0) = false \/ mem m !! getreg m a0 = None ->
    forall n : nat,
      (1 <= n)%nat -> run (longjmp_image base) n m = None.
Proof.
  intros m [Hpc Hnpc] Hword Hbad n Hn.
  destruct m as [R M p q]. cbn [pc npc] in Hpc, Hnpc. subst p q.
  rewrite !getreg_nz in Hbad by discriminate.
  rewrite getreg_nz in Hword by discriminate.
  cbn [regs mem] in Hbad, Hword.
  assert (H0 : wrap32 (R a0 + 0) = R a0)
    by (rewrite Z.add_0_r; apply wrap32_small; assumption).
  assert (H1 : step (longjmp_image base)
                 {| regs := R; mem := M; pc := base; npc := base + 4 |}
               = None).
  { replace base with (addr base 0) at 2 by (unfold addr; cbn; lia).
    erewrite (longjmp_fetch base 0%nat) by reflexivity.
    cbn [exec pc npc mem regs]. regs_simpl. rewrite H0.
    destruct Hbad as [Hal | Hmem].
    - rewrite Hal. reflexivity.
    - rewrite Hmem. destruct (aligned (R a0)); reflexivity. }
  destruct n as [|n]; [lia|]. cbn [run]. rewrite H1. reflexivity.
Qed.

End LongjmpFurther.

Section MipsFurtherExamples.
Import Mips.

Lemma scanCurrentStack_keeps_stack_aligned_witness :
  (0 <= 0x1000 /\ 0x1000 + 72 <= 2 ^ 32) /\
  (0x2000 < 0x1000 \/ 0x1000 + 68 <= 0x2000) /\
  entered 0x1000 (boot 0x1000 caller_regs ∅) /\
  getreg (boot 0x1000 caller_regs ∅) sp mod 8 = 0 /\
  exists m1 : machine,
    run (scan_image 0x1000 0x2000 scanstack_stub) 13
        (boot 0x1000 caller_regs ∅) = Some m1 /\
    pc m1 = 0x2000 /\
    getreg m1 sp = 0x7FD8 /\
    getreg m1 sp mod 8 = 0.
Proof.
  assert (Hb : 0 <= 0x1000 /\ 0x1000 + 72 <= 2 ^ 32) by (cbn; lia).
  assert (He : 0x2000 < 0x1000 \/ 0x1000 + 68 <= 0x2000) by lia.
  assert (Hent : entered 0x1000 (boot 0x1000 caller_regs ∅))
    by (split; reflexivity).
  assert (H8 : getreg (boot 0x1000 caller_regs ∅) sp mod 8 = 0)
    by reflexivity.
  repeat (split; [assumption|]).
  destruct (scanCurrentStack_keeps_stack_aligned 0x1000 0x2000
              scanstack_stub Hb He (boot 0x1000 caller_regs ∅) Hent H8)
    as (m1 & Hrun & Hpc & Hsp & Hmod & _).
  exists m1. split; [exact Hrun|]. split; [exact Hpc|].
  split; [rewrite Hsp; reflexivity | exact Hmod].
Defined.

Lemma scanCurrentStack_misaligned_stack_faults_witness :
  (0 <= 0x1000 /\ 0x1000 + 72 <= 2 ^ 32) /\
  (0x2000 < 0x1000 \/ 0x1000 + 68 <= 0x2000) /\
  entered 0x1000 (boot 0x1000 odd_stack_regs ∅) /\
  aligned (getreg (boot 0x1000 odd_stack_regs ∅) sp) = false /\
  run (scan_image 0x1000 0x2000 scanstack_stub) 18
      (boot 0x1000 odd_stack_regs ∅) = None.
Proof.
  assert (Hb : 0 <= 0x1000 /\ 0x1000 + 72 <= 2 ^ 32) by (cbn; lia).
  assert (He : 0x2000 < 0x1000 \/ 0x1000 + 68 <= 0x2000) by lia.
  assert (Hent : entered 0x1000 (boot 0x1000 odd_stack_regs ∅))
    by (split; reflexivity).
  assert (Hal : aligned (getreg (boot 0x1000 odd_stack_regs ∅) sp) = false)
    by reflexivity.
  repeat (split; [assumption|]).
  destruct (scanCurrentStack_misaligned_stack_faults 0x1000 0x2000
              scanstack_stub Hb He (boot 0x1000 odd_stack_regs ∅) Hent Hal)
    as (m1 & _ & _ & _ & _ & Hrun).
  apply Hrun. lia.
Defined.

Lemma scanCurrentStack_link_register_witness :
  (0 <= 0x1000 /\ 0x1000 + 72 <= 2 ^ 32) /\
  (0x2000 < 0x1000 \/ 0x1000 + 68 <= 0x2000) /\
  o32_call scanstack_stub /\
  entered 0x1000 (boot 0x1000 caller_regs ∅) /\
  is_word (getreg (boot 0x1000 caller_regs ∅) sp) /\
  aligned (getreg (boot 0x1000 caller_regs ∅) sp) = true /\
  exists m3 : machine,
    run (scan_image 0x1000 0x2000 scanstack_stub) 18
        (boot 0x1000 caller_regs ∅) = Some m3 /\
    getreg m3 ra = 0x1044.
Proof.
  assert (Hb : 0 <= 0x1000 /\ 0x1000 + 72 <= 2 ^ 32) by (cbn; lia).
  assert (He : 0x2000 < 0x1000 \/ 0x1000 + 68 <= 0x2000) by lia.
  assert (Hent : entered 0x1000 (boot 0x1000 caller_regs ∅))
    by (split; reflexivity).
  assert (Hw : is_word (getreg (boot 0x1000 caller_regs ∅) sp))
    by (vm_compute; split; [discriminate | reflexivity]).
  assert (Hal : aligned (getreg (boot 0x1000 caller_regs ∅) sp) = true)
    by reflexivity.
  split; [exact Hb|]. split; [exact He|].
  split; [exact scanstack_stub_o32|].
  split; [exact Hent|]. split; [exact Hw|]. split; [exact Hal|].
  destruct (scanCurrentStack_link_register 0x1000 0x2000 scanstack_stub
              Hb He scanstack_stub_o32 (boot 0x1000 caller_regs ∅)
              Hent Hw Hal)
    as (m3 & Hrun & Hra).
  exists m3. split; [exact Hrun|]. rewrite Hra. reflexivity.
Defined.

Lemma longjmp_bad_frame_faults_witness :
  entered 0x1000 (boot 0x1000 caller_regs ∅) /\
  is_word (getreg (boot 0x1000 caller_regs ∅) a0) /\
  (aligned (getreg (boot 0x1000 caller_regs ∅) a0) = false \/
   mem (boot 0x1000 caller_regs ∅)
     !! getreg (boot 0x1000 caller_regs ∅) a0 = None) /\
  (1 <= 4)%nat /\
  run (longjmp_image 0x1000) 4 (boot 0x1000 caller_regs ∅) = None.
Proof.
  assert (Hent : entered 0x1000 (boot 0x1000 caller_regs ∅))
    by (split; reflexivity).
  assert (Hw : is_word (getreg (boot 0x1000 caller_regs ∅) a0))
    by (vm_compute; split; [discriminate | reflexivity]).
  assert (Hbad : aligned (getreg (boot 0x1000 caller_regs ∅) a0) = false \/
                 mem (boot 0x1000 caller_regs ∅)
                   !! getreg (boot 0x1000 caller_regs ∅) a0 = None)
    by (right; reflexivity).
  assert (Hn : (1 <= 4)%nat) by lia.
  repeat (split; [assumption|]).
  exact (longjmp_bad_frame_faults 0x1000 (boot 0x1000 caller_regs ∅)
           Hent Hw Hbad 4%nat Hn).
Defined.

End MipsFurtherExamples.

(* ===================================================================== *)
(** * Further properties: the log, the failure flags, Setenv, TempDir *)
(* ===================================================================== *)

Section TestingCommonProperties.
Import Testing TestingCommon.

Lemma append_cons (ch : ascii) (s t : string) :
  (String ch s ++ t)%string = String ch (s ++ t)%string.
Proof. reflexivity. Qed.

Lemma append_empty_r (s : string) : (s ++ "")%string = s.
Proof.
  induction s as [|ch s IH]; [reflexivity|].
  change (String ch s ++ "")%string with (String ch (s ++ ""))%string.
  rewrite IH. reflexivity.
Qed.

Lemma append_assoc (s t u : string) :
  ((s ++ t) ++ u = s ++ (t ++ u))%string.
Proof.
  induction s as [|ch s IH]; [reflexivity|].
  change (String ch ((s ++ t) ++ u) = String ch (s ++ (t ++ u)))%string.
  rewrite IH. reflexivity.
Qed.

Lemma ends_with_newline_app (s : string) :
  ends_with_newline (s ++ String newline EmptyString)%string = true.
Proof.
  induction s as [|ch s IH]; [reflexivity|].
  rewrite append_cons. cbn [ends_with_newline].
  destruct (s ++ String newline EmptyString)%string eqn:E.
  - destruct s; discriminate E.
  - exact IH.
Qed.

Lemma drop_last_app (s : string) :
  drop_last (s ++ String newline EmptyString)%string = s.
Proof.
  induction s as [|ch s IH]; [reflexivity|].
  rewrite append_cons. cbn [drop_last].
  destruct (s ++ String newline EmptyString)%string eqn:E.
  - destruct s; discriminate E.
  - rewrite IH. reflexivity.
Qed.

Lemma ends_with_newline_app_r (s t : string) :
  ends_with_newline t = true -> ends_with_newline (s ++ t)%string = true.
Proof.
  intros Ht. induction s as [|ch s IH]; [exact Ht|].
  rewrite append_cons. cbn [ends_with_newline].
  destruct (s ++ t)%string eqn:E.
  - destruct s; [|discriminate E].
    change (t = EmptyString) in E. subst t. discriminate Ht.
  - exact IH.
Qed.

Lemma prefix_app (s t : string) : String.prefix s (s ++ t)%string = true.
Proof.
  induction s as [|ch s IH].
  - destruct t; reflexivity.
  - rewrite append_cons. cbn [String.prefix].
    destruct (Ascii.ascii_dec ch ch) as [_|N]; [exact IH|contradiction].
Qed.

Lemma logger_Write_twice (p q : string) (w : world) :
  logger_Write q (logger_Write p w) = logger_Write (p ++ q)%string w.
Proof.
  unfold logger_Write.
  destruct (logToStdout (output (test w))) eqn:E; cbn; rewrite ?E; cbn.
  - rewrite append_assoc. reflexivity.
  - unfold on_test, set_output. cbn. rewrite append_assoc. reflexivity.
Qed.

Lemma logger_Write_fields (p : string) (w : world) :
  indent (test (logger_Write p w)) = indent (test w) /\
  failed (test (logger_Write p w)) = failed (test w) /\
  skipped (test (logger_Write p w)) = skipped (test w) /\
  finished (test (logger_Write p w)) = finished (test w) /\
  cleanups (test (logger_Write p w)) = cleanups (test w) /\
  environ (logger_Write p w) = environ w.
Proof.
  unfold logger_Write. destruct (logToStdout _); repeat split; reflexivity.
Qed.

(** The lines after the first, written one after the other, make one
    write together with what was written before them. *)
Lemma log_more (more : list string) :
  forall (w : world) (done : string),
    exists text : string,
      fold_left
        (fun w line =>
           logger_Write (indent (test w) ++ "        " ++ line
                         ++ String newline EmptyString)%string w)
        more (logger_Write done w)
      = logger_Write (done ++ text)%string w /\
      (text = EmptyString \/ ends_with_newline text = true).
Proof.
  induction more as [|line more IH]; intros w done; cbn [fold_left].
  - exists EmptyString. rewrite append_empty_r. split; [reflexivity|].
    left. reflexivity.
  - destruct (logger_Write_fields done w) as (Hi & _). rewrite Hi.
    rewrite logger_Write_twice.
    destruct (IH w (done ++ (indent (test w) ++ "        " ++ line
                             ++ String newline EmptyString))%string)
      as (text & Hw & Ht).
    exists ((indent (test w) ++ "        " ++ line
             ++ String newline EmptyString) ++ text)%string.
    rewrite Hw, append_assoc. split; [reflexivity|]. right.
    destruct Ht as [-> | Ht].
    + rewrite append_empty_r.
      apply ends_with_newline_app_r, ends_with_newline_app_r.
      apply (ends_with_newline_app line).
    + apply ends_with_newline_app_r. exact Ht.
Qed.

Lemma log_one_write (s : string) (w : world) :
  exists text : string,
    log s w = logger_Write text w /\
    String.prefix (indent (test w)) text = true /\
    ends_with_newline text = true.
Proof.
  unfold log.
  destruct (Split_newline (if ends_with_newline s then drop_last s else s))
    as [first more].
  destruct (log_more more w (indent (test w) ++ "    " ++ first
                             ++ String newline EmptyString)%string)
    as (text & Hw & Ht).
  eexists. split; [exact Hw|]. split.
  - rewrite append_assoc. apply prefix_app.
  - destruct Ht as [-> | Ht].
    + rewrite append_empty_r.
      apply ends_with_newline_app_r, ends_with_newline_app_r.
      apply (ends_with_newline_app first).
    + apply ends_with_newline_app_r. exact Ht.
Qed.

Lemma log_fields (s : string) (w : world) :
  indent (test (log s w)) = indent (test w) /\
  failed (test (log s w)) = failed (test w) /\
  skipped (test (log s w)) = skipped (test w) /\
  finished (test (log s w)) = finished (test w) /\
  cleanups (test (log s w)) = cleanups (test w) /\
  environ (log s w) = environ w.
Proof.
  destruct (log_one_write s w) as (text & -> & _).
  apply logger_Write_fields.
Qed.

(** X19.  Whatever string [log] is given, it appends whole lines to one
    destination, the buffer of the test or the standard output: the
    text appended starts with the indentation of the test and ends with
    a newline; and one newline at the end of the string makes no
    difference. *)
Theorem log_writes_whole_lines :
  forall (s : string) (w : world),
    (exists text : string,
       log s w = logger_Write text w /\
       String.prefix (indent (test w)) text = true /\
       ends_with_newline text = true) /\
    (ends_with_newline s = false ->
     log (s ++ String newline EmptyString)%string w = log s w).
Proof.
  intros s w. split; [apply log_one_write|].
  intros Hs. unfold log.
  rewrite ends_with_newline_app, drop_last_app, Hs. reflexivity.
Qed.

Lemma log_closures (s : string) (w : world) :
  closures (log s w) = closures w.
Proof.
  destruct (log_one_write s w) as (text & -> & _).
  unfold logger_Write. destruct (logToStdout _); reflexivity.
Qed.

Lemma Fatal_closures (s : string) (w : world) :
  closures (Fatal s w) = closures w.
Proof.
  unfold Fatal, FailNow, Error, Fail, on_test. cbn [closures].
  rewrite log_closures. cbn [closures]. apply log_closures.
Qed.

Section ProcessProperties.
Variable setenv_error : string -> string -> option string.
Variable user_call : nat -> gmap string string -> gmap string string.

Lemma Error_fields (s : string) (w : world) :
  failed (test (Error s w)) = true /\
  skipped (test (Error s w)) = skipped (test w) /\
  finished (test (Error s w)) = finished (test w) /\
  cleanups (test (Error s w)) = cleanups (test w) /\
  environ (Error s w) = environ w.
Proof.
  destruct (log_fields s w) as (_ & _ & H2 & H3 & H4 & H5).
  unfold Error, Fail, on_test, set_failed. cbn.
  repeat split; assumption.
Qed.

Lemma FailNow_fields (w : world) :
  failed (test (FailNow w)) = true /\
  skipped (test (FailNow w)) = skipped (test w) /\
  finished (test (FailNow w)) = true /\
  cleanups (test (FailNow w)) = cleanups (test w) /\
  environ (FailNow w) = environ w.
Proof.
  unfold FailNow.
  match goal with
  | |- context [Error ?s ?x] =>
      destruct (Error_fields s x) as (H1 & H2 & H3 & H4 & H5)
  end.
  rewrite H1, H2, H3, H4, H5. repeat split; reflexivity.
Qed.

Lemma SkipNow_fields (w : world) :
  failed (test (SkipNow w)) = true /\
  skipped (test (SkipNow w)) = true /\
  finished (test (SkipNow w)) = true /\
  cleanups (test (SkipNow w)) = cleanups (test w) /\
  environ (SkipNow w) = environ w.
Proof.
  unfold SkipNow.
  match goal with
  | |- context [Error ?s ?x] =>
      destruct (Error_fields s x) as (H1 & H2 & H3 & H4 & H5)
  end.
  rewrite H1, H2, H3, H4, H5. repeat split; reflexivity.
Qed.

Lemma Fatal_fields (s : string) (w : world) :
  failed (test (Fatal s w)) = true /\
  skipped (test (Fatal s w)) = skipped (test w) /\
  finished (test (Fatal s w)) = true /\
  cleanups (test (Fatal s w)) = cleanups (test w) /\
  environ (Fatal s w) = environ w.
Proof.
  unfold Fatal.
  destruct (FailNow_fields (log s w)) as (H1 & H2 & H3 & H4 & H5).
  destruct (log_fields s w) as (_ & _ & L2 & _ & L4 & L5).
  rewrite H1, H2, H3, H4, H5. repeat split; assumption.
Qed.

Lemma Skip_fields (s : string) (w : world) :
  failed (test (Skip s w)) = true /\
  skipped (test (Skip s w)) = true /\
  finished (test (Skip s w)) = true /\
  cleanups (test (Skip s w)) = cleanups (test w) /\
  environ (Skip s w) = environ w.
Proof.
  unfold Skip.
  destruct (SkipNow_fields (log s w)) as (H1 & H2 & H3 & H4 & H5).
  destruct (log_fields s w) as (_ & _ & _ & _ & L4 & L5).
  rewrite H1, H2, H3, H4, H5. repeat split; assumption.
Qed.

Lemma Setenv_flags (key value : string) (w : world) :
  failed (test (Setenv setenv_error key value w))
  = failed (test w)
    || match setenv_error key value with None => false | Some _ => true end /\
  skipped (test (Setenv setenv_error key value w)) = skipped (test w).
Proof.
  unfold Setenv.
  destruct (setenv_error key value) as [err|].
  - destruct (Fatal_fields ("cannot set environment variable: " ++ err)%string w)
      as (H1 & H2 & _).
    destruct (environ w !! key);
      unfold Cleanup, make_closure, on_test, set_cleanups;
      cbn [test failed skipped];
      rewrite H1, H2, orb_true_r; split; reflexivity.
  - destruct (environ w !! key);
      unfold Cleanup, make_closure, on_test, set_cleanups, set_environ;
      cbn [test failed skipped]; rewrite orb_false_r; split; reflexivity.
Qed.

Lemma invoke_flags (m : method) (w : world) :
  Failed (invoke setenv_error w m)
  = Failed w || negb (quiet setenv_error m) /\
  Skipped (invoke setenv_error w m)
  = Skipped w || match m with Skip_ _ | SkipNow_ => true | _ => false end.
Proof.
  unfold Failed, Skipped.
  destruct m as [s|s|s|s| | | | |f|key value]; cbn [invoke quiet negb].
  - destruct (log_fields s w) as (_ & H1 & H2 & _). unfold Log.
    rewrite H1, H2, !orb_false_r. split; reflexivity.
  - destruct (Error_fields s w) as (H1 & H2 & _).
    rewrite H1, H2, orb_true_r, orb_false_r. split; reflexivity.
  - destruct (Fatal_fields s w) as (H1 & H2 & _).
    rewrite H1, H2, orb_true_r, orb_false_r. split; reflexivity.
  - destruct (Skip_fields s w) as (H1 & H2 & _).
    rewrite H1, H2, !orb_true_r. split; reflexivity.
  - destruct (SkipNow_fields w) as (H1 & H2 & _).
    rewrite H1, H2, !orb_true_r. split; reflexivity.
  - cbn. rewrite orb_true_r, orb_false_r. split; reflexivity.
  - destruct (FailNow_fields w) as (H1 & H2 & _).
    rewrite H1, H2, orb_true_r, orb_false_r. split; reflexivity.
  - unfold Helper. rewrite !orb_false_r. split; reflexivity.
  - cbn. rewrite !orb_false_r. split; reflexivity.
  - destruct (Setenv_flags key value w) as (H1 & H2).
    rewrite H1, H2, orb_false_r.
    destruct (setenv_error key value); split; reflexivity.
Qed.

(** X20.  After any sequence of calls on a test, [Failed] reports true
    exactly if it did before or one of the calls was something else
    than [Log], [Helper], [Cleanup] or a [Setenv] that succeeded, and
    [Skipped] reports true exactly if it did before or one of the
    calls was [Skip] or [SkipNow].  No call takes a flag back; and a
    test that gets skipped is a test that has failed. *)
Theorem Failed_after_methods :
  forall (ms : list method) (w : world),
    Failed (fold_left (invoke setenv_error) ms w)
    = Failed w || existsb (fun m => negb (quiet setenv_error m)) ms /\
    Skipped (fold_left (invoke setenv_error) ms w)
    = Skipped w
      || existsb (fun m => match m with
                           | Skip_ _ | SkipNow_ => true
                           | _ => false
                           end) ms /\
    (Skipped w = false ->
     Skipped (fold_left (invoke setenv_error) ms w) = true ->
     Failed (fold_left (invoke setenv_error) ms w) = true).
Proof.
  assert (Hflags : forall (ms : list method) (w : world),
             Failed (fold_left (invoke setenv_error) ms w)
             = Failed w || existsb (fun m => negb (quiet setenv_error m)) ms /\
             Skipped (fold_left (invoke setenv_error) ms w)
             = Skipped w
               || existsb (fun m => match m with
                                    | Skip_ _ | SkipNow_ => true
                                    | _ => false
                                    end) ms).
  { induction ms as [|m ms IH]; intros w; cbn [fold_left existsb].
    - rewrite !orb_false_r. split; reflexivity.
    - destruct (IH (invoke setenv_error w m)) as (H1 & H2).
      destruct (invoke_flags m w) as (F1 & F2).
      rewrite H1, H2, F1, F2, !orb_assoc. split; reflexivity. }
  intros ms w. destruct (Hflags ms w) as (H1 & H2).
  split; [exact H1|]. split; [exact H2|].
  intros Hw Hs. rewrite H1. rewrite H2, Hw in Hs. cbn [orb] in Hs.
  apply orb_true_iff. right.
  apply existsb_exists in Hs as (m & Hin & Hm).
  apply existsb_exists. exists m. split; [exact Hin|].
  destruct m; try discriminate Hm; reflexivity.
Qed.

Lemma runCleanup_calls (w : world) (ids : list nat) :
  cleanups (test w) = map fn ids ->
  runCleanup setenv_error user_call w
  = fold_left (fun w id => call setenv_error user_call id w) (rev ids)
              (on_test (set_cleanups []) w).
Proof.
  intros Hc. unfold runCleanup. rewrite Hc.
  rewrite (runCleanup_functions inert ids (fun id h _ => eq_refl))
    by (rewrite length_map; lia).
  reflexivity.
Qed.

Lemma call_closure (i : nat) (x : world) :
  call setenv_error user_call (closure_id i) x
  = match closures x !! i with
    | Some (restore_env key prevValue) => os_Setenv setenv_error key prevValue x
    | Some (unset_env key) => set_environ (delete key (environ x)) x
    | None => x
    end.
Proof.
  unfold call, closure_id.
  rewrite Nat.even_mul, Nat.div2_double. reflexivity.
Qed.

(** The closures of this file read the environment and the table
    only. *)
Lemma call_environment (i : nat) (x y : world) :
  closures x !! i = closures y !! i ->
  environ x = environ y ->
  environ (call setenv_error user_call (closure_id i) x)
  = environ (call setenv_error user_call (closure_id i) y) /\
  test (call setenv_error user_call (closure_id i) x) = test x /\
  closures (call setenv_error user_call (closure_id i) x) = closures x.
Proof.
  intros Hcl E. rewrite !call_closure, <- Hcl.
  destruct (closures x !! i) as [[k v|k]|].
  - unfold os_Setenv. destruct (setenv_error k v); cbn; rewrite ?E;
      repeat split; reflexivity.
  - cbn. rewrite E. repeat split; reflexivity.
  - repeat split; [exact E].
Qed.

Lemma calls_environment (idxs : list nat) :
  forall x y : world,
    Forall (fun i => closures x !! i = closures y !! i) idxs ->
    environ x = environ y ->
    environ (fold_left (fun w id => call setenv_error user_call id w)
                       (map closure_id idxs) x)
    = environ (fold_left (fun w id => call setenv_error user_call id w)
                         (map closure_id idxs) y) /\
    test (fold_left (fun w id => call setenv_error user_call id w)
                    (map closure_id idxs) x) = test x.
Proof.
  induction idxs as [|i idxs IH]; intros x y Hall E; cbn [map fold_left].
  - split; [exact E | reflexivity].
  - apply Forall_cons_1 in Hall as [Hi Hall].
    destruct (call_environment i x y Hi E) as (E1 & T1 & C1).
    destruct (call_environment i y x (eq_sym Hi) (eq_sym E)) as (_ & _ & C2).
    destruct (IH (call setenv_error user_call (closure_id i) x)
                 (call setenv_error user_call (closure_id i) y))
      as (E2 & T2).
    { rewrite C1, C2. exact Hall. }
    { exact E1. }
    split; [exact E2|]. rewrite T2. exact T1.
Qed.

(** One [Setenv]: the closure it makes and registers undoes it. *)
Lemma Setenv_undo (key value : string) (w : world) :
  settable setenv_error (environ w) ->
  exists (cl : closure) (w1 : world),
    Setenv setenv_error key value w
    = Cleanup (fn (closure_id (length (closures w))))
        {| test := test w1; stdout := stdout w1; environ := environ w1;
           closures := closures w ++ [cl] |} /\
    cleanups (test w1) = cleanups (test w) /\
    settable setenv_error (environ w1) /\
    (forall x : world,
       environ x = environ w1 ->
       closures x !! length (closures w) = Some cl ->
       environ (call setenv_error user_call
                  (closure_id (length (closures w))) x) = environ w).
Proof.
  intros Hset. unfold Setenv.
  assert (Hins : setenv_error key value = None ->
                 settable setenv_error (<[key := value]> (environ w))).
  { intros Herr k v Hk. destruct (decide (k = key)) as [->|Hne].
    - rewrite lookup_insert_eq in Hk. injection Hk as <-. exact Herr.
    - rewrite lookup_insert_ne in Hk by congruence. exact (Hset k v Hk). }
  destruct (environ w !! key) as [prev|] eqn:Hprev.
  - exists (restore_env key prev).
    destruct (setenv_error key value) as [err|] eqn:Herr.
    + destruct (Fatal_fields ("cannot set environment variable: " ++ err)%string w)
        as (_ & _ & _ & H4 & H5).
      assert (H6 : closures (Fatal ("cannot set environment variable: " ++ err)%string w)
                   = closures w) by apply Fatal_closures.
      eexists. unfold make_closure. rewrite H6.
      split; [reflexivity|].
      split; [exact H4|]. rewrite H5. split; [exact Hset|].
      intros x Hx Hcl. rewrite call_closure, Hcl. unfold os_Setenv.
      rewrite (Hset key prev Hprev). cbn. rewrite Hx.
      apply insert_id. exact Hprev.
    + eexists. unfold make_closure. split; [reflexivity|].
      split; [reflexivity|]. cbn [environ set_environ].
      split; [exact (Hins eq_refl)|].
      intros x Hx Hcl. rewrite call_closure, Hcl. unfold os_Setenv.
      rewrite (Hset key prev Hprev). cbn. rewrite Hx.
      rewrite insert_insert_eq. apply insert_id. exact Hprev.
  - exists (unset_env key).
    destruct (setenv_error key value) as [err|] eqn:Herr.
    + destruct (Fatal_fields ("cannot set environment variable: " ++ err)%string w)
        as (_ & _ & _ & H4 & H5).
      assert (H6 : closures (Fatal ("cannot set environment variable: " ++ err)%string w)
                   = closures w) by apply Fatal_closures.
      eexists. unfold make_closure. rewrite H6.
      split; [reflexivity|].
      split; [exact H4|]. rewrite H5. split; [exact Hset|].
      intros x Hx Hcl. rewrite call_closure, Hcl. cbn. rewrite Hx.
      apply delete_id. exact Hprev.
    + eexists. unfold make_closure. split; [reflexivity|].
      split; [reflexivity|]. cbn [environ set_environ].
      split; [exact (Hins eq_refl)|].
      intros x Hx Hcl. rewrite call_closure, Hcl. cbn. rewrite Hx.
      rewrite delete_insert_eq. apply delete_id. exact Hprev.
Qed.

Lemma Setenv_sequence (sets : list (string * string)) :
  forall (w : world) (idxs : list nat),
    cleanups (test w) = map fn (map closure_id idxs) ->
    Forall (fun i => (i < length (closures w))%nat) idxs ->
    settable setenv_error (environ w) ->
    environ (runCleanup setenv_error user_call
               (fold_left (fun w kv => Setenv setenv_error kv.1 kv.2 w)
                          sets w))
    = environ (runCleanup setenv_error user_call w) /\
    cleanups (test (runCleanup setenv_error user_call
                      (fold_left (fun w kv => Setenv setenv_error kv.1 kv.2 w)
                                 sets w)))
    = [].
Proof.
  induction sets as [|[key value] sets IH]; intros w idxs Hc Hall Hset;
    cbn [fold_left].
  - split; [reflexivity|].
    rewrite (runCleanup_calls w (map closure_id idxs) Hc), <- map_rev.
    destruct (calls_environment (rev idxs) (on_test (set_cleanups []) w)
                (on_test (set_cleanups []) w)) as (_ & T).
    { apply Forall_forall. intros i _. reflexivity. }
    { reflexivity. }
    rewrite T. reflexivity.
  - cbn [fst snd].
    destruct (Setenv_undo key value w Hset)
      as (cl & w1 & Hs & Hc1 & Hset1 & Hundo).
    set (n := length (closures w)) in *.
    assert (Hc' : cleanups (test (Setenv setenv_error key value w))
                  = map fn (map closure_id (idxs ++ [n]))).
    { rewrite Hs. cbn. rewrite Hc1, Hc, !map_app. reflexivity. }
    assert (Hcl' : closures (Setenv setenv_error key value w)
                   = closures w ++ [cl]).
    { rewrite Hs. reflexivity. }
    assert (Hall' : Forall (fun i => (i < length (closures
                              (Setenv setenv_error key value w)))%nat)
                           (idxs ++ [n])).
    { rewrite Hcl', length_app. cbn [length]. apply Forall_app. split.
      - eapply Forall_impl; [exact Hall|]. cbn. intros i Hi. fold n in Hi. lia.
      - constructor; [fold n; lia | constructor]. }
    assert (Hset' : settable setenv_error
                      (environ (Setenv setenv_error key value w))).
    { rewrite Hs. exact Hset1. }
    destruct (IH _ _ Hc' Hall' Hset') as (E & C).
    split; [|exact C]. rewrite E.
    rewrite (runCleanup_calls _ _ Hc'), (runCleanup_calls w _ Hc).
    rewrite <- !map_rev, rev_app_distr. cbn [rev app map fold_left].
    apply calls_environment.
    + apply Forall_rev. eapply Forall_impl; [exact Hall|].
      cbn beta. intros i Hi.
      destruct (call_environment n
                  (on_test (set_cleanups [])
                     (Setenv setenv_error key value w))
                  (on_test (set_cleanups [])
                     (Setenv setenv_error key value w)) eq_refl eq_refl)
        as (_ & _ & Cn).
      rewrite Cn. cbn [closures on_test]. rewrite Hcl'.
      apply lookup_app_l. exact Hi.
    + apply Hundo.
      * rewrite Hs. reflexivity.
      * cbn [closures on_test]. rewrite Hcl'.
        rewrite lookup_app_r by (fold n; lia).
        fold n. rewrite Nat.sub_diag. reflexivity.
Qed.

(** X21.  Any number of [Setenv] calls, on any names and values and whether
    or not [os.Setenv] accepts them, followed by [runCleanup], leave
    the environment of the process as it was before the first call,
    and no cleanup registered.  (The values already in the environment
    are values [os.Setenv] accepts.) *)
Theorem Setenv_runCleanup_restores_environment :
  forall (sets : list (string * string)) (w : world),
    cleanups (test w) = [] ->
    (forall k v, environ w !! k = Some v -> setenv_error k v = None) ->
    environ (runCleanup setenv_error user_call
               (fold_left (fun w kv => Setenv setenv_error kv.1 kv.2 w)
                          sets w))
    = environ w /\
    cleanups (test (runCleanup setenv_error user_call
                      (fold_left (fun w kv => Setenv setenv_error kv.1 kv.2 w)
                                 sets w)))
    = [].
Proof.
  intros sets w Hc Hset.
  destruct (Setenv_sequence sets w [] Hc (Forall_nil_2 _) Hset) as (E & C).
  split; [|exact C]. rewrite E.
  rewrite (runCleanup_calls w [] Hc). reflexivity.
Qed.

End ProcessProperties.

Section TempDirProperties.
Variable IsLetter : Z -> bool.
Variable IsNumber : Z -> bool.

Lemma mapper_fixed (r : Z) :
  0 <= mapper IsLetter IsNumber r -> mapper IsLetter IsNumber r = r.
Proof.
  unfold mapper.
  repeat match goal with
         | |- context [if ?c then _ else _] => destruct c
         end; intros H; try reflexivity; lia.
Qed.

Lemma pattern_cons (r : Z) (name : list Z) :
  TempDir_pattern IsLetter IsNumber (r :: name)
  = if decide (0 <= mapper IsLetter IsNumber r)
    then r :: TempDir_pattern IsLetter IsNumber name
    else TempDir_pattern IsLetter IsNumber name.
Proof.
  unfold TempDir_pattern, strings_Map. cbn [map]. rewrite filter_cons.
  destruct (decide (0 <= mapper IsLetter IsNumber r)) as [H|H];
    [|reflexivity].
  rewrite (mapper_fixed r H). reflexivity.
Qed.

(** X22.  The pattern [TempDir] hands to [os.MkdirTemp] is the name of the
    test with some runes left out; whatever the name, it holds no path
    separator and none of the characters special in a pattern or a
    glob; and a name that went through the filter goes through it
    unchanged. *)
Theorem TempDir_pattern_safe :
  forall name : list Z,
    sublist (TempDir_pattern IsLetter IsNumber name) name /\
    Forall (fun r => 0 <= r /\
                     ~ In r [rune "/"; rune "\"; rune "*"; rune "?";
                             rune "["; rune "]"])
           (TempDir_pattern IsLetter IsNumber name) /\
    TempDir_pattern IsLetter IsNumber (TempDir_pattern IsLetter IsNumber name)
    = TempDir_pattern IsLetter IsNumber name.
Proof.
  induction name as [|r name (IH1 & IH2 & IH3)].
  - split; [constructor|]. split; [constructor|]. reflexivity.
  - rewrite pattern_cons.
    destruct (decide (0 <= mapper IsLetter IsNumber r)) as [H|H].
    + split; [apply sublist_skip; exact IH1|].
      split.
      * constructor; [|exact IH2]. split.
        -- rewrite <- (mapper_fixed r H). exact H.
        -- intros Hin. cbn [In] in Hin.
           repeat (destruct Hin as [<- | Hin];
                   [vm_compute in H; apply H; reflexivity|]).
           exact Hin.
      * rewrite pattern_cons. rewrite decide_True by exact H.
        rewrite IH3. reflexivity.
    + split; [apply sublist_cons; exact IH1|].
      split; [exact IH2 | exact IH3].
Qed.

End TempDirProperties.

End TestingCommonProperties.

Section TestingCommonExamples.
Import Testing TestingCommon.

(** [Log("boom")] and [Logf("boom")] write the same. *)
Lemma log_writes_whole_lines_witness :
  ends_with_newline "boom" = false /\
  log ("boom" ++ String newline EmptyString)%string fresh_world
  = log "boom" fresh_world /\
  b (output (test (log "boom" fresh_world)))
  = ("    boom" ++ String newline EmptyString)%string.
Proof.
  assert (H : ends_with_newline "boom" = false) by reflexivity.
  split; [exact H|]. split.
  - exact (proj2 (log_writes_whole_lines "boom" fresh_world) H).
  - reflexivity.
Defined.

(** A test that logs and then skips counts as failed. *)
Lemma Failed_after_methods_witness :
  Skipped fresh_world = false /\
  Skipped (fold_left (invoke setenv_posix)
                     [Log_ "start"; Skip_ "not on this board"] fresh_world)
  = true /\
  Failed (fold_left (invoke setenv_posix)
                    [Log_ "start"; Skip_ "not on this board"] fresh_world)
  = true.
Proof.
  assert (H0 : Skipped fresh_world = false) by reflexivity.
  assert (H1 : Skipped (fold_left (invoke setenv_posix)
                          [Log_ "start"; Skip_ "not on this board"]
                          fresh_world) = true) by reflexivity.
  split; [exact H0|]. split; [exact H1|].
  exact (proj2 (proj2 (Failed_after_methods setenv_posix
                         [Log_ "start"; Skip_ "not on this board"]
                         fresh_world)) H0 H1).
Defined.

(** A variable set twice, a name that is refused and a new
    variable. *)
Lemma Setenv_runCleanup_restores_environment_witness :
  cleanups (test fresh_world) = [] /\
  (forall k v : string,
     environ fresh_world !! k = Some v -> setenv_posix k v = None) /\
  environ (fold_left (fun w kv => Setenv setenv_posix kv.1 kv.2 w)
             [("HOME", "/tmp"); ("", "x"); ("TERM", "vt100");
              ("HOME", "/var")]%string fresh_world)
  = <["TERM"%string := "vt100"%string]>
      (<["HOME"%string := "/var"%string]> ∅) /\
  environ (runCleanup setenv_posix (fun _ env => env)
             (fold_left (fun w kv => Setenv setenv_posix kv.1 kv.2 w)
                [("HOME", "/tmp"); ("", "x"); ("TERM", "vt100");
                 ("HOME", "/var")]%string fresh_world))
  = environ fresh_world.
Proof.
  assert (Hc : cleanups (test fresh_world) = []) by reflexivity.
  assert (Hs : forall k v : string,
             environ fresh_world !! k = Some v -> setenv_posix k v = None).
  { intros k v Hk. unfold setenv_posix.
    destruct (decide (k = ""%string)) as [->|]; [|reflexivity].
    vm_compute in Hk. discriminate Hk. }
  split; [exact Hc|]. split; [exact Hs|]. split.
  - apply map_eq. intros k. vm_compute. reflexivity.
  - exact (proj1 (Setenv_runCleanup_restores_environment setenv_posix
                    (fun _ env => env)
                    [("HOME", "/tmp"); ("", "x"); ("TERM", "vt100");
                     ("HOME", "/var")]%string fresh_world Hc Hs)).
Defined.

End TestingCommonExamples.
